(** * RFC 3164 UDP syslog client (component/logger/syslog.c)

    A shallow embedding of the dispatcher ([init_logger], [logger_output],
    the statistics accessors) and of the line accumulator
    ([logger_printf_line]), with the properties of the specification
    checked against it.

    Conventions.
    - C strings are [list ascii]; [cstr] is the view of a char array as a
      NUL-terminated string.  A [const char*] that the code tests against
      NULL is an [option].
    - [int] values are [Z]; the [uint32_t] counters and the [uint16_t] port
      wrap explicitly.
    - FreeRTOS, lwIP and the RTC HAL are outside the repository: what they
      answer on a call is an input of the model (records [OutEnv],
      [InitEnv]), what they are asked to do is logged in [World]. *)

From Stdlib Require Import ZArith Bool Ascii String List Lia.
From Stdlib Require Import DecimalString.
Import ListNotations.
Local Open Scope Z_scope.

(** ** C strings *)

Definition cstring := list ascii.

Definition txt (s : string) : cstring := list_ascii_of_string s.

Definition NUL : ascii := "000"%char.
Definition CR : ascii := "013"%char.
Definition LF : ascii := "010"%char.

Definition is_nul (c : ascii) : bool := Ascii.eqb c NUL.

(** The characters of a char array up to its first NUL. *)
Fixpoint cstr (a : list ascii) : cstring :=
  match a with
  | [] => []
  | c :: a' => if is_nul c then [] else c :: cstr a'
  end.

Definition cstring_eqb (a b : cstring) : bool :=
  if list_eq_dec ascii_dec a b then true else false.

(** [strncmp(a, b, n) != 0] on NUL-terminated strings. *)
Definition strncmp_ne (a b : cstring) (n : nat) : bool :=
  negb (cstring_eqb (firstn n (cstr a)) (firstn n (cstr b))).

(** [strncpy(dst, src, n); dst[n] = 0], read back as a string. *)
Definition strncpy (src : cstring) (n : nat) : cstring := firstn n (cstr src).

(** [%d] and [%u] of printf. *)
Definition dec (z : Z) : cstring :=
  list_ascii_of_string (NilZero.string_of_int (Z.to_int z)).

(** [%0<w>lu] of printf. *)
Definition dec_pad (w : nat) (z : Z) : cstring :=
  let d := dec z in repeat "0"%char (w - length d) ++ d.

(** ** Levels and facilities (syslog.h) *)

Definition log_level_t := Z.

Definition LOG_LEVEL_NONE : log_level_t := 0.
Definition LOG_LEVEL_ERROR : log_level_t := 1.
Definition LOG_LEVEL_WARNING : log_level_t := 2.
Definition LOG_LEVEL_INFO : log_level_t := 3.
Definition LOG_LEVEL_DEBUG : log_level_t := 4.
Definition LOG_LEVEL_VERBOSE : log_level_t := 5.

Definition SYSLOG_FACILITY_USER : Z := 1.

Definition SYSLOG_MAX_MESSAGE_SIZE : nat := 1024.

(** ** Client state *)

Definition ip_addr_t := Z.
Definition udp_pcb := nat.
Definition SemaphoreHandle_t := nat.

Record Syslog_t := mkSyslog {
  server : ip_addr_t;
  port : Z;
  facility : Z;
  min_level : log_level_t;
  hostname : cstring;
  app_name : cstring;
  initialized : bool;
  udp : option udp_pcb;
  mutex : option SemaphoreHandle_t;
  send_count : Z;
  failed_count : Z
}.

Definition logger_syslog : Syslog_t :=
  {| server := 0;
     port := 514;
     facility := SYSLOG_FACILITY_USER;
     min_level := LOG_LEVEL_VERBOSE;
     hostname := txt "craner";
     app_name := txt "logger";
     initialized := false;
     udp := None;
     mutex := None;
     send_count := 0;
     failed_count := 0 |}.

Definition uint32 (z : Z) : Z := z mod 2 ^ 32.
Definition uint16 (z : Z) : Z := z mod 2 ^ 16.

Definition set_server (v : ip_addr_t) (s : Syslog_t) : Syslog_t :=
  mkSyslog v (port s) (facility s) (min_level s) (hostname s) (app_name s)
           (initialized s) (udp s) (mutex s) (send_count s) (failed_count s).
Definition set_port (v : Z) (s : Syslog_t) : Syslog_t :=
  mkSyslog (server s) v (facility s) (min_level s) (hostname s) (app_name s)
           (initialized s) (udp s) (mutex s) (send_count s) (failed_count s).
Definition set_min_level (v : log_level_t) (s : Syslog_t) : Syslog_t :=
  mkSyslog (server s) (port s) (facility s) v (hostname s) (app_name s)
           (initialized s) (udp s) (mutex s) (send_count s) (failed_count s).
Definition set_initialized (v : bool) (s : Syslog_t) : Syslog_t :=
  mkSyslog (server s) (port s) (facility s) (min_level s) (hostname s) (app_name s)
           v (udp s) (mutex s) (send_count s) (failed_count s).
Definition set_udp (v : option udp_pcb) (s : Syslog_t) : Syslog_t :=
  mkSyslog (server s) (port s) (facility s) (min_level s) (hostname s) (app_name s)
           (initialized s) v (mutex s) (send_count s) (failed_count s).
Definition set_mutex (v : option SemaphoreHandle_t) (s : Syslog_t) : Syslog_t :=
  mkSyslog (server s) (port s) (facility s) (min_level s) (hostname s) (app_name s)
           (initialized s) (udp s) v (send_count s) (failed_count s).
Definition set_send_count (v : Z) (s : Syslog_t) : Syslog_t :=
  mkSyslog (server s) (port s) (facility s) (min_level s) (hostname s) (app_name s)
           (initialized s) (udp s) (mutex s) v (failed_count s).
Definition set_failed_count (v : Z) (s : Syslog_t) : Syslog_t :=
  mkSyslog (server s) (port s) (facility s) (min_level s) (hostname s) (app_name s)
           (initialized s) (udp s) (mutex s) (send_count s) v.

(** [s->failed_count++] and [s->send_count++] on [uint32_t]. *)
Definition incr_failed (s : Syslog_t) : Syslog_t :=
  set_failed_count (uint32 (failed_count s + 1)) s.
Definition incr_sent (s : Syslog_t) : Syslog_t :=
  set_send_count (uint32 (send_count s + 1)) s.

(** ** The world outside the client

    [pcbs] are the lwIP UDP control blocks the client has created and not
    removed; [out] is what the client has written, oldest first: lines on
    the local sink (printf) and datagrams handed to [udp_sendto]. *)

Inductive Event :=
| Printf (text : cstring)
| Sendto (pcb : udp_pcb) (payload : cstring) (dst : ip_addr_t) (dport : Z) (ok : bool).

Record World := mkWorld {
  pcbs : list udp_pcb;
  out : list Event
}.

Definition printf (text : cstring) (w : World) : World :=
  mkWorld (pcbs w) (out w ++ [Printf text]).

Definition sendto (h : udp_pcb) (payload : cstring) (dst : ip_addr_t) (dport : Z)
           (ok : bool) (w : World) : World :=
  mkWorld (pcbs w) (out w ++ [Sendto h payload dst dport ok]).

(** lwIP's pool hands out a block that is not in use. *)
Definition fresh_pcb (l : list udp_pcb) : udp_pcb := S (list_max l).

Definition udp_new (ok : bool) (w : World) : option udp_pcb * World :=
  if ok then let h := fresh_pcb (pcbs w) in (Some h, mkWorld (h :: pcbs w) (out w))
  else (None, w).

Definition udp_remove (h : udp_pcb) (w : World) : World :=
  mkWorld (remove Nat.eq_dec h (pcbs w)) (out w).

(** ** Clock source (Application/board.c) *)

Record RTC := mkRTC {
  Year : Z; Month : Z; Date : Z; Hours : Z; Minutes : Z; Seconds : Z
}.

(** [rtc] is [None] when [HAL_RTC_GetTime] or [HAL_RTC_GetDate] fails;
    [buffer] is what the caller's array holds on entry, the result what it
    holds on return.  With [buffer_size] 0 nothing is written (line 9). *)
Definition board_get_timestamp (rtc : option RTC) (buffer : cstring) (buffer_size : nat)
  : cstring :=
  if (buffer_size <? 20)%nat then
    if (0 <? buffer_size)%nat then [] else buffer
  else match rtc with
       | None => []
       | Some t =>
           let year := uint32 (2000 + Year t) in
           firstn (buffer_size - 1)
             (dec_pad 4 year ++ txt "-" ++ dec_pad 2 (Month t) ++ txt "-" ++
              dec_pad 2 (Date t) ++ txt " " ++ dec_pad 2 (Hours t) ++ txt ":" ++
              dec_pad 2 (Minutes t) ++ txt ":" ++ dec_pad 2 (Seconds t))
       end.

(** ** Message formatter *)

Definition syslog_get_severity (s : Syslog_t) (level : log_level_t) : Z :=
  if level =? LOG_LEVEL_NONE then 0
  else if level =? LOG_LEVEL_ERROR then 3
  else if level =? LOG_LEVEL_WARNING then 4
  else if level =? LOG_LEVEL_INFO then 6
  else if level =? LOG_LEVEL_DEBUG then 7
  else if level =? LOG_LEVEL_VERBOSE then 7
  else 6.

(** [int] arithmetic, written in [Z]: the two agree as long as the sum is
    an [int], that is for a facility from -2^28 to 2^28-1 (signed overflow
    has no defined result in C).  The facility is [SYSLOG_FACILITY_USER]
    in every state the entry points reach, see [config_inv]. *)
Definition syslog_get_priority (s : Syslog_t) (level : log_level_t) : Z :=
  facility s * 8 + syslog_get_severity s level.

(** The text [snprintf] would produce with an unbounded buffer. *)
Definition syslog_render (s : Syslog_t) (timestamp : cstring) (level : log_level_t)
           (tag : option cstring) (message : option cstring) : cstring :=
  txt "<" ++ dec (syslog_get_priority s level) ++ txt ">" ++
  timestamp ++ txt " " ++ hostname s ++ txt " " ++ app_name s ++ txt "[" ++
  match tag with Some t => t | None => txt "unknown" end ++ txt "]: " ++
  match message with Some m => m | None => [] end.

(** [None] is the return value 0: nothing usable was written. *)
Definition syslog_format_msg (s : Syslog_t) (rtc : option RTC) (bufferSize : nat)
           (level : log_level_t) (tag : option cstring) (message : option cstring)
  : option cstring :=
  if (bufferSize <? 64)%nat then None
  else
    (* char timestamp[20], not initialized: its 20 bytes are overwritten
       whatever they held *)
    let timestamp := board_get_timestamp rtc [] 20 in
    let rendered := syslog_render s timestamp level tag message in
    let written := length rendered in
    if (bufferSize <=? written)%nat then None else Some rendered.

(** ** Dispatcher *)

(** What FreeRTOS, the RTC and lwIP answer during one [logger_output]. *)
Record OutEnv := mkOutEnv {
  take_ok : bool;          (* xSemaphoreTake(s->mutex, ...) == pdTRUE *)
  rtc : option RTC;        (* the RTC reading, None when the HAL fails *)
  pbuf_alloc_ok : bool;    (* pbuf_alloc(...) != NULL *)
  pbuf_take_ok : bool;     (* pbuf_take(...) == ERR_OK *)
  udp_sendto_ok : bool     (* udp_sendto(...) == ERR_OK *)
}.

Definition Result := (bool * Syslog_t * World)%type.

(** The body of [logger_output] once the guard is held (the double check,
    the transport path, and the printf the double check falls through to). *)
Definition logger_output_guarded (env : OutEnv) (level : log_level_t)
           (tag : option cstring) (message : cstring) (s : Syslog_t) (w : World)
  : Result :=
  match initialized s, udp s with
  | true, Some h =>
      match syslog_format_msg s (rtc env) SYSLOG_MAX_MESSAGE_SIZE level tag (Some message) with
      | None => (false, incr_failed s, w)
      | Some buffer =>
          let '(ok, w) :=
            if pbuf_alloc_ok env then
              if pbuf_take_ok env then
                (udp_sendto_ok env,
                 sendto h buffer (server s) (port s) (udp_sendto_ok env) w)
              else (false, w)
            else (false, w) in
          if negb ok then (false, incr_failed s, w)
          else (true, incr_sent s, w)
      end
  | _, _ => (true, incr_failed s, printf (message ++ [LF]) w)
  end.

Definition logger_output (env : OutEnv) (level : log_level_t)
           (tag : option cstring) (message : cstring) (s : Syslog_t) (w : World)
  : Result :=
  match initialized s, udp s, mutex s with
  | true, Some _, Some _ =>
      if level >? min_level s then (true, s, w)
      else if negb (take_ok env) then (false, incr_failed s, w)
      else logger_output_guarded env level tag message s w
  | _, _, _ => (true, s, printf (message ++ [LF]) w)
  end.

(** The format and arguments of a printf-like call, by what [vsnprintf]
    makes of them. *)
Inductive Format :=
| NullFormat                      (* format == NULL *)
| EncodingError                   (* vsnprintf returns a negative value *)
| Rendered (text : list ascii).   (* the full text, whatever its length *)

(** [vsnprintf(buf, size, ...)] followed by reading [buf] as a string. *)
Definition vsnprintf (size : nat) (text : list ascii) : cstring :=
  cstr (firstn (size - 1) text).

Definition logger_printf (env : OutEnv) (level : log_level_t) (tag : option cstring)
           (format : Format) (s : Syslog_t) (w : World) : Result :=
  match format with
  | NullFormat => (false, s, w)
  | EncodingError => (false, s, w)
  | Rendered text =>
      let msg := vsnprintf 512 text in
      logger_output env level
        (Some match tag with Some t => t | None => txt "printf" end) msg s w
  end.

Definition logger_set_min_level (take : bool) (min : log_level_t) (s : Syslog_t)
  : Syslog_t :=
  match mutex s with
  | None => s
  | Some _ => if negb take then s else set_min_level min s
  end.

Definition logger_get_min_level (s : Syslog_t) : log_level_t := min_level s.

(** [sent] and [failed] are the two cells the caller points to ([None] for
    a NULL pointer); the result is what they hold on return. *)
Definition logger_get_stats (take : bool) (sent failed : option Z) (s : Syslog_t)
  : option Z * option Z :=
  match sent, failed with
  | Some _, Some _ =>
      match mutex s with
      | None => (sent, failed)
      | Some _ =>
          if negb take then (sent, failed)
          else (Some (send_count s), Some (failed_count s))
      end
  | _, _ => (sent, failed)
  end.

Definition logger_reset_stats (take : bool) (s : Syslog_t) : Syslog_t :=
  match mutex s with
  | None => s
  | Some _ =>
      if negb take then s
      else set_failed_count 0 (set_send_count 0 s)
  end.

Definition logger_is_initialized (s : Syslog_t) : Z :=
  if initialized s then 1 else 0.

(** ** Configuration *)

(** What lwIP and FreeRTOS answer during one [init_logger]. *)
Record InitEnv := mkInitEnv {
  ipaddr_aton : cstring -> option ip_addr_t;   (* None for the return value 0 *)
  ipaddr_ntoa : ip_addr_t -> cstring;
  mutex_create : option SemaphoreHandle_t;     (* xSemaphoreCreateMutex() *)
  init_take_ok : bool;                         (* xSemaphoreTake == pdTRUE *)
  udp_new_ok : bool;                           (* udp_new() != NULL *)
  udp_bind_ok : bool                           (* udp_bind(...) == ERR_OK *)
}.

(** Lines 142-151: cleanup existing. *)
Definition cleanup_existing (s : Syslog_t) (w : World) : Syslog_t * World :=
  if initialized s then
    let '(s, w) :=
      match udp s with
      | Some h => (set_udp None s, udp_remove h w)
      | None => (s, w)
      end in
    (set_initialized false s, w)
  else (s, w).

(** Lines 156-165: a fresh control block, removed again when it cannot be
    bound. *)
Definition open_handle (env : InitEnv) (s : Syslog_t) (w : World) : Syslog_t * World :=
  let '(h, w) := udp_new (udp_new_ok env) w in
  match h with
  | Some h' =>
      if negb (udp_bind_ok env) then (set_udp None s, udp_remove h' w)
      else (set_udp (Some h') s, w)
  | None => (set_udp None s, w)
  end.

(** Lines 142-177: the part of [init_logger] that runs with the guard held. *)
Definition init_logger_guarded (env : InitEnv) (addr : ip_addr_t) (p : Z)
           (s : Syslog_t) (w : World) : Result :=
  let '(s, w) := cleanup_existing s w in
  let s := set_port (uint16 p) (set_server addr s) in
  let '(s, w) := open_handle env s w in
  match udp s with
  | None =>
      (false, s, printf (txt "ERROR: Failed to create UDP PCB for syslog" ++ [LF]) w)
  | Some _ =>
      let s := set_initialized true s in
      (true, s,
       printf (txt "Syslog initialized: " ++ ipaddr_ntoa env (server s) ++ txt ":" ++
               dec (port s) ++ [LF]) w)
  end.

Definition init_logger (env : InitEnv) (ipstr : option cstring) (p : Z)
           (s : Syslog_t) (w : World) : Result :=
  match ipstr with
  | None => (false, s, printf (txt "ERROR: init_logger_params: NULL ipstr" ++ [LF]) w)
  | Some ip =>
      if (p <=? 0) || (p >? 65535) then
        (false, s,
         printf (txt "ERROR: init_logger_params: invalid port " ++ dec p ++ [LF]) w)
      else
        match ipaddr_aton env ip with
        | None =>
            (false, s,
             printf (txt "ERROR: init_logger_params: invalid ip string '" ++ ip ++
                     txt "'" ++ [LF]) w)
        | Some addr =>
            let s := match mutex s with
                     | None => set_mutex (mutex_create env) s
                     | Some _ => s
                     end in
            match mutex s with
            | None =>
                (false, s, printf (txt "ERROR: Failed to create syslog mutex" ++ [LF]) w)
            | Some _ =>
                if negb (init_take_ok env) then
                  (false, s, printf (txt "ERROR: Failed to take syslog mutex" ++ [LF]) w)
                else init_logger_guarded env addr p s w
            end
        end
  end.

(** ** Line accumulator *)

(** The function-local statics of [logger_printf_line].  [line_buf] holds
    the [line_len] bytes that are pending. *)
Record PendingLine := mkLine {
  line_buf : cstring;
  cur_level : log_level_t;
  cur_tag : cstring;
  line_mutex : option SemaphoreHandle_t
}.

Definition line_len (l : PendingLine) : nat := length (line_buf l).

Definition line_init : PendingLine :=
  {| line_buf := []; cur_level := LOG_LEVEL_DEBUG; cur_tag := []; line_mutex := None |}.

(** One call of [logger_output] made by the accumulator. *)
Record LogRecord := mkRec {
  rec_level : log_level_t;
  rec_tag : cstring;
  rec_body : cstring
}.

(** What FreeRTOS answers during one [logger_printf_line]. *)
Record LineEnv := mkLineEnv {
  line_mutex_create : option SemaphoreHandle_t;
  line_take_ok : bool
}.

Definition is_term (c : ascii) : bool := Ascii.eqb c CR || Ascii.eqb c LF.

(** [strpbrk(p, "\r\n")], as the offset of the match. *)
Fixpoint strpbrk (p : cstring) : option nat :=
  match p with
  | [] => None
  | c :: p' => if is_term c then Some O else option_map S (strpbrk p')
  end.

Definition is_some {A : Type} (o : option A) : bool :=
  match o with Some _ => true | None => false end.

(** Lines 260-262: the guard of the accumulator is created on first use. *)
Definition create_line_mutex (env : LineEnv) (l : PendingLine) : PendingLine :=
  match line_mutex l with
  | None => mkLine (line_buf l) (cur_level l) (cur_tag l) (line_mutex_create env)
  | Some _ => l
  end.

Definition TMP_SIZE : nat := 256.
Definition TAG_SIZE : nat := 48.
Definition LINE_MAX : nat := SYSLOG_MAX_MESSAGE_SIZE - 1.

Section Accumulator.

(** The dispatcher as the accumulator sees it: [emit] is [logger_output]
    run on the dispatcher state [D]. *)
Variable D : Type.
Variable emit : log_level_t -> option cstring -> cstring -> D -> bool * D.

(** The locals and statics a call works on; [emitted] lists the calls of
    [logger_output], oldest first. *)
Record Acc := mkAcc {
  all_ok : bool;
  pend : PendingLine;
  disp : D;
  emitted : list LogRecord
}.

Definition with_pend (l : PendingLine) (a : Acc) : Acc :=
  mkAcc (all_ok a) l (disp a) (emitted a).

(** [all_ok = all_ok && logger_output(level, tag, line_buf)]: the call is
    not made once [all_ok] is false. *)
Definition do_emit (lvl : log_level_t) (tg : cstring) (body : cstring) (a : Acc) : Acc :=
  if all_ok a then
    let '(r, d) := emit lvl (Some tg) body (disp a) in
    mkAcc r (pend a) d (emitted a ++ [mkRec lvl tg body])
  else a.

Definition set_line_len0 (a : Acc) : Acc :=
  with_pend (mkLine [] (cur_level (pend a)) (cur_tag (pend a)) (line_mutex (pend a))) a.

Definition clear_cur_tag (a : Acc) : Acc :=
  with_pend (mkLine (line_buf (pend a)) (cur_level (pend a)) [] (line_mutex (pend a))) a.

Definition tag_or_printf (tag : option cstring) : cstring :=
  match tag with Some t => t | None => txt "printf" end.

Definition nonempty (s : cstring) : bool :=
  match cstr s with [] => false | _ :: _ => true end.

Section Call.

Variable level : log_level_t.
Variable tag : option cstring.

(** Line 284: the attributes of the call against those pending. *)
Definition attr_changed (l : PendingLine) : bool :=
  match tag with
  | Some t => nonempty (cur_tag l) && strncmp_ne (cur_tag l) t TAG_SIZE
  | None => false
  end
  || negb (level =? cur_level l).

(** Lines 283-290. *)
Definition attr_flush (a : Acc) : Acc :=
  if (0 <? line_len (pend a))%nat then
    if attr_changed (pend a) then
      let l := pend a in
      clear_cur_tag
        (set_line_len0
           (do_emit (cur_level l)
                    (if nonempty (cur_tag l) then cur_tag l else tag_or_printf tag)
                    (line_buf l) a))
    else a
  else a.

(** Lines 292-297. *)
Definition attr_set (a : Acc) : Acc :=
  if (line_len (pend a) =? 0)%nat then
    with_pend (mkLine (line_buf (pend a)) level
                      (strncpy (tag_or_printf tag) (TAG_SIZE - 1))
                      (line_mutex (pend a))) a
  else a.

(** Lines 306-313: full-capacity slices sent directly. *)
Fixpoint slice_loop (fuel : nat) (p : cstring) (chunk_len : nat) (a : Acc)
  : option (cstring * nat * Acc) :=
  if (LINE_MAX <? chunk_len)%nat then
    match fuel with
    | O => None
    | S fuel' =>
        let seg := LINE_MAX in
        let a := do_emit level (tag_or_printf tag) (firstn seg p) a in
        slice_loop fuel' (skipn seg p) (chunk_len - seg) a
    end
  else Some (p, chunk_len, a).

(** Lines 299-314. *)
Definition make_room (p : cstring) (chunk_len : nat) (a : Acc)
  : option (cstring * nat * Acc) :=
  let space := (LINE_MAX - line_len (pend a))%nat in
  if (space <? chunk_len)%nat then
    let a :=
      if (0 <? line_len (pend a))%nat then
        set_line_len0
          (do_emit (cur_level (pend a)) (cur_tag (pend a)) (line_buf (pend a)) a)
      else a in
    slice_loop chunk_len p chunk_len a
  else Some (p, chunk_len, a).

(** Lines 316-317. *)
Definition append_chunk (chunk : cstring) (a : Acc) : Acc :=
  let l := pend a in
  with_pend (mkLine (line_buf l ++ chunk) (cur_level l) (cur_tag l) (line_mutex l)) a.

(** Lines 321-324. *)
Definition end_of_line (a : Acc) : Acc :=
  let l := pend a in
  clear_cur_tag (set_line_len0 (do_emit (cur_level l) (cur_tag l) (line_buf l) a)).

(** Lines 326-332: [nl] points at the head of [p]. *)
Definition skip_terminator (p : cstring) : cstring :=
  match p with
  | c0 :: c1 :: _ =>
      if Ascii.eqb c0 CR && Ascii.eqb c1 LF then skipn 2 p
      else if Ascii.eqb c0 LF && Ascii.eqb c1 CR then skipn 2 p
      else skipn 1 p
  | _ => skipn 1 p
  end.

(** Lines 279-334, the while loop on [*p].  Every turn consumes at least one
    character, so [fuel] at least the length of [p] is never used up;
    [None] is running out of it. *)
Fixpoint line_loop (fuel : nat) (p : cstring) (a : Acc) : option Acc :=
  match p with
  | [] => Some a
  | _ :: _ =>
      match fuel with
      | O => None
      | S fuel' =>
          let nl := strpbrk p in
          let chunk_len := match nl with Some i => i | None => length p end in
          let a := attr_flush a in
          let a := attr_set a in
          match make_room p chunk_len a with
          | None => None
          | Some (p, chunk_len, a) =>
              let a := append_chunk (firstn chunk_len p) a in
              let p := skipn chunk_len p in
              match nl with
              | Some _ => line_loop fuel' (skip_terminator p) (end_of_line a)
              | None => line_loop fuel' p a
              end
          end
      end
  end.

End Call.

Definition LineResult := (bool * PendingLine * D * list LogRecord)%type.

Definition logger_printf_line (env : LineEnv) (level : log_level_t)
           (tag : option cstring) (format : Format) (l : PendingLine) (d : D)
  : option LineResult :=
  match format with
  | NullFormat => Some (false, l, d, [])
  | EncodingError => Some (false, create_line_mutex env l, d, [])
  | Rendered text =>
      let l := create_line_mutex env l in
      let tmp := vsnprintf TMP_SIZE text in
      if is_some (line_mutex l) && negb (line_take_ok env) then Some (false, l, d, [])
      else
        option_map (fun a => (all_ok a, pend a, disp a, emitted a))
                   (line_loop level tag (length tmp) tmp (mkAcc true l d []))
  end.

End Accumulator.

Arguments mkAcc {D}.
Arguments all_ok {D}.
Arguments pend {D}.
Arguments disp {D}.
Arguments emitted {D}.
Arguments with_pend {D}.
Arguments do_emit {D}.
Arguments set_line_len0 {D}.
Arguments clear_cur_tag {D}.
Arguments attr_flush {D}.
Arguments attr_set {D}.
Arguments slice_loop {D}.
Arguments make_room {D}.
Arguments append_chunk {D}.
Arguments end_of_line {D}.
Arguments line_loop {D}.
Arguments logger_printf_line {D}.
Arguments LineResult : clear implicits.

(** ** The accumulator on top of the dispatcher *)

(** [oracle n] is what the outside answers during the [n]-th call of
    [logger_output]; [tick] counts the calls made. *)
Record Client := mkClient {
  syslog : Syslog_t;
  world : World;
  oracle : nat -> OutEnv;
  tick : nat
}.

Definition client_emit (level : log_level_t) (tag : option cstring) (message : cstring)
           (c : Client) : bool * Client :=
  let '(r, s, w) := logger_output (oracle c (tick c)) level tag message (syslog c) (world c) in
  (r, mkClient s w (oracle c) (S (tick c))).

Definition log_line := logger_printf_line client_emit.

(** Successive calls of [logger_printf_line], each with its level, tag and
    text; the result collects the records of all of them. *)
Fixpoint log_lines {D : Type} (emit : log_level_t -> option cstring -> cstring -> D -> bool * D)
         (env : LineEnv) (calls : list (log_level_t * option cstring * list ascii))
         (l : PendingLine) (d : D) : option (LineResult D) :=
  match calls with
  | [] => Some (true, l, d, [])
  | (level, tag, text) :: calls' =>
      match logger_printf_line emit env level tag (Rendered text) l d with
      | Some (ok1, l1, d1, rs1) =>
          match log_lines emit env calls' l1 d1 with
          | Some (ok2, l2, d2, rs2) => Some (ok1 && ok2, l2, d2, rs1 ++ rs2)
          | None => None
          end
      | None => None
      end
  end.

(** One text delivered in chunks, level and tag the same in every call. *)
Definition feed {D : Type} (emit : log_level_t -> option cstring -> cstring -> D -> bool * D)
           (env : LineEnv) (level : log_level_t) (tag : option cstring)
           (chunks : list (list ascii)) (l : PendingLine) (d : D)
  : option (LineResult D) :=
  log_lines emit env (map (fun c => (level, tag, c)) chunks) l d.

Definition bodies (rs : list LogRecord) : cstring := concat (map rec_body rs).

(** ** Properties stated by the specification *)

(** Section 4.1 of the specification: the severity table. *)
Definition spec_severity (level : log_level_t) : Z :=
  match level with
  | 0 => 0   (* none *)
  | 1 => 3   (* error *)
  | 2 => 4   (* warning *)
  | 3 => 6   (* info *)
  | 4 => 7   (* debug *)
  | 5 => 7   (* verbose *)
  | _ => 6   (* unrecognized *)
  end.

(** One of the two counters has moved by one, the other has not moved. *)
Definition counted_once (s s' : Syslog_t) : Prop :=
  (send_count s' = uint32 (send_count s + 1) /\ failed_count s' = failed_count s) \/
  (send_count s' = send_count s /\ failed_count s' = uint32 (failed_count s + 1)).

(** The state the unguarded test of [logger_output] (line 185) lets through. *)
Definition ready (s : Syslog_t) : Prop :=
  initialized s = true /\ udp s <> None /\ mutex s <> None.

(** Section 3 of the specification: the handle is there exactly when the
    client is initialized, and it is the only live one. *)
Definition client_inv (s : Syslog_t) (w : World) : Prop :=
  (initialized s = true <-> udp s <> None) /\
  pcbs w = match udp s with Some h => [h] | None => [] end.

(** The entry points called one after the other, each call running to
    its end before the next one starts; this is also how the guarded
    sections of the tasks follow one another once the guard exists.
    [logger_output] tests the state before it waits for the guard, so its
    guarded part, or its timeout, may come after other tasks' sections
    ([step_output_late], [step_output_timeout]).  Calls of [init_logger]
    that overlap, the first ones included, are the subject of [sys_step]. *)
Inductive step : Syslog_t * World -> Syslog_t * World -> Prop :=
| step_init env ipstr p s w r s' w' :
    init_logger env ipstr p s w = (r, s', w') -> step (s, w) (s', w')
| step_output env level tag message s w r s' w' :
    logger_output env level tag message s w = (r, s', w') -> step (s, w) (s', w')
| step_output_late env level tag message s w r s' w' :
    mutex s <> None ->
    logger_output_guarded env level tag message s w = (r, s', w') -> step (s, w) (s', w')
| step_output_timeout s w :
    mutex s <> None -> step (s, w) (incr_failed s, w)
| step_printf env level tag format s w r s' w' :
    logger_printf env level tag format s w = (r, s', w') -> step (s, w) (s', w')
| step_printf_line env level tag format l s w o n r l' c' rs :
    log_line env level tag format l (mkClient s w o n) = Some (r, l', c', rs) ->
    step (s, w) (syslog c', world c')
| step_set_min_level take min s w :
    step (s, w) (logger_set_min_level take min s, w)
| step_reset_stats take s w :
    step (s, w) (logger_reset_stats take s, w).

Inductive reachable : Syslog_t * World -> Prop :=
| reach_boot : reachable (logger_syslog, mkWorld [] [])
| reach_step x y : reachable x -> step x y -> reachable y.

(** A chunk boundary that does not fall inside a two-character terminator. *)
Definition boundary_ok (a b : list ascii) : bool :=
  match a, b with
  | _ :: _, c1 :: _ =>
      let c0 := last a NUL in
      negb ((Ascii.eqb c0 CR && Ascii.eqb c1 LF) || (Ascii.eqb c0 LF && Ascii.eqb c1 CR))
  | _, _ => true
  end.

Fixpoint splits_ok (done : list ascii) (chunks : list (list ascii)) : bool :=
  match chunks with
  | [] => true
  | c :: cs => boundary_ok done (concat chunks) && splits_ok (done ++ c) cs
  end.

Definition short_tag (tag : option cstring) : Prop :=
  match tag with
  | Some t => (length (cstr t) <= TAG_SIZE - 1)%nat
  | None => True
  end.

(** ** Sample inputs *)

Definition calm : OutEnv := mkOutEnv true None true true true.
Definition busy : OutEnv := mkOutEnv false None true true true.
Definition lossy : OutEnv := mkOutEnv true None true true false.

Definition ready_syslog : Syslog_t :=
  {| server := 3232235777;
     port := 514;
     facility := SYSLOG_FACILITY_USER;
     min_level := LOG_LEVEL_DEBUG;
     hostname := txt "craner";
     app_name := txt "logger";
     initialized := true;
     udp := Some 1%nat;
     mutex := Some 1%nat;
     send_count := 0;
     failed_count := 0 |}.

Definition ready_world : World := mkWorld [1%nat] [].

Definition boot_client : Client :=
  mkClient logger_syslog (mkWorld [] []) (fun _ => calm) 0.

Definition line_env : LineEnv := mkLineEnv (Some 2%nat) true.

Definition dotted_quad (ip : cstring) : option ip_addr_t :=
  if cstring_eqb ip (txt "192.168.1.1") then Some 3232235777 else None.

Definition init_env : InitEnv :=
  mkInitEnv dotted_quad (fun _ => txt "192.168.1.1") (Some 1%nat) true true true.

(** A text longer than the line buffer, without terminator. *)
Definition long_text : list ascii := repeat "a"%char 1100.

(** The accumulator after [logLine(INFO, "A", "partial")]. *)
Definition pending_partial : PendingLine :=
  mkLine (txt "partial") LOG_LEVEL_INFO (txt "A") (Some 2%nat).

(** A tag that does not fit the 48 bytes of [cur_tag]. *)
Definition long_tag : cstring := repeat "t"%char 48.

(** An initialized client whose guard is never obtained. *)
Definition busy_client : Client :=
  mkClient ready_syslog ready_world (fun _ => busy) 0.

(** The client after [init_logger("192.168.1.1", 514)] on the boot state. *)
Definition configured : Result :=
  init_logger init_env (Some (txt "192.168.1.1")) 514 logger_syslog (mkWorld [] []).

Definition configured_syslog : Syslog_t := snd (fst configured).
Definition configured_world : World := snd configured.

(** The same accumulator with [e] in front of its records. *)
Definition prepend {D : Type} (e : list LogRecord) (a : Acc D) : Acc D :=
  mkAcc (all_ok a) (pend a) (disp a) (e ++ emitted a).

(** The bytes handed over so far plus the bytes pending. *)
Definition held {D : Type} (a : Acc D) : nat :=
  (length (bodies (emitted a)) + line_len (pend a))%nat.

(** What the fields of a result of [init_logger] and [logger_output] keep
    when the handle is not touched. *)
Definition same_handle (s : Syslog_t) (w : World) (x : Result) : Prop :=
  initialized (snd (fst x)) = initialized s /\
  udp (snd (fst x)) = udp s /\
  pcbs (snd x) = pcbs w.

(** ** Tasks that run [init_logger] at the same time

    [init_logger] statement by statement, so that the calls of several
    FreeRTOS tasks can interleave.  A task is at a line of the source;
    the client, the world and the mutexes are shared. *)

Inductive Line :=
| Idle          (* not in init_logger *)
| L107          (* lines 107-126: the argument checks *)
| L129          (* if (!s->mutex) *)
| L130          (* s->mutex = xSemaphoreCreateMutex(); *)
| L131          (* if (!s->mutex) { printf; return false; } *)
| L137          (* if (xSemaphoreTake(s->mutex, ...) != pdTRUE) { printf; return false; } *)
| L143          (* if (s->initialized) *)
| L144          (* if (s->udp) *)
| L146          (* udp_remove(s->udp); *)
| L148          (* s->udp = NULL; *)
| L150          (* s->initialized = false; *)
| L153          (* s->server = server; *)
| L154          (* s->port = (uint16_t)port; *)
| L157          (* s->udp = udp_new(); *)
| L158          (* if (s->udp) *)
| L159          (* bindErr = udp_bind(s->udp, ...); if (bindErr != ERR_OK) *)
| L161          (* udp_remove(s->udp); *)
| L162          (* s->udp = NULL; *)
| L167          (* if (!s->udp) *)
| L168          (* xSemaphoreGive(s->mutex); *)
| L169          (* printf; return false; *)
| L173          (* s->initialized = true; *)
| L174          (* xSemaphoreGive(s->mutex); *)
| L176          (* printf; return true; *)
| Returned (r : bool).

(** The arguments and the local [server] of one call. *)
Record Frame := mkFrame {
  at_line : Line;
  arg_ipstr : option cstring;
  arg_port : Z;
  local_server : ip_addr_t
}.

Definition goto (ln : Line) (f : Frame) : Frame :=
  mkFrame ln (arg_ipstr f) (arg_port f) (local_server f).

Definition idle : Frame := mkFrame Idle None 0 0.

(** What the tasks share: the client, the world, and for every FreeRTOS
    mutex that is held the task holding it. *)
Record Machine := mkMachine {
  m_syslog : Syslog_t;
  m_world : World;
  holders : list (SemaphoreHandle_t * nat)
}.

Definition holder (m : SemaphoreHandle_t) (hs : list (SemaphoreHandle_t * nat))
  : option nat :=
  option_map snd (find (fun x => Nat.eqb (fst x) m) hs).

(** [xSemaphoreGive]: the mutex is available again (FreeRTOS does not
    refuse a give by a task that is not the holder). *)
Definition release (m : SemaphoreHandle_t) (hs : list (SemaphoreHandle_t * nat))
  : list (SemaphoreHandle_t * nat) :=
  filter (fun x => negb (Nat.eqb (fst x) m)) hs.

Definition give_mutex (x : Machine) : Machine :=
  match mutex (m_syslog x) with
  | Some m => mkMachine (m_syslog x) (m_world x) (release m (holders x))
  | None => x
  end.

Definition with_syslog (s : Syslog_t) (x : Machine) : Machine :=
  mkMachine s (m_world x) (holders x).

Definition with_world (w : World) (x : Machine) : Machine :=
  mkMachine (m_syslog x) w (holders x).

Definition say (text : cstring) (x : Machine) : Machine :=
  with_world (printf text (m_world x)) x.

(** One statement of [init_logger] run by task [me]; [None] when the task
    cannot move: it waits for the mutex, or it is not in [init_logger].
    [env] is what lwIP and FreeRTOS answer in this statement.  [udp_remove]
    and [udp_bind] of lwIP refuse a NULL control block. *)
Definition init_logger_stmt (env : InitEnv) (me : nat) (f : Frame) (x : Machine)
  : option (Frame * Machine) :=
  let s := m_syslog x in
  match at_line f with
  | Idle => None
  | L107 =>
      match arg_ipstr f with
      | None =>
          Some (goto (Returned false) f,
                say (txt "ERROR: init_logger_params: NULL ipstr" ++ [LF]) x)
      | Some ip =>
          if (arg_port f <=? 0) || (arg_port f >? 65535) then
            Some (goto (Returned false) f,
                  say (txt "ERROR: init_logger_params: invalid port " ++ dec (arg_port f) ++ [LF])
                      x)
          else
            match ipaddr_aton env ip with
            | None =>
                Some (goto (Returned false) f,
                      say (txt "ERROR: init_logger_params: invalid ip string '" ++ ip ++
                           txt "'" ++ [LF]) x)
            | Some addr => Some (mkFrame L129 (arg_ipstr f) (arg_port f) addr, x)
            end
      end
  | L129 => Some (goto (match mutex s with None => L130 | Some _ => L137 end) f, x)
  | L130 => Some (goto L131 f, with_syslog (set_mutex (mutex_create env) s) x)
  | L131 =>
      match mutex s with
      | None =>
          Some (goto (Returned false) f,
                say (txt "ERROR: Failed to create syslog mutex" ++ [LF]) x)
      | Some _ => Some (goto L137 f, x)
      end
  | L137 =>
      match mutex s with
      | None => None
      | Some m =>
          if negb (init_take_ok env) then
            Some (goto (Returned false) f,
                  say (txt "ERROR: Failed to take syslog mutex" ++ [LF]) x)
          else
            match holder m (holders x) with
            | None => Some (goto L143 f, mkMachine s (m_world x) ((m, me) :: holders x))
            | Some _ => None
            end
      end
  | L143 => Some (goto (if initialized s then L144 else L153) f, x)
  | L144 => Some (goto (match udp s with Some _ => L146 | None => L150 end) f, x)
  | L146 =>
      Some (goto L148 f,
            match udp s with
            | Some h => with_world (udp_remove h (m_world x)) x
            | None => x
            end)
  | L148 => Some (goto L150 f, with_syslog (set_udp None s) x)
  | L150 => Some (goto L153 f, with_syslog (set_initialized false s) x)
  | L153 => Some (goto L154 f, with_syslog (set_server (local_server f) s) x)
  | L154 => Some (goto L157 f, with_syslog (set_port (uint16 (arg_port f)) s) x)
  | L157 =>
      let '(h, w) := udp_new (udp_new_ok env) (m_world x) in
      Some (goto L158 f, mkMachine (set_udp h s) w (holders x))
  | L158 => Some (goto (match udp s with Some _ => L159 | None => L167 end) f, x)
  | L159 =>
      Some (goto (match udp s with
                  | Some _ => if negb (udp_bind_ok env) then L161 else L167
                  | None => L161
                  end) f, x)
  | L161 =>
      Some (goto L162 f,
            match udp s with
            | Some h => with_world (udp_remove h (m_world x)) x
            | None => x
            end)
  | L162 => Some (goto L167 f, with_syslog (set_udp None s) x)
  | L167 => Some (goto (match udp s with None => L168 | Some _ => L173 end) f, x)
  | L168 => Some (goto L169 f, give_mutex x)
  | L169 =>
      Some (goto (Returned false) f,
            say (txt "ERROR: Failed to create UDP PCB for syslog" ++ [LF]) x)
  | L173 => Some (goto L174 f, with_syslog (set_initialized true s) x)
  | L174 => Some (goto L176 f, give_mutex x)
  | L176 =>
      Some (goto (Returned true) f,
            say (txt "Syslog initialized: " ++ ipaddr_ntoa env (server s) ++ txt ":" ++
                 dec (port s) ++ [LF]) x)
  | Returned _ => None
  end.

(** A task running its call alone, the answers of the outside fixed. *)
Fixpoint run_alone (fuel : nat) (env : InitEnv) (me : nat) (f : Frame) (x : Machine)
  : Frame * Machine :=
  match fuel with
  | O => (f, x)
  | S fuel' =>
      match init_logger_stmt env me f x with
      | Some (f', x') => run_alone fuel' env me f' x'
      | None => (f, x)
      end
  end.

(** The tasks and what they share. *)
Record System := mkSystem {
  machine : Machine;
  tasks : nat -> Frame
}.

Definition set_task (i : nat) (f : Frame) (t : nat -> Frame) : nat -> Frame :=
  fun j => if Nat.eqb j i then f else t j.

(** Lines 142-174, where the task holds the guard. *)
Definition in_section (ln : Line) : bool :=
  match ln with
  | L143 | L144 | L146 | L148 | L150 | L153 | L154 | L157 | L158 | L159
  | L161 | L162 | L167 | L168 | L173 | L174 => true
  | _ => false
  end.

Definition outside (ln : Line) : bool :=
  match ln with Idle | Returned _ => true | _ => false end.

(** The guard of the client is not held. *)
Definition guard_free (x : Machine) : Prop :=
  match mutex (m_syslog x) with
  | Some m => holder m (holders x) = None
  | None => True
  end.

(** What the tasks can do next: one of them enters [init_logger], or runs
    its next statement there, or one of the other entry points runs its
    guarded section (when the guard is free), its unguarded path, or its
    timeout.  [logger_printf] and [logger_printf_line] act on the client
    through [logger_output] only. *)
Inductive sys_step : System -> System -> Prop :=
| sys_call i ipstr p y :
    outside (at_line (tasks y i)) = true ->
    sys_step y (mkSystem (machine y) (set_task i (mkFrame L107 ipstr p 0) (tasks y)))
| sys_stmt env i f' x' y :
    init_logger_stmt env i (tasks y i) (machine y) = Some (f', x') ->
    sys_step y (mkSystem x' (set_task i f' (tasks y)))
| sys_output env level tag message r s' w' y :
    guard_free (machine y) \/ take_ok env = false ->
    logger_output env level tag message (m_syslog (machine y)) (m_world (machine y))
    = (r, s', w') ->
    sys_step y (mkSystem (mkMachine s' w' (holders (machine y))) (tasks y))
| sys_output_late env level tag message r s' w' y :
    guard_free (machine y) -> mutex (m_syslog (machine y)) <> None ->
    logger_output_guarded env level tag message (m_syslog (machine y)) (m_world (machine y))
    = (r, s', w') ->
    sys_step y (mkSystem (mkMachine s' w' (holders (machine y))) (tasks y))
| sys_output_timeout y :
    mutex (m_syslog (machine y)) <> None ->
    sys_step y (mkSystem (with_syslog (incr_failed (m_syslog (machine y))) (machine y))
                         (tasks y))
| sys_set_min_level take min y :
    guard_free (machine y) \/ take = false ->
    sys_step y (mkSystem (with_syslog (logger_set_min_level take min (m_syslog (machine y)))
                                      (machine y)) (tasks y))
| sys_reset_stats take y :
    guard_free (machine y) \/ take = false ->
    sys_step y (mkSystem (with_syslog (logger_reset_stats take (m_syslog (machine y)))
                                      (machine y)) (tasks y)).

Inductive sys_reachable (x : System) : System -> Prop :=
| sys_here : sys_reachable x x
| sys_next y z : sys_reachable x y -> sys_step y z -> sys_reachable x z.

(** No task is in [init_logger] and no mutex is held. *)
Definition quiet (s : Syslog_t) (w : World) : System :=
  mkSystem (mkMachine s w []) (fun _ => idle).

(** What holds of the client while a task is at a line of the guarded
    section. *)
Definition live (s : Syslog_t) : list udp_pcb :=
  match udp s with Some h => [h] | None => [] end.

Definition line_inv (ln : Line) (s : Syslog_t) (w : World) : Prop :=
  match ln with
  | L143 => client_inv s w
  | L144 => initialized s = true /\ udp s <> None /\ pcbs w = live s
  | L146 => initialized s = true /\ udp s <> None /\ pcbs w = live s
  | L148 => initialized s = true /\ pcbs w = []
  | L150 => udp s = None /\ pcbs w = []
  | L153 | L154 | L157 => initialized s = false /\ udp s = None /\ pcbs w = []
  | L158 | L167 => initialized s = false /\ pcbs w = live s
  | L159 | L161 => initialized s = false /\ udp s <> None /\ pcbs w = live s
  | L162 => initialized s = false /\ pcbs w = []
  | L168 => initialized s = false /\ udp s = None /\ pcbs w = []
  | L173 => initialized s = false /\ udp s <> None /\ pcbs w = live s
  | L174 => initialized s = true /\ udp s <> None /\ pcbs w = live s
  | _ => True
  end.

(** A schedule: which task moves, and how. *)
Inductive Move :=
| Call (ipstr : option cstring) (p : Z)
| Stmt (env : InitEnv).

Definition sys_move (i : nat) (mv : Move) (y : System) : option System :=
  match mv with
  | Call ipstr p =>
      if outside (at_line (tasks y i)) then
        Some (mkSystem (machine y) (set_task i (mkFrame L107 ipstr p 0) (tasks y)))
      else None
  | Stmt env =>
      match init_logger_stmt env i (tasks y i) (machine y) with
      | Some (f', x') => Some (mkSystem x' (set_task i f' (tasks y)))
      | None => None
      end
  end.

Fixpoint sys_run (schedule : list (nat * Move)) (y : System) : option System :=
  match schedule with
  | [] => Some y
  | (i, mv) :: rest =>
      match sys_move i mv y with
      | Some y' => sys_run rest y'
      | None => None
      end
  end.

(** Two tasks call [init_logger] for the first time.  Each finds the
    guard missing (line 129) before the other has created it, so each
    creates a mutex of its own, takes it, and both run lines 142-174 at
    the same time. *)
Definition env_a : InitEnv :=
  mkInitEnv dotted_quad (fun _ => txt "192.168.1.1") (Some 1%nat) true true true.
Definition env_b : InitEnv :=
  mkInitEnv dotted_quad (fun _ => txt "192.168.1.1") (Some 2%nat) true true true.

Definition racing_first_calls : list (nat * Move) :=
  [(0%nat, Call (Some (txt "192.168.1.1")) 514); (1%nat, Call (Some (txt "192.168.1.1")) 514);
   (0%nat, Stmt env_a); (1%nat, Stmt env_b);       (* 107-126 *)
   (0%nat, Stmt env_a); (1%nat, Stmt env_b);       (* 129: both see no mutex *)
   (0%nat, Stmt env_a); (0%nat, Stmt env_a); (0%nat, Stmt env_a);   (* 130, 131, 137 *)
   (1%nat, Stmt env_b); (1%nat, Stmt env_b); (1%nat, Stmt env_b);   (* 130, 131, 137 *)
   (0%nat, Stmt env_a); (0%nat, Stmt env_a); (0%nat, Stmt env_a);   (* 143, 153, 154 *)
   (0%nat, Stmt env_a); (0%nat, Stmt env_a); (0%nat, Stmt env_a);   (* 157, 158, 159 *)
   (1%nat, Stmt env_b); (1%nat, Stmt env_b); (1%nat, Stmt env_b);   (* 143, 153, 154 *)
   (1%nat, Stmt env_b); (1%nat, Stmt env_b); (1%nat, Stmt env_b);   (* 157, 158, 159 *)
   (0%nat, Stmt env_a); (0%nat, Stmt env_a); (0%nat, Stmt env_a); (0%nat, Stmt env_a);
   (1%nat, Stmt env_b); (1%nat, Stmt env_b); (1%nat, Stmt env_b); (1%nat, Stmt env_b)].
                                                           (* 167, 173, 174, 176 *)

(** The guard exists and the tasks respect it: at most one task is in
    the guarded section, it is the holder of the guard and sees what its
    line expects; with the guard free the client satisfies [client_inv]. *)
Definition sys_inv (y : System) : Prop :=
  exists m,
    mutex (m_syslog (machine y)) = Some m /\
    (forall i, at_line (tasks y i) <> L130 /\ at_line (tasks y i) <> L131) /\
    match holder m (holders (machine y)) with
    | None =>
        client_inv (m_syslog (machine y)) (m_world (machine y)) /\
        forall i, in_section (at_line (tasks y i)) = false
    | Some o =>
        in_section (at_line (tasks y o)) = true /\
        line_inv (at_line (tasks y o)) (m_syslog (machine y)) (m_world (machine y)) /\
        forall i, i <> o -> in_section (at_line (tasks y i)) = false
    end.

(** Two tasks call [init_logger] on a client that is configured: the
    guard exists.  Task 0 takes it; task 1 gives up after the bounded wait
    (line 137); task 0 replaces the handle. *)
Definition env_timeout : InitEnv :=
  mkInitEnv dotted_quad (fun _ => txt "192.168.1.1") None false true true.

Definition guarded_calls : list (nat * Move) :=
  [(0%nat, Call (Some (txt "192.168.1.1")) 514); (1%nat, Call (Some (txt "192.168.1.1")) 515);
   (0%nat, Stmt env_a); (0%nat, Stmt env_a); (0%nat, Stmt env_a);   (* 107, 129, 137 *)
   (1%nat, Stmt env_timeout); (1%nat, Stmt env_timeout); (1%nat, Stmt env_timeout);
   (0%nat, Stmt env_a); (0%nat, Stmt env_a); (0%nat, Stmt env_a);   (* 143, 144, 146 *)
   (0%nat, Stmt env_a); (0%nat, Stmt env_a); (0%nat, Stmt env_a);   (* 148, 150, 153 *)
   (0%nat, Stmt env_a); (0%nat, Stmt env_a); (0%nat, Stmt env_a);   (* 154, 157, 158 *)
   (0%nat, Stmt env_a); (0%nat, Stmt env_a); (0%nat, Stmt env_a);   (* 159, 167, 173 *)
   (0%nat, Stmt env_a); (0%nat, Stmt env_a)].                       (* 174, 176 *)

(** The text of a call without its line terminators. *)
Definition without_terminators (p : cstring) : cstring :=
  filter (fun c => negb (is_term c)) p.

(** [dr] are the bytes of the flushes that were skipped because a record
    had been refused ([all_ok] false); there are none while [all_ok] is
    true. *)
Definition none_dropped {D : Type} (a : Acc D) (dr : cstring) : Prop :=
  all_ok a = true -> dr = [].

(** 300 bytes of text, then a line feed: the terminator lies beyond the
    255 bytes the temporary buffer holds. *)
Definition late_newline : list ascii := repeat "b"%char 300 ++ [LF].

(** A line of 900 bytes pending under (INFO, "A"). *)
Definition pending_900 : PendingLine :=
  mkLine (repeat "p"%char 900) LOG_LEVEL_INFO (txt "A") (Some 2%nat).

(** ** Further properties of the code *)

(** A reading the RTC HAL gives in binary format: a two-digit year in
    the century, a calendar date and a time of day. *)
Definition calendar_ok (t : RTC) : Prop :=
  0 <= Year t <= 99 /\ 1 <= Month t <= 12 /\ 1 <= Date t <= 31 /\
  0 <= Hours t <= 23 /\ 0 <= Minutes t <= 59 /\ 0 <= Seconds t <= 59.

(** The part of the configuration that no entry point writes, and the
    ranges the written part stays in. *)
Definition config_inv (s : Syslog_t) : Prop :=
  facility s = SYSLOG_FACILITY_USER /\
  hostname s = txt "craner" /\ app_name s = txt "logger" /\
  1 <= port s <= 65535 /\
  0 <= send_count s < 2 ^ 32 /\ 0 <= failed_count s < 2 ^ 32.

(** Everything [logger_output] leaves alone. *)
Definition same_config (s s' : Syslog_t) : Prop :=
  server s' = server s /\ port s' = port s /\ facility s' = facility s /\
  min_level s' = min_level s /\ hostname s' = hostname s /\
  app_name s' = app_name s /\ initialized s' = initialized s /\
  udp s' = udp s /\ mutex s' = mutex s.

(** What [init_logger] leaves alone. *)
Definition kept_by_init (s s' : Syslog_t) : Prop :=
  facility s' = facility s /\ min_level s' = min_level s /\
  hostname s' = hostname s /\ app_name s' = app_name s /\
  send_count s' = send_count s /\ failed_count s' = failed_count s.

(** The answers of lwIP and FreeRTOS with which a datagram goes out. *)
Definition all_ok_env (env : OutEnv) : Prop :=
  take_ok env = true /\ pbuf_alloc_ok env = true /\
  pbuf_take_ok env = true /\ udp_sendto_ok env = true.

(** The four line terminators of the accumulator. *)
Definition line_ends : list (list ascii) := [[LF]; [CR]; [CR; LF]; [LF; CR]].

(** A text that is one line: no terminator and no NUL in it. *)
Definition plain (text : list ascii) : Prop :=
  strpbrk text = None /\ Forall (fun c => is_nul c = false) text.

Definition no_terminator (rs : list LogRecord) : Prop :=
  Forall (fun r => strpbrk (rec_body r) = None) rs.

Definition noon : RTC := mkRTC 26 10 30 12 0 0.

Definition init_env2 : InitEnv :=
  mkInitEnv (fun _ => Some 167772161) (fun _ => txt "10.0.0.1") (Some 1%nat) true true true.

Definition init_env_no_pcb : InitEnv :=
  mkInitEnv (fun _ => Some 167772161) (fun _ => txt "10.0.0.1") (Some 1%nat) true false true.

(** * Dispatcher: proofs *)

Lemma syslog_get_severity_table (s : Syslog_t) (level : log_level_t) :
  syslog_get_severity s level = spec_severity level.
Proof.
  destruct level as [|[[[p|p|]|[p|p|]|]|[[p|p|]|[p|p|]|]|]|p]; reflexivity.
Qed.

(** C5. The priority of a record is [facility*8 + severity(level)] with
    the severity given by the fixed table (none 0, error 3, warning 4,
    info 6, debug 7, verbose 7, anything else 6), and this is the number
    printed between the angle brackets at the head of every formatted
    record. *)
Theorem priority_is_facility_and_severity (s : Syslog_t) (level : log_level_t) :
  syslog_get_severity s level = spec_severity level /\
  syslog_get_priority s level = facility s * 8 + spec_severity level /\
  forall rtc size tag message record,
    syslog_format_msg s rtc size level tag message = Some record ->
    exists rest,
      record = txt "<" ++ dec (facility s * 8 + spec_severity level) ++ txt ">" ++ rest.
Proof.
  pose proof (syslog_get_severity_table s level) as Hsev.
  split; [exact Hsev|].
  split; [unfold syslog_get_priority; now rewrite Hsev|].
  intros rtc0 size tag message record H.
  unfold syslog_format_msg in H.
  destruct (size <? 64)%nat; [discriminate|].
  match type of H with
  | (if ?c then _ else _) = _ => destruct c; [discriminate|]
  end.
  injection H as <-.
  unfold syslog_render, syslog_get_priority. rewrite Hsev.
  eexists. reflexivity.
Qed.

Lemma priority_is_facility_and_severity_witness :
  syslog_format_msg ready_syslog None 1024 LOG_LEVEL_WARNING (Some (txt "net")) (Some (txt "up"))
    = Some (txt "<12> craner logger[net]: up") /\
  exists rest, txt "<12> craner logger[net]: up" = txt "<" ++ dec 12 ++ txt ">" ++ rest.
Proof.
  split; [reflexivity|].
  exact (proj2 (proj2 (priority_is_facility_and_severity ready_syslog LOG_LEVEL_WARNING))
               None 1024%nat (Some (txt "net")) (Some (txt "up")) _ eq_refl).
Defined.

Lemma ready_cases (s : Syslog_t) :
  ready s -> exists h m, initialized s = true /\ udp s = Some h /\ mutex s = Some m.
Proof.
  intros (Hi & Hu & Hm).
  destruct (udp s) as [h|]; [|congruence].
  destruct (mutex s) as [m|]; [|congruence].
  now exists h, m.
Qed.

Lemma logger_output_ready env level tag message s w :
  ready s ->
  logger_output env level tag message s w =
  if level >? min_level s then (true, s, w)
  else if negb (take_ok env) then (false, incr_failed s, w)
       else logger_output_guarded env level tag message s w.
Proof.
  intros H. destruct (ready_cases s H) as (h & m & Hi & Hu & Hm).
  unfold logger_output. now rewrite Hi, Hu, Hm.
Qed.

Lemma logger_output_guarded_counts env level tag message s w :
  counted_once s (snd (fst (logger_output_guarded env level tag message s w))).
Proof.
  unfold logger_output_guarded, counted_once.
  destruct (initialized s), (udp s) as [h|]; simpl; auto.
  destruct (syslog_format_msg _ _ _ _ _ _); simpl; auto.
  destruct (pbuf_alloc_ok env), (pbuf_take_ok env), (udp_sendto_ok env); simpl; auto.
Qed.

(** C1, as the code has it.  When an initialized client lets the level
    through and the guard is not obtained within the bounded wait,
    [logger_output] increments [failed_count] and returns false; nothing is
    written to the local sink or to the transport. *)
Theorem logger_output_guard_timeout env level tag message s w :
  ready s -> level <= min_level s -> take_ok env = false ->
  logger_output env level tag message s w = (false, incr_failed s, w).
Proof.
  intros Hr Hl Ht. rewrite (logger_output_ready _ _ _ _ _ _ Hr), Ht.
  destruct (Z.gtb_spec level (min_level s)); [lia|reflexivity].
Qed.

Lemma ready_syslog_ready : ready ready_syslog.
Proof. repeat split; discriminate. Qed.

Lemma logger_output_guard_timeout_witness :
  logger_output busy LOG_LEVEL_INFO (Some (txt "net")) (txt "up") ready_syslog ready_world
  = (false, incr_failed ready_syslog, ready_world).
Proof.
  apply (logger_output_guard_timeout busy LOG_LEVEL_INFO (Some (txt "net")) (txt "up")
           ready_syslog ready_world ready_syslog_ready).
  - vm_compute. discriminate.
  - reflexivity.
Defined.

(** C1 as stated fails: on a guard timeout the call returns false and the
    local sink receives nothing. *)
Lemma logger_output_guard_timeout_no_fallback :
  let '(r, s', w') :=
    logger_output busy LOG_LEVEL_INFO (Some (txt "net")) (txt "up") ready_syslog ready_world in
  ready ready_syslog /\ take_ok busy = false /\
  r = false /\ out w' = [] /\ failed_count s' = 1.
Proof.
  vm_compute. repeat split; discriminate.
Qed.

Lemma severity_monotone_on_levels (s : Syslog_t) (a b : log_level_t) :
  0 <= a <= 5 -> 0 <= b <= 5 -> a <= b ->
  syslog_get_severity s a <= syslog_get_severity s b.
Proof.
  intros Ha Hb Hab.
  assert (Ea : a = 0 \/ a = 1 \/ a = 2 \/ a = 3 \/ a = 4 \/ a = 5) by lia.
  assert (Eb : b = 0 \/ b = 1 \/ b = 2 \/ b = 3 \/ b = 4 \/ b = 5) by lia.
  destruct Ea as [->|[->|[->|[->|[->| ->]]]]];
    destruct Eb as [->|[->|[->|[->|[->| ->]]]]];
    try lia; vm_compute; discriminate.
Qed.

(** C2, as the code has it.  For an initialized client the filter compares
    the level numbers: a level above [min_level] is a successful no-op
    that changes neither the counters nor the world; a level at or below
    [min_level] goes on to the guard and moves exactly one counter.  On
    the six defined levels a level that passes is at least as severe as
    [min_level]. *)
Theorem logger_output_level_filter env level tag message s w :
  ready s ->
  (level > min_level s -> logger_output env level tag message s w = (true, s, w)) /\
  (level <= min_level s ->
   logger_output env level tag message s w =
     (if take_ok env then logger_output_guarded env level tag message s w
      else (false, incr_failed s, w)) /\
   counted_once s (snd (fst (logger_output env level tag message s w)))) /\
  (0 <= level <= 5 -> 0 <= min_level s <= 5 -> level <= min_level s ->
   syslog_get_severity s level <= syslog_get_severity s (min_level s)).
Proof.
  intros Hr. rewrite (logger_output_ready _ _ _ _ _ _ Hr).
  split; [|split].
  - intros H. destruct (Z.gtb_spec level (min_level s)); [reflexivity|lia].
  - intros H. destruct (Z.gtb_spec level (min_level s)); [lia|].
    destruct (take_ok env); simpl.
    + split; [reflexivity|apply logger_output_guarded_counts].
    + split; [reflexivity|]. right. split; reflexivity.
  - apply severity_monotone_on_levels.
Qed.

Lemma logger_output_level_filter_witness :
  logger_output calm LOG_LEVEL_VERBOSE None (txt "x") ready_syslog ready_world
    = (true, ready_syslog, ready_world) /\
  counted_once ready_syslog
    (snd (fst (logger_output calm LOG_LEVEL_ERROR None (txt "x") ready_syslog ready_world))) /\
  syslog_get_severity ready_syslog LOG_LEVEL_ERROR
    <= syslog_get_severity ready_syslog (min_level ready_syslog).
Proof.
  split; [|split].
  - apply (proj1 (logger_output_level_filter calm LOG_LEVEL_VERBOSE None (txt "x")
                    ready_syslog ready_world ready_syslog_ready)).
    reflexivity.
  - apply (proj1 (proj2 (logger_output_level_filter calm LOG_LEVEL_ERROR None (txt "x")
                           ready_syslog ready_world ready_syslog_ready))).
    vm_compute. discriminate.
  - apply (proj2 (proj2 (logger_output_level_filter calm LOG_LEVEL_ERROR None (txt "x")
                           ready_syslog ready_world ready_syslog_ready)));
      vm_compute; try split; discriminate.
Defined.

(** C2 as stated fails in both directions.  Verbose is as severe as the
    configured minimum debug (both 7) and is filtered; the unrecognized
    level -1 has severity 6, less severe than the minimum error (3), and is
    dispatched. *)
Lemma logger_output_filter_is_not_by_severity :
  (syslog_get_severity ready_syslog LOG_LEVEL_VERBOSE
     <= syslog_get_severity ready_syslog (min_level ready_syslog) /\
   logger_output calm LOG_LEVEL_VERBOSE None (txt "x") ready_syslog ready_world
     = (true, ready_syslog, ready_world)) /\
  (let s := set_min_level LOG_LEVEL_ERROR ready_syslog in
   let '(r, s', w') := logger_output calm (-1) None (txt "x") s ready_world in
   syslog_get_severity s (-1) > syslog_get_severity s (min_level s) /\
   send_count s' = 1 /\
   exists payload, out w' = [Sendto 1%nat payload 3232235777 514 true]).
Proof.
  split.
  - split; [vm_compute; discriminate|reflexivity].
  - vm_compute. split; [reflexivity|]. split; [reflexivity|]. eexists. reflexivity.
Qed.

(** C7. A NULL or malformed endpoint string, or a port outside 1..65535,
    makes [init_logger] return false with the client state untouched
    (server, port, initialized, handle, guard and counters) and the set of
    live handles unchanged; only the error line goes to the local sink. *)
Theorem init_logger_rejects_bad_endpoint env ipstr p s w :
  ipstr = None \/ p <= 0 \/ p > 65535 \/
  (exists ip, ipstr = Some ip /\ ipaddr_aton env ip = None) ->
  exists line, init_logger env ipstr p s w = (false, s, printf line w).
Proof.
  intros H. unfold init_logger.
  destruct ipstr as [ip|]; [|eexists; reflexivity].
  destruct (Z.leb_spec p 0); [eexists; reflexivity|].
  destruct (Z.gtb_spec p 65535); [eexists; reflexivity|]. simpl.
  destruct H as [H|[H|[H|(ip' & H & Hip)]]]; try discriminate; try lia.
  injection H as <-. rewrite Hip. eexists; reflexivity.
Qed.

Lemma init_logger_rejects_bad_endpoint_witness :
  exists line,
    init_logger init_env (Some (txt "192.168.1")) 514 ready_syslog ready_world
    = (false, ready_syslog, printf line ready_world).
Proof.
  apply (init_logger_rejects_bad_endpoint init_env (Some (txt "192.168.1")) 514
           ready_syslog ready_world).
  right. right. right. exists (txt "192.168.1"). split; reflexivity.
Defined.

Lemma uint32_succ (x : Z) : 0 <= x < 2 ^ 32 - 1 -> uint32 (x + 1) = x + 1.
Proof. intros H. unfold uint32. apply Z.mod_small. lia. Qed.

Lemma logger_output_guarded_transport env level tag message s w h buffer :
  initialized s = true -> udp s = Some h ->
  syslog_format_msg s (rtc env) SYSLOG_MAX_MESSAGE_SIZE level tag (Some message) = Some buffer ->
  logger_output_guarded env level tag message s w =
  if pbuf_alloc_ok env && pbuf_take_ok env then
    if udp_sendto_ok env
    then (true, incr_sent s, sendto h buffer (server s) (port s) true w)
    else (false, incr_failed s, sendto h buffer (server s) (port s) false w)
  else (false, incr_failed s, w).
Proof.
  intros Hi Hu Hf. unfold logger_output_guarded. rewrite Hi, Hu, Hf.
  destruct (pbuf_alloc_ok env), (pbuf_take_ok env), (udp_sendto_ok env); reflexivity.
Qed.

(** C9, as the code has it.  (1) When the guard exists and both calls
    obtain it, [logger_reset_stats] followed by [logger_get_stats] stores
    (0,0).  (2) A [logger_output] that gets as far as the transport adds
    one to [send_count] and leaves [failed_count] alone when the datagram
    is accepted, and adds one to [failed_count] and leaves [send_count]
    alone otherwise.  (3) On the guarded re-check path [failed_count] goes
    up once and [send_count] not at all.  The counters are [uint32_t]:
    adding one is exact below 2^32-1 and wraps to 0 there. *)
Theorem stats_count_each_emit_once :
  (forall sent failed s m,
      mutex s = Some m ->
      logger_get_stats true (Some sent) (Some failed) (logger_reset_stats true s)
      = (Some 0, Some 0)) /\
  (forall env level tag message s w buffer,
      ready s -> level <= min_level s -> take_ok env = true ->
      syslog_format_msg s (rtc env) SYSLOG_MAX_MESSAGE_SIZE level tag (Some message)
        = Some buffer ->
      let ok := pbuf_alloc_ok env && pbuf_take_ok env && udp_sendto_ok env in
      let '(r, s', _) := logger_output env level tag message s w in
      r = ok /\
      send_count s' = (if ok then uint32 (send_count s + 1) else send_count s) /\
      failed_count s' = (if ok then failed_count s else uint32 (failed_count s + 1))) /\
  (forall env level tag message s w,
      initialized s = false \/ udp s = None ->
      let '(r, s', w') := logger_output_guarded env level tag message s w in
      r = true /\ w' = printf (message ++ [LF]) w /\
      send_count s' = send_count s /\
      failed_count s' = uint32 (failed_count s + 1)) /\
  (forall x, 0 <= x < 2 ^ 32 - 1 -> uint32 (x + 1) = x + 1).
Proof.
  split; [|split; [|split]].
  - intros sent failed s m Hm.
    unfold logger_get_stats, logger_reset_stats. rewrite Hm. simpl. now rewrite Hm.
  - intros env level tag message s w buffer Hr Hl Ht Hf.
    rewrite (logger_output_ready _ _ _ _ _ _ Hr), Ht.
    destruct (Z.gtb_spec level (min_level s)); [lia|]. simpl negb. cbv iota.
    destruct (ready_cases s Hr) as (h & m & Hi & Hu & Hm).
    rewrite (logger_output_guarded_transport _ _ _ _ _ _ _ _ Hi Hu Hf).
    destruct (pbuf_alloc_ok env), (pbuf_take_ok env), (udp_sendto_ok env);
      simpl; repeat split; reflexivity.
  - intros env level tag message s w H. unfold logger_output_guarded.
    destruct H as [H|H]; rewrite H.
    + repeat split; reflexivity.
    + destruct (initialized s); repeat split; reflexivity.
  - exact uint32_succ.
Qed.

Lemma stats_count_each_emit_once_witness :
  (let '(r, s', _) :=
     logger_output calm LOG_LEVEL_INFO (Some (txt "net")) (txt "up") ready_syslog ready_world in
   r = true /\ send_count s' = 1 /\ failed_count s' = 0) /\
  (let '(r, s', _) :=
     logger_output lossy LOG_LEVEL_INFO (Some (txt "net")) (txt "up") ready_syslog ready_world in
   r = false /\ send_count s' = 0 /\ failed_count s' = 1) /\
  logger_get_stats true (Some 7) (Some 9)
    (logger_reset_stats true (set_failed_count 3 ready_syslog)) = (Some 0, Some 0).
Proof.
  pose proof stats_count_each_emit_once as (Hreset & Hemit & _ & _).
  split; [|split].
  - apply (Hemit calm LOG_LEVEL_INFO (Some (txt "net")) (txt "up") ready_syslog ready_world
             (txt "<14> craner logger[net]: up") ready_syslog_ready).
    + vm_compute. discriminate.
    + reflexivity.
    + reflexivity.
  - apply (Hemit lossy LOG_LEVEL_INFO (Some (txt "net")) (txt "up") ready_syslog ready_world
             (txt "<14> craner logger[net]: up") ready_syslog_ready).
    + vm_compute. discriminate.
    + reflexivity.
    + reflexivity.
  - apply (Hreset 7 9 (set_failed_count 3 ready_syslog) 1%nat). reflexivity.
Defined.

(** C9 as stated fails.  Before [init_logger] has created the guard, or
    when the guard is not obtained, reset and read return without doing
    anything: the caller's cells keep what they held, and counters that
    were not reset are read back.  At 2^32-1 a successful emit wraps
    [send_count] to 0. *)
Lemma stats_reset_then_get_not_always_zero :
  logger_get_stats true (Some 7) (Some 9) (logger_reset_stats true logger_syslog)
    = (Some 7, Some 9) /\
  logger_get_stats true (Some 7) (Some 9)
    (logger_reset_stats false (set_failed_count 3 ready_syslog)) = (Some 0, Some 3) /\
  (let '(r, s', _) :=
     logger_output calm LOG_LEVEL_INFO (Some (txt "net")) (txt "up")
       (set_send_count (2 ^ 32 - 1) ready_syslog) ready_world in
   r = true /\ send_count s' = 0).
Proof.
  vm_compute. repeat split; reflexivity.
Qed.

(** * Line accumulator: proofs *)

Lemma LINE_MAX_val : LINE_MAX = 1023%nat.
Proof. reflexivity. Qed.

#[local] Arguments LINE_MAX : simpl never.
#[local] Arguments TMP_SIZE : simpl never.
#[local] Arguments TAG_SIZE : simpl never.

(** ** C strings *)

Lemma cstr_length (a : list ascii) : (length (cstr a) <= length a)%nat.
Proof.
  induction a as [|c a IH]; simpl; [lia|].
  destruct (is_nul c); simpl; lia.
Qed.

Lemma cstr_no_nul (a : list ascii) :
  Forall (fun c => is_nul c = false) a -> cstr a = a.
Proof.
  induction 1 as [|c a Hc _ IH]; simpl; [reflexivity|].
  now rewrite Hc, IH.
Qed.

Lemma vsnprintf_length (size : nat) (text : list ascii) :
  (length (vsnprintf size text) <= size - 1)%nat.
Proof.
  unfold vsnprintf.
  pose proof (cstr_length (firstn (size - 1) text)) as H.
  rewrite length_firstn in H. lia.
Qed.

Lemma vsnprintf_firstn (size : nat) (text : list ascii) :
  vsnprintf size (firstn (size - 1) text) = vsnprintf size text.
Proof.
  unfold vsnprintf. rewrite firstn_firstn. now rewrite Nat.min_id.
Qed.

Lemma strpbrk_bound (p : cstring) (i : nat) :
  strpbrk p = Some i ->
  exists t rest, skipn i p = t :: rest /\ is_term t = true /\ (i < length p)%nat
                 /\ strpbrk (firstn i p) = None.
Proof.
  revert i. induction p as [|c p IH]; intros i H; simpl in H; [discriminate|].
  destruct (is_term c) eqn:Hc.
  - injection H as <-. exists c, p. simpl. repeat split; auto; lia.
  - destruct (strpbrk p) as [j|] eqn:Hj; [|discriminate].
    injection H as <-. destruct (IH j eq_refl) as (t & rest & Hs & Ht & Hl & Hn).
    exists t, rest. simpl. rewrite Hc, Hn. repeat split; auto; lia.
Qed.

Lemma strpbrk_app_some (a b : cstring) (i : nat) :
  strpbrk a = Some i -> strpbrk (a ++ b) = Some i.
Proof.
  revert i. induction a as [|c a IH]; intros i H; simpl in *; [discriminate|].
  destruct (is_term c); [assumption|].
  destruct (strpbrk a) as [j|]; [|discriminate].
  now rewrite (IH j eq_refl).
Qed.

Lemma strpbrk_app_none (a b : cstring) :
  strpbrk a = None ->
  strpbrk (a ++ b) = option_map (fun j => (length a + j)%nat) (strpbrk b).
Proof.
  induction a as [|c a IH]; intros H; simpl in *.
  - destruct (strpbrk b); reflexivity.
  - destruct (is_term c); [discriminate|].
    destruct (strpbrk a); [discriminate|].
    rewrite (IH eq_refl). destruct (strpbrk b); reflexivity.
Qed.

Lemma skip_terminator_length (t : ascii) (rest : cstring) :
  (length (skip_terminator (t :: rest)) <= length rest)%nat.
Proof.
  unfold skip_terminator. destruct rest as [|c1 rest]; simpl; [lia|].
  destruct (Ascii.eqb t CR && Ascii.eqb c1 LF); simpl; [lia|].
  destruct (Ascii.eqb t LF && Ascii.eqb c1 CR); simpl; lia.
Qed.

(** ** One turn of the loop *)

Section AccumulatorFacts.

Variable D : Type.
Variable emit : log_level_t -> option cstring -> cstring -> D -> bool * D.
Variable level : log_level_t.
Variable tag : option cstring.

Lemma line_loop_nil fuel a : line_loop emit level tag fuel [] a = Some a.
Proof. destruct fuel; reflexivity. Qed.

Lemma line_loop_step fuel c p a :
  line_loop emit level tag (S fuel) (c :: p) a =
  match make_room emit level tag (c :: p)
          (match strpbrk (c :: p) with Some i => i | None => length (c :: p) end)
          (attr_set level tag (attr_flush emit level tag a)) with
  | None => None
  | Some (p2, chunk_len, a2) =>
      let a3 := append_chunk (firstn chunk_len p2) a2 in
      match strpbrk (c :: p) with
      | Some _ =>
          line_loop emit level tag fuel (skip_terminator (skipn chunk_len p2))
                    (end_of_line emit a3)
      | None => line_loop emit level tag fuel (skipn chunk_len p2) a3
      end
  end.
Proof. reflexivity. Qed.

Lemma slice_loop_unfold fuel p chunk_len a :
  slice_loop emit level tag fuel p chunk_len a =
  if (LINE_MAX <? chunk_len)%nat then
    match fuel with
    | O => None
    | S fuel' =>
        slice_loop emit level tag fuel' (skipn LINE_MAX p) (chunk_len - LINE_MAX)
                   (do_emit emit level (tag_or_printf tag) (firstn LINE_MAX p) a)
    end
  else Some (p, chunk_len, a).
Proof. destruct fuel; reflexivity. Qed.

Lemma do_emit_pend lvl tg body a : pend (do_emit emit lvl tg body a) = pend a.
Proof.
  unfold do_emit. destruct (all_ok a); [|reflexivity].
  destruct (emit _ _ _ _); reflexivity.
Qed.

(** The slices leave what follows the chunk where it was, and leave a
    chunk that fits an empty buffer. *)
Lemma slice_loop_total fuel p chunk_len a :
  (chunk_len <= fuel)%nat ->
  exists p2 cl2 a2,
    slice_loop emit level tag fuel p chunk_len a = Some (p2, cl2, a2) /\
    skipn cl2 p2 = skipn chunk_len p /\ (cl2 <= LINE_MAX)%nat /\ (cl2 <= chunk_len)%nat /\
    pend a2 = pend a /\
    (chunk_len <= LINE_MAX -> p2 = p /\ cl2 = chunk_len /\ a2 = a)%nat.
Proof.
  pose proof LINE_MAX_val as HM.
  revert p chunk_len a.
  induction fuel as [|fuel IH]; intros p chunk_len a Hf; rewrite slice_loop_unfold.
  - destruct (Nat.ltb_spec LINE_MAX chunk_len); [lia|].
    exists p, chunk_len, a. repeat split; auto.
  - destruct (Nat.ltb_spec LINE_MAX chunk_len) as [Hlt|Hge].
    + destruct (IH (skipn LINE_MAX p) (chunk_len - LINE_MAX)%nat
                  (do_emit emit level (tag_or_printf tag) (firstn LINE_MAX p) a))
        as (p2 & cl2 & a2 & E & Hs & Hc & Hle & Hp & _); [lia|].
      exists p2, cl2, a2. rewrite E. repeat split; auto; try lia.
      * rewrite Hs, skipn_skipn. f_equal. lia.
      * now rewrite Hp, do_emit_pend.
    + exists p, chunk_len, a. repeat split; auto.
Qed.

Lemma make_room_total p chunk_len a :
  (line_len (pend a) <= LINE_MAX)%nat ->
  exists p2 cl2 a2,
    make_room emit level tag p chunk_len a = Some (p2, cl2, a2) /\
    skipn cl2 p2 = skipn chunk_len p /\
    (line_len (pend a2) + cl2 <= LINE_MAX)%nat /\ (cl2 <= chunk_len)%nat.
Proof.
  intros Hl. unfold make_room.
  destruct (Nat.ltb_spec (LINE_MAX - line_len (pend a)) chunk_len) as [Hlt|Hge].
  - match goal with
    | |- context [slice_loop emit level tag chunk_len p chunk_len ?x] =>
        destruct (slice_loop_total chunk_len p chunk_len x (le_n _))
          as (p2 & cl2 & a2 & E & Hs & Hc & Hle & Hp & _);
        assert (Hx : line_len (pend x) = 0%nat)
    end.
    { destruct (Nat.ltb_spec 0 (line_len (pend a))); [reflexivity|].
      unfold line_len in *. lia. }
    exists p2, cl2, a2. rewrite E. repeat split; auto.
    unfold line_len in *. rewrite Hp. lia.
  - exists p, chunk_len, a. repeat split; auto. lia.
Qed.

Lemma make_room_fits p chunk_len a :
  (line_len (pend a) + chunk_len <= LINE_MAX)%nat ->
  make_room emit level tag p chunk_len a = Some (p, chunk_len, a).
Proof.
  intros H. unfold make_room.
  destruct (Nat.ltb_spec (LINE_MAX - line_len (pend a)) chunk_len); [lia|reflexivity].
Qed.

End AccumulatorFacts.

(** ** Properties kept by every turn

    A relation between the accumulator before and after that holds across
    [do_emit] and across any update of the pending line that keeps the
    guard holds across the whole loop. *)

Section LoopRelation.

Variable D : Type.
Variable emit : log_level_t -> option cstring -> cstring -> D -> bool * D.
Variable level : log_level_t.
Variable tag : option cstring.

Variable R : Acc D -> Acc D -> Prop.
Hypothesis R_refl : forall a, R a a.
Hypothesis R_trans : forall a b c, R a b -> R b c -> R a c.
Hypothesis R_emit : forall lvl tg body a, R a (do_emit emit lvl tg body a).
Hypothesis R_pend :
  forall a l, line_mutex l = line_mutex (pend a) -> R a (with_pend l a).

Lemma set_line_len0_rel a : R a (set_line_len0 a).
Proof. apply R_pend. reflexivity. Qed.

Lemma clear_cur_tag_rel a : R a (clear_cur_tag a).
Proof. apply R_pend. reflexivity. Qed.

Lemma flush_rel lvl tg body a :
  R a (clear_cur_tag (set_line_len0 (do_emit emit lvl tg body a))).
Proof.
  eapply R_trans; [apply R_emit|].
  eapply R_trans; [apply set_line_len0_rel|apply clear_cur_tag_rel].
Qed.

Lemma attr_flush_rel a : R a (attr_flush emit level tag a).
Proof.
  unfold attr_flush.
  destruct (0 <? line_len (pend a))%nat; [|apply R_refl].
  destruct (attr_changed level tag (pend a)); [apply flush_rel|apply R_refl].
Qed.

Lemma attr_set_rel a : R a (attr_set level tag a).
Proof.
  unfold attr_set.
  destruct (line_len (pend a) =? 0)%nat; [apply R_pend; reflexivity|apply R_refl].
Qed.

Lemma slice_loop_rel fuel p chunk_len a p2 cl2 a2 :
  slice_loop emit level tag fuel p chunk_len a = Some (p2, cl2, a2) -> R a a2.
Proof.
  revert p chunk_len a.
  induction fuel as [|fuel IH]; intros p chunk_len a; rewrite slice_loop_unfold;
    destruct (LINE_MAX <? chunk_len)%nat; intros H; try discriminate.
  - injection H as _ _ <-. apply R_refl.
  - eapply R_trans; [apply R_emit|exact (IH _ _ _ H)].
  - injection H as _ _ <-. apply R_refl.
Qed.

Lemma make_room_rel p chunk_len a p2 cl2 a2 :
  make_room emit level tag p chunk_len a = Some (p2, cl2, a2) -> R a a2.
Proof.
  unfold make_room.
  destruct (LINE_MAX - line_len (pend a) <? chunk_len)%nat; intros H.
  - eapply R_trans; [|exact (slice_loop_rel _ _ _ _ _ _ _ H)].
    destruct (0 <? line_len (pend a))%nat; [|apply R_refl].
    eapply R_trans; [apply R_emit|apply set_line_len0_rel].
  - injection H as _ _ <-. apply R_refl.
Qed.

Lemma append_chunk_rel chunk a : R a (append_chunk chunk a).
Proof. apply R_pend. reflexivity. Qed.

Lemma end_of_line_rel a : R a (end_of_line emit a).
Proof. apply flush_rel. Qed.

Lemma line_loop_rel fuel p a r :
  line_loop emit level tag fuel p a = Some r -> R a r.
Proof.
  revert p a.
  induction fuel as [|fuel IH]; intros [|c p] a H;
    try (rewrite line_loop_nil in H; injection H as <-; apply R_refl);
    try discriminate.
  rewrite line_loop_step in H.
  destruct (make_room _ _ _ _ _ _) as [[[p2 cl2] a2]|] eqn:E; [|discriminate].
  cbv zeta in H.
  assert (Hpre : R a (append_chunk (firstn cl2 p2) a2)).
  { eapply R_trans; [apply attr_flush_rel|].
    eapply R_trans; [apply attr_set_rel|].
    eapply R_trans; [exact (make_room_rel _ _ _ _ _ _ E)|apply append_chunk_rel]. }
  destruct (strpbrk (c :: p)).
  - eapply R_trans; [exact Hpre|].
    eapply R_trans; [apply end_of_line_rel|exact (IH _ _ H)].
  - eapply R_trans; [exact Hpre|exact (IH _ _ H)].
Qed.

End LoopRelation.

Section LoopFacts.

Variable D : Type.
Variable emit : log_level_t -> option cstring -> cstring -> D -> bool * D.
Variable level : log_level_t.
Variable tag : option cstring.

(** What the dispatcher keeps, the loop keeps. *)
Lemma line_loop_disp (P : D -> Prop) fuel p a r :
  (forall lvl tg body d, P d -> P (snd (emit lvl tg body d))) ->
  line_loop emit level tag fuel p a = Some r -> P (disp a) -> P (disp r).
Proof.
  intros HP.
  apply (line_loop_rel D emit level tag (fun a b => P (disp a) -> P (disp b))); auto.
  intros lvl tg body x Hx. unfold do_emit.
  destruct (all_ok x); [|exact Hx].
  specialize (HP lvl (Some tg) body _ Hx).
  destruct (emit lvl (Some tg) body (disp x)); exact HP.
Qed.

(** The records already handed over stay, in order. *)
Lemma line_loop_emitted fuel p a r :
  line_loop emit level tag fuel p a = Some r ->
  exists e, emitted r = emitted a ++ e.
Proof.
  apply (line_loop_rel D emit level tag
           (fun a b => exists e, emitted b = emitted a ++ e)).
  - intros x. exists []. now rewrite app_nil_r.
  - intros x y z [e1 H1] [e2 H2]. exists (e1 ++ e2). now rewrite H2, H1, app_assoc.
  - intros lvl tg body x. unfold do_emit.
    destruct (all_ok x); [|exists []; now rewrite app_nil_r].
    destruct (emit _ _ _ _). eexists. reflexivity.
  - intros x l _. exists []. simpl. now rewrite app_nil_r.
Qed.

(** Once [all_ok] is false it stays false. *)
Lemma line_loop_all_ok fuel p a r :
  line_loop emit level tag fuel p a = Some r -> all_ok r = true -> all_ok a = true.
Proof.
  apply (line_loop_rel D emit level tag (fun a b => all_ok b = true -> all_ok a = true)).
  - auto.
  - auto.
  - intros lvl tg body x. unfold do_emit.
    destruct (all_ok x) eqn:E; [intros _; reflexivity|simpl; congruence].
  - intros x l _ H. exact H.
Qed.

Lemma line_loop_mutex fuel p a r :
  line_loop emit level tag fuel p a = Some r ->
  line_mutex (pend r) = line_mutex (pend a).
Proof.
  apply (line_loop_rel D emit level tag
           (fun a b => line_mutex (pend b) = line_mutex (pend a))).
  - reflexivity.
  - intros x y z H1 H2. congruence.
  - intros lvl tg body x. now rewrite do_emit_pend.
  - intros x l H. exact H.
Qed.

End LoopFacts.

(** * The handle invariant *)

Lemma same_handle_inv s w r s' w' :
  same_handle s w (r, s', w') -> client_inv s w -> client_inv s' w'.
Proof.
  unfold same_handle, client_inv. simpl. intros (Hi & Hu & Hp) [H1 H2].
  rewrite Hi, Hu, Hp. auto.
Qed.

Lemma logger_output_guarded_same env level tag message s w :
  same_handle s w (logger_output_guarded env level tag message s w).
Proof.
  unfold logger_output_guarded, same_handle.
  destruct (initialized s) eqn:Hi, (udp s) as [h|] eqn:Hu; simpl; auto.
  destruct (syslog_format_msg _ _ _ _ _ _); simpl; auto.
  destruct (pbuf_alloc_ok env), (pbuf_take_ok env), (udp_sendto_ok env); simpl; auto.
Qed.

Lemma logger_output_same env level tag message s w :
  same_handle s w (logger_output env level tag message s w).
Proof.
  unfold logger_output.
  destruct (initialized s) eqn:Hi, (udp s) as [h|] eqn:Hu, (mutex s) as [m|] eqn:Hm;
    try (unfold same_handle; simpl; auto; fail).
  destruct (level >? min_level s); [unfold same_handle; simpl; auto|].
  destruct (take_ok env); simpl negb; cbv iota.
  - apply logger_output_guarded_same.
  - unfold same_handle; simpl; auto.
Qed.

Lemma logger_printf_same env level tag format s w :
  same_handle s w (logger_printf env level tag format s w).
Proof.
  destruct format; simpl; try (unfold same_handle; simpl; auto; fail).
  apply logger_output_same.
Qed.

Lemma client_emit_inv level tag message c :
  client_inv (syslog c) (world c) ->
  client_inv (syslog (snd (client_emit level tag message c)))
             (world (snd (client_emit level tag message c))).
Proof.
  intros H. unfold client_emit.
  pose proof (logger_output_same (oracle c (tick c)) level tag message (syslog c) (world c))
    as Hs.
  destruct (logger_output _ _ _ _ _ _) as [[r s'] w']. simpl.
  exact (same_handle_inv _ _ _ _ _ Hs H).
Qed.

Lemma logger_printf_line_disp (D : Type) emit (P : D -> Prop) env level tag format l d
      r l' d' rs :
  (forall lvl tg body x, P x -> P (snd (emit lvl tg body x))) ->
  logger_printf_line emit env level tag format l d = Some (r, l', d', rs) ->
  P d -> P d'.
Proof.
  intros HP H Hd. unfold logger_printf_line in H.
  destruct format as [| |text]; try (injection H as _ _ <- _; exact Hd).
  destruct (is_some _ && negb _); [injection H as _ _ <- _; exact Hd|].
  destruct (line_loop _ _ _ _ _ _) as [x|] eqn:E; [|discriminate].
  injection H as _ _ <- _.
  exact (line_loop_disp D emit level tag P _ _ _ _ HP E Hd).
Qed.

Lemma remove_only (h : udp_pcb) : remove Nat.eq_dec h [h] = [].
Proof. simpl. destruct (Nat.eq_dec h h); congruence. Qed.

Lemma cleanup_existing_spec s w :
  client_inv s w ->
  let '(s', w') := cleanup_existing s w in
  initialized s' = false /\ udp s' = None /\ pcbs w' = [].
Proof.
  intros [Hiff Hp]. unfold cleanup_existing.
  destruct (initialized s) eqn:Hi.
  - destruct (udp s) as [h|] eqn:Hu; [|exfalso; apply (proj1 Hiff); auto].
    simpl. rewrite Hp. repeat split; auto. apply remove_only.
  - destruct (udp s) as [h|] eqn:Hu.
    + assert (false = true) by (apply (proj2 Hiff); discriminate). discriminate.
    + auto.
Qed.

Lemma open_handle_spec env s w :
  pcbs w = [] ->
  let '(s', w') := open_handle env s w in
  initialized s' = initialized s /\ server s' = server s /\ port s' = port s /\
  pcbs w' = match udp s' with Some h => [h] | None => [] end /\
  (udp_new_ok env && udp_bind_ok env = false -> udp s' = None) /\
  (udp_new_ok env && udp_bind_ok env = true -> udp s' <> None).
Proof.
  intros Hp. unfold open_handle, udp_new.
  destruct (udp_new_ok env), (udp_bind_ok env); simpl; rewrite ?Hp; simpl;
    try destruct (Nat.eq_dec _ _); repeat split; intros; congruence.
Qed.

Lemma init_logger_guarded_inv env addr p s w :
  client_inv s w ->
  let '(r, s', w') := init_logger_guarded env addr p s w in
  client_inv s' w' /\
  (r = true -> initialized s' = true /\ server s' = addr /\ port s' = uint16 p) /\
  (udp_new_ok env && udp_bind_ok env = false ->
   r = false /\ initialized s' = false /\ udp s' = None /\ pcbs w' = []).
Proof.
  intros Hinv. unfold init_logger_guarded.
  pose proof (cleanup_existing_spec s w Hinv) as Hc.
  destruct (cleanup_existing s w) as [s0 w0]. destruct Hc as (Hi0 & Hu0 & Hp0).
  pose proof (open_handle_spec env (set_port (uint16 p) (set_server addr s0)) w0 Hp0) as Ho.
  destruct (open_handle env _ w0) as [s1 w1].
  destruct Ho as (Hi1 & Hs1 & Hpt1 & Hp1 & Hfail & Hok). simpl in Hi1, Hs1, Hpt1.
  destruct (udp s1) as [h|] eqn:Hu1.
  - split; [|split].
    + split; simpl; [|now rewrite Hu1]. rewrite Hu1. split; [discriminate|reflexivity].
    + intros _. simpl. auto.
    + intros Hf. specialize (Hfail Hf). discriminate.
  - split; [|split].
    + split; simpl; [|now rewrite Hu1]. rewrite Hu1, Hi1, Hi0. split; congruence.
    + discriminate.
    + intros _. simpl. rewrite Hi1, Hi0. auto.
Qed.

Lemma init_logger_inv env ipstr p s w r s' w' :
  client_inv s w -> init_logger env ipstr p s w = (r, s', w') -> client_inv s' w'.
Proof.
  intros Hinv H. unfold init_logger in H.
  assert (Hmx : forall v, client_inv (set_mutex v s) w) by (intros v; exact Hinv).
  assert (Hpr : forall t, client_inv s (printf t w)) by (intros t; exact Hinv).
  destruct ipstr as [ip|]; [|injection H as _ <- <-; apply Hpr].
  destruct ((p <=? 0) || (p >? 65535)); [injection H as _ <- <-; apply Hpr|].
  destruct (ipaddr_aton env ip) as [addr|]; [|injection H as _ <- <-; apply Hpr].
  assert (Hs0 : client_inv (match mutex s with
                            | Some _ => s
                            | None => set_mutex (mutex_create env) s
                            end) w) by (destruct (mutex s); auto).
  revert H Hs0. generalize (match mutex s with
                            | Some _ => s
                            | None => set_mutex (mutex_create env) s
                            end). intros s0 H Hs0.
  destruct (mutex s0); [|injection H as _ <- <-; exact Hs0].
  destruct (init_take_ok env); simpl in H; [|injection H as _ <- <-; exact Hs0].
  pose proof (init_logger_guarded_inv env addr p s0 w Hs0) as Hg.
  rewrite H in Hg. apply Hg.
Qed.

Lemma step_inv x y : step x y -> client_inv (fst x) (snd x) -> client_inv (fst y) (snd y).
Proof.
  intros Hstep; destruct Hstep; simpl; intros Hinv.
  - eapply init_logger_inv; eauto.
  - pose proof (logger_output_same env level tag message s w) as Hs.
    rewrite H in Hs. exact (same_handle_inv _ _ _ _ _ Hs Hinv).
  - pose proof (logger_output_guarded_same env level tag message s w) as Hs.
    rewrite H0 in Hs. exact (same_handle_inv _ _ _ _ _ Hs Hinv).
  - exact Hinv.
  - pose proof (logger_printf_same env level tag format s w) as Hs.
    rewrite H in Hs. exact (same_handle_inv _ _ _ _ _ Hs Hinv).
  - exact (logger_printf_line_disp Client client_emit
             (fun c => client_inv (syslog c) (world c)) _ _ _ _ _ _ _ _ _ _
             (fun lvl tg body c Hc => client_emit_inv lvl tg body c Hc) H Hinv).
  - unfold logger_set_min_level. destruct (mutex s); [|exact Hinv].
    destruct take; exact Hinv.
  - unfold logger_reset_stats. destruct (mutex s); [|exact Hinv].
    destruct take; exact Hinv.
Qed.

Lemma reachable_inv x : reachable x -> client_inv (fst x) (snd x).
Proof.
  induction 1 as [|x y _ IH Hstep].
  - split; simpl; [|reflexivity]. split; [discriminate|congruence].
  - exact (step_inv x y Hstep IH).
Qed.

Lemma client_inv_one_handle s w : client_inv s w -> (length (pcbs w) <= 1)%nat.
Proof. intros [_ H]. rewrite H. destruct (udp s); simpl; lia. Qed.

Lemma configured_reachable : reachable (configured_syslog, configured_world).
Proof.
  apply (reach_step (logger_syslog, mkWorld [] [])); [apply reach_boot|].
  apply (step_init init_env (Some (txt "192.168.1.1")) 514 _ _ true). reflexivity.
Qed.

(** ** Tasks that run [init_logger] at the same time *)

Lemma release_own (m : SemaphoreHandle_t) (me : nat) : release m [(m, me)] = [].
Proof. unfold release. simpl. now rewrite Nat.eqb_refl. Qed.

(** A task that runs its call without another task in between does what
    [init_logger] does, and leaves no mutex held. *)
Lemma init_logger_alone env me ipstr p a0 s w :
  let '(f, x) := run_alone 24 env me (mkFrame L107 ipstr p a0) (mkMachine s w []) in
  (at_line f, m_syslog x, m_world x) =
  (let '(r, s', w') := init_logger env ipstr p s w in (Returned r, s', w')) /\
  holders x = [].
Proof.
  unfold init_logger, init_logger_guarded, cleanup_existing, open_handle, udp_new.
  destruct s as [sv pt fc ml hn an ini ud mx sc fcn].
  destruct env as [aton ntoa mc tk un ub].
  destruct ipstr as [ip|]; [|split; reflexivity].
  cbn -[Z.leb Z.gtb dec txt uint16 give_mutex fresh_pcb remove].
  destruct ((p <=? 0) || (p >? 65535)); [split; reflexivity|].
  destruct (aton ip) as [addr|]; [|split; reflexivity].
  destruct mx as [m|]; [|destruct mc as [m|]; [|split; reflexivity]];
    (destruct tk; [|split; reflexivity]);
    destruct ini, ud as [h|], un, ub;
    cbv -[Z.leb Z.gtb dec txt uint16 fresh_pcb remove Nat.eqb];
    rewrite ?Nat.eqb_refl; split; reflexivity.
Qed.

Lemma holder_take (m : SemaphoreHandle_t) (me : nat) hs : holder m ((m, me) :: hs) = Some me.
Proof. unfold holder. simpl. now rewrite Nat.eqb_refl. Qed.

Lemma holder_release (m : SemaphoreHandle_t) hs : holder m (release m hs) = None.
Proof.
  unfold holder, release. induction hs as [|[m' t] hs IH]; simpl; [reflexivity|].
  destruct (Nat.eqb m' m) eqn:E; simpl; [exact IH|]. now rewrite E.
Qed.

Lemma line_inv_same ln s w s' w' :
  initialized s' = initialized s -> udp s' = udp s -> pcbs w' = pcbs w ->
  line_inv ln s w -> line_inv ln s' w'.
Proof.
  intros Hi Hu Hp. destruct ln; simpl; unfold client_inv, live;
    rewrite ?Hi, ?Hu, ?Hp; auto.
Qed.

Lemma client_inv_same s w s' w' :
  initialized s' = initialized s -> udp s' = udp s -> pcbs w' = pcbs w ->
  client_inv s w -> client_inv s' w'.
Proof. exact (line_inv_same L143 s w s' w'). Qed.

(** The pcbs are [live s] at every line where the handle is in place. *)
Lemma line_inv_one_handle ln s w :
  in_section ln = true -> line_inv ln s w -> (length (pcbs w) <= 1)%nat.
Proof.
  destruct ln; simpl; try discriminate; intros _; unfold client_inv, live;
    intros H; decompose [and] H; clear H;
    repeat match goal with H : pcbs w = _ |- _ => rewrite H end;
    try (destruct (udp s)); simpl; lia.
Qed.

(** A statement outside the guarded section leaves the handle alone; the
    only way into the section is to take the guard while it is free. *)
Lemma stmt_outside env me f x f' x' m :
  in_section (at_line f) = false ->
  at_line f <> L130 -> at_line f <> L131 ->
  mutex (m_syslog x) = Some m ->
  init_logger_stmt env me f x = Some (f', x') ->
  mutex (m_syslog x') = Some m /\
  initialized (m_syslog x') = initialized (m_syslog x) /\
  udp (m_syslog x') = udp (m_syslog x) /\
  pcbs (m_world x') = pcbs (m_world x) /\
  at_line f' <> L130 /\ at_line f' <> L131 /\
  ((holders x' = holders x /\ in_section (at_line f') = false) \/
   (holder m (holders x) = None /\ holders x' = (m, me) :: holders x /\ at_line f' = L143)).
Proof.
  intros Hs H130 H131 Hm H. unfold init_logger_stmt in H.
  destruct f as [ln ip p a]. simpl in Hs, H130, H131.
  destruct ln; simpl in H; try discriminate; try congruence.
  - (* L107 *)
    destruct ip as [ip|];
      [destruct ((p <=? 0) || (p >? 65535));
       [|destruct (ipaddr_aton env ip)]|];
      injection H as <- <-; simpl; repeat split; auto; try discriminate;
      left; auto.
  - (* L129 *)
    rewrite Hm in H. injection H as <- <-. simpl. repeat split; auto; try discriminate.
  - (* L137 *)
    rewrite Hm in H. destruct (negb (init_take_ok env)).
    + injection H as <- <-. simpl. repeat split; auto; try discriminate.
    + destruct (holder m (holders x)) eqn:Eh; [discriminate|].
      injection H as <- <-. simpl. repeat split; auto; try discriminate.
  - (* L169 *)
    injection H as <- <-. simpl. repeat split; auto; try discriminate.
  - (* L176 *)
    injection H as <- <-. simpl. repeat split; auto; try discriminate.
Qed.

(** A statement of the guarded section establishes what the next line
    expects; the two gives (lines 168 and 174) leave the section with
    [client_inv] in place. *)
Lemma stmt_in_section env me f x f' x' m :
  in_section (at_line f) = true ->
  mutex (m_syslog x) = Some m ->
  line_inv (at_line f) (m_syslog x) (m_world x) ->
  init_logger_stmt env me f x = Some (f', x') ->
  mutex (m_syslog x') = Some m /\
  at_line f' <> L130 /\ at_line f' <> L131 /\
  ((in_section (at_line f') = true /\ holders x' = holders x /\
    line_inv (at_line f') (m_syslog x') (m_world x')) \/
   (in_section (at_line f') = false /\ holders x' = release m (holders x) /\
    client_inv (m_syslog x') (m_world x') /\
    (at_line f = L168 \/ at_line f = L174))).
Proof.
  intros Hs Hm Hinv H. unfold init_logger_stmt in H.
  destruct f as [ln ip p a]. destruct x as [s w hs].
  cbn [at_line m_syslog m_world holders] in *.
  destruct ln; simpl in Hs; try discriminate; simpl in Hinv;
    unfold client_inv, live, give_mutex, udp_new in *;
    cbn [m_syslog m_world holders] in *;
    rewrite ?Hm in H;
    destruct (initialized s) eqn:Ei; destruct (udp s) as [h|] eqn:Eu;
    try (destruct (udp_new_ok env)); try (destruct (negb (udp_bind_ok env)));
    try (exfalso; clear H; intuition congruence);
    injection H as <- <-; simpl; unfold client_inv, live; simpl; rewrite ?Ei, ?Eu;
    (split; [exact Hm|]); (split; [discriminate|]); (split; [discriminate|]);
    decompose [and] Hinv; clear Hinv;
    repeat match goal with Hp : pcbs w = _ |- _ => rewrite Hp end;
    rewrite ?remove_only;
    first [ left; solve [intuition (auto; congruence)]
          | right; solve [intuition (auto; congruence)] ].
Qed.

Lemma logger_output_guarded_mutex env level tag message s w :
  mutex (snd (fst (logger_output_guarded env level tag message s w))) = mutex s.
Proof.
  unfold logger_output_guarded.
  destruct (initialized s), (udp s) as [h|]; simpl; auto.
  destruct (syslog_format_msg _ _ _ _ _ _); simpl; auto.
  destruct (pbuf_alloc_ok env), (pbuf_take_ok env), (udp_sendto_ok env); simpl; auto.
Qed.

Lemma logger_output_mutex env level tag message s w :
  mutex (snd (fst (logger_output env level tag message s w))) = mutex s.
Proof.
  unfold logger_output.
  destruct (initialized s), (udp s) as [h|], (mutex s) as [m|] eqn:Em; simpl; auto.
  destruct (level >? min_level s); simpl; auto.
  destruct (negb (take_ok env)); simpl; auto.
  rewrite logger_output_guarded_mutex. exact Em.
Qed.

Lemma logger_set_min_level_handle take min s :
  mutex (logger_set_min_level take min s) = mutex s /\
  initialized (logger_set_min_level take min s) = initialized s /\
  udp (logger_set_min_level take min s) = udp s.
Proof.
  unfold logger_set_min_level.
  destruct (mutex s) eqn:E; [destruct (negb take)|]; simpl; auto.
Qed.

Lemma logger_reset_stats_handle take s :
  mutex (logger_reset_stats take s) = mutex s /\
  initialized (logger_reset_stats take s) = initialized s /\
  udp (logger_reset_stats take s) = udp s.
Proof.
  unfold logger_reset_stats.
  destruct (mutex s) eqn:E; [destruct (negb take)|]; simpl; auto.
Qed.

Lemma set_task_same i f (t : nat -> Frame) : set_task i f t i = f.
Proof. unfold set_task. now rewrite Nat.eqb_refl. Qed.

Lemma set_task_other i j f (t : nat -> Frame) : j <> i -> set_task i f t j = t j.
Proof. unfold set_task. intros H. apply Nat.eqb_neq in H. now rewrite H. Qed.

(** A step that leaves the handle, the guard and the tasks as they are
    keeps the invariant. *)
Lemma sys_inv_same y s' w' :
  mutex s' = mutex (m_syslog (machine y)) ->
  initialized s' = initialized (m_syslog (machine y)) ->
  udp s' = udp (m_syslog (machine y)) ->
  pcbs w' = pcbs (m_world (machine y)) ->
  sys_inv y ->
  sys_inv (mkSystem (mkMachine s' w' (holders (machine y))) (tasks y)).
Proof.
  intros Hm Hi Hu Hp (m & Em & Hno & Hcase).
  exists m. cbn [machine tasks m_syslog m_world holders].
  split; [congruence|]. split; [exact Hno|].
  destruct (holder m (holders (machine y))) as [o|].
  - destruct Hcase as (H1 & H2 & H3). split; [exact H1|]. split; [|exact H3].
    exact (line_inv_same _ _ _ _ _ Hi Hu Hp H2).
  - destruct Hcase as (H1 & H2). split; [|exact H2].
    exact (client_inv_same _ _ _ _ Hi Hu Hp H1).
Qed.

Lemma sys_step_inv y z : sys_inv y -> sys_step y z -> sys_inv z.
Proof.
  intros Hinv Hstep. destruct Hstep.
  - (* a task enters init_logger *)
    destruct Hinv as (m & Em & Hno & Hcase).
    exists m. cbn [machine tasks]. split; [exact Em|].
    assert (Hline : forall j, at_line (set_task i (mkFrame L107 ipstr p 0) (tasks y) j) = L107
                              \/ set_task i (mkFrame L107 ipstr p 0) (tasks y) j = tasks y j).
    { intros j. destruct (Nat.eq_dec j i) as [->|Hne].
      - left. now rewrite set_task_same.
      - right. now apply set_task_other. }
    split.
    { intros j. destruct (Hline j) as [E|E]; rewrite E; [split; discriminate|apply Hno]. }
    destruct (holder m (holders (machine y))) as [o|].
    + destruct Hcase as (H1 & H2 & H3).
      assert (Hoi : o <> i).
      { intros ->. destruct (at_line (tasks y i)); discriminate. }
      rewrite (set_task_other i o _ _ Hoi). split; [exact H1|]. split; [exact H2|].
      intros j Hj. destruct (Hline j) as [E|E]; rewrite E; [reflexivity|exact (H3 j Hj)].
    + destruct Hcase as (H1 & H2). split; [exact H1|].
      intros j. destruct (Hline j) as [E|E]; rewrite E; [reflexivity|exact (H2 j)].
  - (* a task runs a statement of init_logger *)
    destruct Hinv as (m & Em & Hno & Hcase).
    exists m. cbn [machine tasks].
    destruct (in_section (at_line (tasks y i))) eqn:Es.
    + assert (Eh : holder m (holders (machine y)) = Some i).
      { destruct (holder m (holders (machine y))) as [o|].
        - destruct (Nat.eq_dec i o) as [->|Hne]; [reflexivity|].
          destruct Hcase as (_ & _ & H3). rewrite (H3 i Hne) in Es. discriminate.
        - destruct Hcase as (_ & H2). rewrite (H2 i) in Es. discriminate. }
      rewrite Eh in Hcase. destruct Hcase as (_ & H2 & H3).
      destruct (stmt_in_section env i _ _ _ _ m Es Em H2 H) as (Em' & N1 & N2 & Hnext).
      split; [exact Em'|]. split.
      { intros j. destruct (Nat.eq_dec j i) as [->|Hne].
        - rewrite set_task_same. auto.
        - rewrite (set_task_other i j _ _ Hne). apply Hno. }
      destruct Hnext as [(Hin & Hh & Hl)|(Hout & Hh & Hc & _)]; rewrite Hh.
      * rewrite Eh, set_task_same. split; [exact Hin|]. split; [exact Hl|].
        intros j Hj. rewrite (set_task_other i j _ _ Hj). exact (H3 j Hj).
      * rewrite holder_release. split; [exact Hc|].
        intros j. destruct (Nat.eq_dec j i) as [->|Hne].
        -- now rewrite set_task_same.
        -- rewrite (set_task_other i j _ _ Hne). exact (H3 j Hne).
    + destruct (Hno i) as [N130 N131].
      destruct (stmt_outside env i _ _ _ _ m Es N130 N131 Em H)
        as (Em' & Hi & Hu & Hp & N1 & N2 & Hnext).
      split; [exact Em'|]. split.
      { intros j. destruct (Nat.eq_dec j i) as [->|Hne].
        - rewrite set_task_same. auto.
        - rewrite (set_task_other i j _ _ Hne). apply Hno. }
      destruct Hnext as [(Hh & Hout)|(Hfree & Hh & Hl)]; rewrite Hh.
      * destruct (holder m (holders (machine y))) as [o|].
        -- destruct Hcase as (H1 & H2 & H3).
           assert (Hoi : o <> i) by (intros ->; congruence).
           rewrite (set_task_other i o _ _ Hoi). split; [exact H1|].
           split; [exact (line_inv_same _ _ _ _ _ Hi Hu Hp H2)|].
           intros j Hj. destruct (Nat.eq_dec j i) as [->|Hne].
           ++ now rewrite set_task_same.
           ++ rewrite (set_task_other i j _ _ Hne). exact (H3 j Hj).
        -- destruct Hcase as (H1 & H2).
           split; [exact (client_inv_same _ _ _ _ Hi Hu Hp H1)|].
           intros j. destruct (Nat.eq_dec j i) as [->|Hne].
           ++ now rewrite set_task_same.
           ++ rewrite (set_task_other i j _ _ Hne). exact (H2 j).
      * rewrite Hfree in Hcase. destruct Hcase as (H1 & H2).
        rewrite holder_take, set_task_same, Hl.
        split; [reflexivity|].
        split; [exact (client_inv_same _ _ _ _ Hi Hu Hp H1)|].
        intros j Hj. rewrite (set_task_other i j _ _ Hj). exact (H2 j).
  - (* logger_output *)
    pose proof (logger_output_same env level tag message (m_syslog (machine y))
                  (m_world (machine y))) as Hs.
    pose proof (logger_output_mutex env level tag message (m_syslog (machine y))
                  (m_world (machine y))) as Hm.
    rewrite H0 in Hs, Hm. destruct Hs as (Hi & Hu & Hp). simpl in Hi, Hu, Hp, Hm.
    exact (sys_inv_same y s' w' Hm Hi Hu Hp Hinv).
  - (* the guarded part of logger_output *)
    pose proof (logger_output_guarded_same env level tag message (m_syslog (machine y))
                  (m_world (machine y))) as Hs.
    pose proof (logger_output_guarded_mutex env level tag message (m_syslog (machine y))
                  (m_world (machine y))) as Hm.
    rewrite H1 in Hs, Hm. destruct Hs as (Hi & Hu & Hp). simpl in Hi, Hu, Hp, Hm.
    exact (sys_inv_same y s' w' Hm Hi Hu Hp Hinv).
  - exact (sys_inv_same y _ _ eq_refl eq_refl eq_refl eq_refl Hinv).
  - destruct (logger_set_min_level_handle take min (m_syslog (machine y))) as (Hm & Hi & Hu).
    exact (sys_inv_same y _ _ Hm Hi Hu eq_refl Hinv).
  - destruct (logger_reset_stats_handle take (m_syslog (machine y))) as (Hm & Hi & Hu).
    exact (sys_inv_same y _ _ Hm Hi Hu eq_refl Hinv).
Qed.

Lemma sys_reachable_inv x y : sys_inv x -> sys_reachable x y -> sys_inv y.
Proof.
  intros Hx Hr. induction Hr as [|y z _ IH Hstep]; [exact Hx|].
  exact (sys_step_inv y z IH Hstep).
Qed.

Lemma quiet_inv s w : client_inv s w -> mutex s <> None -> sys_inv (quiet s w).
Proof.
  intros Hinv Hm. destruct (mutex s) as [m|] eqn:Em; [|congruence].
  exists m. cbn. split; [exact Em|]. split; [split; discriminate|].
  split; [exact Hinv|reflexivity].
Qed.

Lemma sys_move_step i mv y z : sys_move i mv y = Some z -> sys_step y z.
Proof.
  destruct mv as [ipstr p|env]; simpl.
  - destruct (outside (at_line (tasks y i))) eqn:E; [|discriminate].
    intros H. injection H as <-. now apply sys_call.
  - destruct (init_logger_stmt env i (tasks y i) (machine y)) as [[f' x']|] eqn:E;
      [|discriminate].
    intros H. injection H as <-. now apply (sys_stmt env).
Qed.

Lemma sys_run_reachable schedule y z :
  sys_run schedule y = Some z -> sys_reachable y z.
Proof.
  revert y. induction schedule as [|[i mv] rest IH]; intros y H; simpl in H.
  - injection H as <-. apply sys_here.
  - destruct (sys_move i mv y) as [y'|] eqn:E; [|discriminate].
    pose proof (IH y' H) as Hr. clear IH H.
    induction Hr as [|u v _ IHr Hstep].
    + apply (sys_next y y y'); [apply sys_here|exact (sys_move_step _ _ _ _ E)].
    + exact (sys_next y u v IHr Hstep).
Qed.

(** What the invariant says to an observer of the client. *)
Lemma sys_inv_observed y :
  sys_inv y ->
  (length (pcbs (m_world (machine y))) <= 1)%nat /\
  (guard_free (machine y) -> client_inv (m_syslog (machine y)) (m_world (machine y))) /\
  (forall i, in_section (at_line (tasks y i)) = true ->
             line_inv (at_line (tasks y i)) (m_syslog (machine y)) (m_world (machine y))).
Proof.
  intros (m & Em & _ & Hcase). unfold guard_free. rewrite Em.
  destruct (holder m (holders (machine y))) as [o|].
  - destruct Hcase as (H1 & H2 & H3). split; [|split].
    + exact (line_inv_one_handle _ _ _ H1 H2).
    + discriminate.
    + intros i Hi. destruct (Nat.eq_dec i o) as [->|Hne]; [exact H2|].
      rewrite (H3 i Hne) in Hi. discriminate.
  - destruct Hcase as (H1 & H2). split; [|split].
    + exact (client_inv_one_handle _ _ H1).
    + intros _. exact H1.
    + intros i Hi. rewrite (H2 i) in Hi. discriminate.
Qed.

(** X20. In every state reached by calls that do not overlap, the handle
    is non-null exactly when [initialized] is true and it is the only live
    handle; whatever [init_logger] is then called with and however it
    ends, the same holds afterwards; and when creating or binding the new
    handle fails, the call returns false with [initialized] false, no
    handle held and none live.  Once the guard exists the same holds with
    tasks that run at the same time, whatever they call and however their
    statements interleave: there is never more than one live handle;
    whenever the guard is not held the handle is non-null exactly when
    [initialized] is true and it is the only live one; a call that failed
    to create or bind gives the guard back (line 168) with [initialized]
    false, no handle held and none live; a call that succeeded gives it
    back (line 174) with [initialized] true and its handle the only live
    one. *)
Theorem handle_invariant s w :
  reachable (s, w) ->
  client_inv s w /\ (length (pcbs w) <= 1)%nat /\
  (forall env ipstr p,
      let '(_, s', w') := init_logger env ipstr p s w in
      client_inv s' w' /\ (length (pcbs w') <= 1)%nat) /\
  (forall env addr p,
      udp_new_ok env && udp_bind_ok env = false ->
      let '(r, s', w') := init_logger_guarded env addr p s w in
      r = false /\ initialized s' = false /\ udp s' = None /\ pcbs w' = []) /\
  (mutex s <> None ->
   forall y, sys_reachable (quiet s w) y ->
     let s' := m_syslog (machine y) in
     let w' := m_world (machine y) in
     (length (pcbs w') <= 1)%nat /\
     (guard_free (machine y) -> client_inv s' w') /\
     (forall i, at_line (tasks y i) = L168 ->
                initialized s' = false /\ udp s' = None /\ pcbs w' = []) /\
     (forall i, at_line (tasks y i) = L174 ->
                initialized s' = true /\ udp s' <> None /\ pcbs w' = live s')).
Proof.
  intros Hr. pose proof (reachable_inv _ Hr) as Hinv. simpl in Hinv.
  split; [exact Hinv|]. split; [exact (client_inv_one_handle _ _ Hinv)|].
  split; [|split].
  - intros env ipstr p.
    destruct (init_logger env ipstr p s w) as [[r s'] w'] eqn:E.
    pose proof (init_logger_inv _ _ _ _ _ _ _ _ Hinv E) as H'.
    split; [exact H'|exact (client_inv_one_handle _ _ H')].
  - intros env addr p Hfail.
    pose proof (init_logger_guarded_inv env addr p s w Hinv) as Hg.
    destruct (init_logger_guarded env addr p s w) as [[r s'] w'].
    exact (proj2 (proj2 Hg) Hfail).
  - intros Hm y Hy. cbv zeta.
    pose proof (sys_reachable_inv _ _ (quiet_inv s w Hinv Hm) Hy) as Hsys.
    destruct (sys_inv_observed y Hsys) as (H1 & H2 & H3).
    split; [exact H1|]. split; [exact H2|]. split.
    + intros i Hi. specialize (H3 i). rewrite Hi in H3. exact (H3 eq_refl).
    + intros i Hi. specialize (H3 i). rewrite Hi in H3. exact (H3 eq_refl).
Qed.

Lemma guarded_calls_run :
  exists y,
    sys_run guarded_calls (quiet configured_syslog configured_world) = Some y /\
    at_line (tasks y 0) = Returned true /\ at_line (tasks y 1) = Returned false /\
    holders (machine y) = [] /\
    udp (m_syslog (machine y)) = Some 1%nat /\ port (m_syslog (machine y)) = 514 /\
    pcbs (m_world (machine y)) = [1%nat].
Proof.
  eexists. split; [vm_compute; reflexivity|]. repeat split; reflexivity.
Qed.

Lemma handle_invariant_witness :
  reachable (configured_syslog, configured_world) /\
  client_inv configured_syslog configured_world /\
  initialized configured_syslog = true /\ pcbs configured_world = [1%nat] /\
  mutex configured_syslog <> None /\
  exists y,
    sys_run guarded_calls (quiet configured_syslog configured_world) = Some y /\
    at_line (tasks y 0) = Returned true /\ at_line (tasks y 1) = Returned false /\
    guard_free (machine y) /\
    client_inv (m_syslog (machine y)) (m_world (machine y)).
Proof.
  pose proof (handle_invariant _ _ configured_reachable) as (H1 & _ & _ & _ & H5).
  assert (Hm : mutex configured_syslog <> None) by (vm_compute; discriminate).
  split; [exact configured_reachable|]. split; [exact H1|].
  split; [reflexivity|]. split; [reflexivity|]. split; [exact Hm|].
  destruct guarded_calls_run as (y & Erun & Ea & Eb & Eh & _).
  exists y. split; [exact Erun|]. split; [exact Ea|]. split; [exact Eb|].
  assert (Hfree : guard_free (machine y)).
  { unfold guard_free. destruct (mutex (m_syslog (machine y))); [|exact I].
    now rewrite Eh. }
  split; [exact Hfree|].
  exact (proj1 (proj2 (H5 Hm y (sys_run_reachable _ _ _ Erun))) Hfree).
Defined.

(** C6. The claim fails on the code when two tasks make the first call
    of [init_logger] at the same time.  Each tests [s->mutex] (line 129)
    before the other has stored the mutex it creates (line 130), so each
    takes a mutex of its own and both run lines 142-174.  Both calls
    return true; the guard is free; the client is initialized with handle
    2; and two control blocks are live, the one of the first task never to
    be removed.  syslog.h describes the client as thread-safe with
    FreeRTOS mutex protection. *)
Theorem racing_first_calls_leave_two_handles :
  reachable (logger_syslog, mkWorld [] []) /\
  exists y,
    sys_run racing_first_calls (quiet logger_syslog (mkWorld [] [])) = Some y /\
    sys_reachable (quiet logger_syslog (mkWorld [] [])) y /\
    at_line (tasks y 0) = Returned true /\ at_line (tasks y 1) = Returned true /\
    guard_free (machine y) /\
    initialized (m_syslog (machine y)) = true /\
    udp (m_syslog (machine y)) = Some 2%nat /\
    pcbs (m_world (machine y)) = [2%nat; 1%nat] /\
    ~ client_inv (m_syslog (machine y)) (m_world (machine y)) /\
    ~ (length (pcbs (m_world (machine y))) <= 1)%nat.
Proof.
  split; [apply reach_boot|].
  assert (H : exists y,
             sys_run racing_first_calls (quiet logger_syslog (mkWorld [] [])) = Some y /\
             at_line (tasks y 0) = Returned true /\ at_line (tasks y 1) = Returned true /\
             mutex (m_syslog (machine y)) = Some 2%nat /\
             holders (machine y) = [(1%nat, 0%nat)] /\
             initialized (m_syslog (machine y)) = true /\
             udp (m_syslog (machine y)) = Some 2%nat /\
             pcbs (m_world (machine y)) = [2%nat; 1%nat]).
  { eexists. split; [vm_compute; reflexivity|]. repeat split; reflexivity. }
  destruct H as (y & Erun & Ea & Eb & Em & Eh & Ei & Eu & Ep).
  exists y. split; [exact Erun|]. split; [exact (sys_run_reachable _ _ _ Erun)|].
  split; [exact Ea|]. split; [exact Eb|]. split.
  { unfold guard_free. rewrite Em, Eh. reflexivity. }
  split; [exact Ei|]. split; [exact Eu|]. split; [exact Ep|]. split.
  - intros [_ Hp]. rewrite Ep, Eu in Hp. discriminate.
  - rewrite Ep. simpl. lia.
Qed.

(** * Line accumulator: termination and byte accounting *)

Lemma bodies_app (e1 e2 : list LogRecord) : bodies (e1 ++ e2) = bodies e1 ++ bodies e2.
Proof. unfold bodies. now rewrite map_app, concat_app. Qed.

Lemma bodies_one (r : LogRecord) : bodies [r] = rec_body r.
Proof. unfold bodies. simpl. apply app_nil_r. Qed.

Section LoopBounds.

Variable D : Type.
Variable emit : log_level_t -> option cstring -> cstring -> D -> bool * D.
Variable level : log_level_t.
Variable tag : option cstring.

Lemma do_emit_bodies lvl tg body (a : Acc D) :
  (length (bodies (emitted (do_emit emit lvl tg body a)))
   <= length (bodies (emitted a)) + length body)%nat.
Proof.
  unfold do_emit. destruct (all_ok a); [|lia].
  destruct (emit _ _ _ _). simpl.
  rewrite bodies_app, length_app, bodies_one. simpl. lia.
Qed.

Lemma flush_held lvl tg (a : Acc D) :
  let a' := clear_cur_tag (set_line_len0 (do_emit emit lvl tg (line_buf (pend a)) a)) in
  (held a' <= held a)%nat /\ line_buf (pend a') = [].
Proof.
  pose proof (do_emit_bodies lvl tg (line_buf (pend a)) a) as H.
  unfold held, line_len. simpl. split; [lia|reflexivity].
Qed.

Lemma attr_flush_held (a : Acc D) :
  (held (attr_flush emit level tag a) <= held a)%nat /\
  (line_len (pend (attr_flush emit level tag a)) <= line_len (pend a))%nat.
Proof.
  unfold attr_flush.
  destruct (0 <? line_len (pend a))%nat; [|lia].
  destruct (attr_changed level tag (pend a)); [|lia].
  destruct (flush_held (cur_level (pend a))
              (if nonempty (cur_tag (pend a)) then cur_tag (pend a) else tag_or_printf tag) a)
    as [H1 H2].
  split; [exact H1|]. unfold line_len at 1. rewrite H2. simpl. lia.
Qed.

Lemma attr_set_buf (a : Acc D) :
  line_buf (pend (attr_set level tag a)) = line_buf (pend a) /\
  emitted (attr_set level tag a) = emitted a.
Proof.
  unfold attr_set. destruct (line_len (pend a) =? 0)%nat; split; reflexivity.
Qed.

Lemma slice_loop_held fuel p chunk_len (a : Acc D) p2 cl2 a2 :
  slice_loop emit level tag fuel p chunk_len a = Some (p2, cl2, a2) ->
  (length (bodies (emitted a2)) + cl2 <= length (bodies (emitted a)) + chunk_len)%nat.
Proof.
  revert p chunk_len a.
  induction fuel as [|fuel IH]; intros p chunk_len a; rewrite slice_loop_unfold;
    destruct (Nat.ltb_spec LINE_MAX chunk_len) as [Hlt|Hge]; intros H; try discriminate.
  - injection H as _ <- <-. lia.
  - specialize (IH _ _ _ H).
    pose proof (do_emit_bodies level (tag_or_printf tag) (firstn LINE_MAX p) a) as He.
    rewrite length_firstn in He. lia.
  - injection H as _ <- <-. lia.
Qed.

Lemma make_room_held p chunk_len (a : Acc D) p2 cl2 a2 :
  make_room emit level tag p chunk_len a = Some (p2, cl2, a2) ->
  (held a2 + cl2 <= held a + chunk_len)%nat.
Proof.
  unfold make_room.
  destruct (LINE_MAX - line_len (pend a) <? chunk_len)%nat; intros H.
  - pose proof (slice_loop_held _ _ _ _ _ _ _ H) as Hs.
    match type of H with
    | slice_loop _ _ _ _ _ _ ?x = _ =>
        destruct (slice_loop_total D emit level tag chunk_len p chunk_len x (le_n _))
          as (p2' & cl2' & a2' & E & _ & _ & _ & Hp & _)
    end.
    rewrite E in H. injection H as -> -> ->.
    unfold held, line_len in *. rewrite Hp.
    destruct (0 <? length (line_buf (pend a)))%nat eqn:Hpos.
    + pose proof (do_emit_bodies (cur_level (pend a)) (cur_tag (pend a))
                    (line_buf (pend a)) a) as He.
      simpl in *. lia.
    + lia.
  - injection H as _ <- <-. lia.
Qed.

Lemma end_of_line_held (a : Acc D) :
  (held (end_of_line emit a) <= held a)%nat /\ line_buf (pend (end_of_line emit a)) = [].
Proof. apply flush_held. Qed.

(** The loop returns, keeps the pending line within the buffer, and holds
    no more bytes than it held before plus the text it was given. *)
Lemma line_loop_total fuel p (a : Acc D) :
  (line_len (pend a) <= LINE_MAX)%nat -> (length p <= fuel)%nat ->
  exists r,
    line_loop emit level tag fuel p a = Some r /\
    (line_len (pend r) <= LINE_MAX)%nat /\
    (held r <= held a + length p)%nat.
Proof.
  revert p a.
  induction fuel as [|fuel IH]; intros [|c p] a Hl Hf;
    try (exists a; rewrite line_loop_nil; repeat split; auto; lia).
  { simpl in Hf. lia. }
  rewrite line_loop_step.
  destruct (attr_flush_held a) as [Hh1 Hl1].
  destruct (attr_set_buf (attr_flush emit level tag a)) as [Hb2 He2].
  set (a1 := attr_set level tag (attr_flush emit level tag a)) in *.
  assert (Hl2 : (line_len (pend a1) <= LINE_MAX)%nat).
  { unfold line_len in *. rewrite Hb2. lia. }
  assert (Hh2 : (held a1 <= held a)%nat).
  { unfold held, line_len in *. rewrite Hb2, He2. lia. }
  set (cl := match strpbrk (c :: p) with Some i => i | None => length (c :: p) end).
  destruct (make_room_total D emit level tag (c :: p) cl a1 Hl2)
    as (p2 & cl2 & a2 & E & Hs & Hfit & Hle).
  pose proof (make_room_held _ _ _ _ _ _ E) as Hh3.
  rewrite E. cbv zeta.
  set (a3 := append_chunk (firstn cl2 p2) a2).
  assert (Hb3 : line_buf (pend a3) = line_buf (pend a2) ++ firstn cl2 p2) by reflexivity.
  assert (He3 : emitted a3 = emitted a2) by reflexivity.
  assert (Hl3 : (line_len (pend a3) <= LINE_MAX)%nat).
  { unfold line_len in *. rewrite Hb3, length_app, length_firstn. lia. }
  assert (Hh4 : (held a3 <= held a + cl)%nat).
  { unfold held, line_len in *. rewrite Hb3, He3, length_app, length_firstn. lia. }
  rewrite Hs. subst cl.
  destruct (strpbrk (c :: p)) as [i|] eqn:Hnl.
  - destruct (strpbrk_bound _ _ Hnl) as (t & rest & Hsk & _ & Hi & _).
    rewrite Hsk.
    pose proof (skip_terminator_length t rest) as Hst.
    assert (Hrest : (i + S (length rest) = length (c :: p))%nat).
    { pose proof (length_skipn i (c :: p)) as Hls. rewrite Hsk in Hls.
      simpl length in *. lia. }
    destruct (end_of_line_held a3) as [Hh5 Hb5].
    destruct (IH (skip_terminator (t :: rest)) (end_of_line emit a3)) as (r & Er & Hlr & Hhr).
    + unfold line_len. rewrite Hb5. simpl. lia.
    + simpl in Hf, Hrest. lia.
    + exists r. repeat split; auto. lia.
  - rewrite skipn_all. exists a3. rewrite line_loop_nil. repeat split; auto.
Qed.

End LoopBounds.

(** * Line accumulator: one call *)

Section OneCall.

Variable D : Type.
Variable emit : log_level_t -> option cstring -> cstring -> D -> bool * D.

Lemma create_line_mutex_fields env l :
  line_buf (create_line_mutex env l) = line_buf l /\
  cur_level (create_line_mutex env l) = cur_level l /\
  cur_tag (create_line_mutex env l) = cur_tag l.
Proof. unfold create_line_mutex. destruct (line_mutex l); auto. Qed.

(** With the guard obtained (or absent) a call is the loop on the
    truncated text. *)
Lemma logger_printf_line_loop env level tag text l d :
  line_take_ok env = true ->
  logger_printf_line emit env level tag (Rendered text) l d =
  option_map (fun a => (all_ok a, pend a, disp a, emitted a))
    (line_loop emit level tag (length (vsnprintf TMP_SIZE text)) (vsnprintf TMP_SIZE text)
       (mkAcc true (create_line_mutex env l) d [])).
Proof.
  intros Ht. unfold logger_printf_line. rewrite Ht. simpl negb.
  now rewrite andb_false_r.
Qed.

Lemma logger_printf_line_total env level tag format l d :
  (line_len l <= LINE_MAX)%nat ->
  exists ok l' d' rs,
    logger_printf_line emit env level tag format l d = Some (ok, l', d', rs) /\
    (line_len l' <= LINE_MAX)%nat /\
    (length (bodies rs) + line_len l' <= line_len l + (TMP_SIZE - 1))%nat.
Proof.
  intros Hl.
  assert (Hc : line_len (create_line_mutex env l) = line_len l).
  { unfold line_len. now rewrite (proj1 (create_line_mutex_fields env l)). }
  assert (Hb : length (bodies []) = 0%nat) by reflexivity.
  unfold logger_printf_line.
  destruct format as [| |text].
  - exists false, l, d, []. repeat split; auto. lia.
  - exists false, (create_line_mutex env l), d, []. repeat split; lia.
  - destruct (is_some _ && negb _).
    + exists false, (create_line_mutex env l), d, []. repeat split; lia.
    + destruct (line_loop_total D emit level tag (length (vsnprintf TMP_SIZE text))
                  (vsnprintf TMP_SIZE text) (mkAcc true (create_line_mutex env l) d []))
        as (r & E & Hlr & Hh);
        [change (line_len (create_line_mutex env l) <= LINE_MAX)%nat; lia|lia|].
      rewrite E. exists (all_ok r), (pend r), (disp r), (emitted r).
      repeat split; auto.
      pose proof (vsnprintf_length TMP_SIZE text).
      unfold held in Hh.
      change (length (bodies (emitted r)) + line_len (pend r)
              <= 0 + line_len (create_line_mutex env l)
                 + length (vsnprintf TMP_SIZE text))%nat in Hh.
      lia.
Qed.

End OneCall.

Lemma line_init_fits : (line_len line_init <= LINE_MAX)%nat.
Proof. apply Nat.le_0_l. Qed.

(** ** Records handed over before a call *)

Section Frame.

Variable D : Type.
Variable emit : log_level_t -> option cstring -> cstring -> D -> bool * D.
Variable level : log_level_t.
Variable tag : option cstring.

Lemma do_emit_prepend e lvl tg body (a : Acc D) :
  do_emit emit lvl tg body (prepend e a) = prepend e (do_emit emit lvl tg body a).
Proof.
  destruct a as [ok l d em]. unfold do_emit, prepend. simpl.
  destruct ok; [|reflexivity].
  destruct (emit _ _ _ _). simpl. now rewrite app_assoc.
Qed.

Lemma attr_flush_prepend e (a : Acc D) :
  attr_flush emit level tag (prepend e a) = prepend e (attr_flush emit level tag a).
Proof.
  unfold attr_flush. simpl pend.
  destruct (0 <? line_len (pend a))%nat; [|reflexivity].
  destruct (attr_changed level tag (pend a)); [|reflexivity].
  now rewrite do_emit_prepend.
Qed.

Lemma attr_set_prepend e (a : Acc D) :
  attr_set level tag (prepend e a) = prepend e (attr_set level tag a).
Proof.
  unfold attr_set. simpl pend.
  destruct (line_len (pend a) =? 0)%nat; reflexivity.
Qed.

Lemma slice_loop_prepend e fuel p chunk_len (a : Acc D) :
  slice_loop emit level tag fuel p chunk_len (prepend e a) =
  option_map (fun '(p2, cl2, a2) => (p2, cl2, prepend e a2))
             (slice_loop emit level tag fuel p chunk_len a).
Proof.
  revert p chunk_len a.
  induction fuel as [|fuel IH]; intros p chunk_len a;
    rewrite (slice_loop_unfold D emit level tag _ p chunk_len (prepend e a)),
            (slice_loop_unfold D emit level tag _ p chunk_len a);
    destruct (LINE_MAX <? chunk_len)%nat; try reflexivity.
  now rewrite do_emit_prepend, IH.
Qed.

Lemma make_room_prepend e p chunk_len (a : Acc D) :
  make_room emit level tag p chunk_len (prepend e a) =
  option_map (fun '(p2, cl2, a2) => (p2, cl2, prepend e a2))
             (make_room emit level tag p chunk_len a).
Proof.
  unfold make_room. simpl pend.
  destruct (LINE_MAX - line_len (pend a) <? chunk_len)%nat; [|reflexivity].
  destruct (0 <? line_len (pend a))%nat.
  - rewrite do_emit_prepend.
    change (set_line_len0 (prepend e ?x)) with (prepend e (set_line_len0 x)).
    apply slice_loop_prepend.
  - apply slice_loop_prepend.
Qed.

Lemma end_of_line_prepend e (a : Acc D) :
  end_of_line emit (prepend e a) = prepend e (end_of_line emit a).
Proof. unfold end_of_line. simpl pend. now rewrite do_emit_prepend. Qed.

(** The records handed over before a call do not influence it. *)
Lemma line_loop_prepend e fuel p (a : Acc D) :
  line_loop emit level tag fuel p (prepend e a) =
  option_map (prepend e) (line_loop emit level tag fuel p a).
Proof.
  revert p a.
  induction fuel as [|fuel IH]; intros [|c p] a; try reflexivity.
  rewrite !line_loop_step, attr_flush_prepend, attr_set_prepend, make_room_prepend.
  generalize (strpbrk (c :: p)). intros nl.
  destruct (make_room _ _ _ _ _ _) as [[[p2 cl2] a2]|]; [|reflexivity].
  simpl option_map. cbv beta iota zeta.
  change (append_chunk (firstn cl2 p2) (prepend e a2))
    with (prepend e (append_chunk (firstn cl2 p2) a2)).
  destruct nl.
  - now rewrite end_of_line_prepend, IH.
  - now rewrite IH.
Qed.

End Frame.

(** ** The forced flush on a change of attributes *)

Section AttributeChange.

Variable D : Type.
Variable emit : log_level_t -> option cstring -> cstring -> D -> bool * D.
Variable level : log_level_t.
Variable tag : option cstring.

Lemma attr_flush_idem (a : Acc D) :
  attr_flush emit level tag (attr_flush emit level tag a) = attr_flush emit level tag a.
Proof.
  unfold attr_flush.
  destruct (0 <? line_len (pend a))%nat eqn:Hpos.
  - destruct (attr_changed level tag (pend a)) eqn:Hch.
    + reflexivity.
    + now rewrite Hpos, Hch.
  - now rewrite Hpos.
Qed.

Lemma line_loop_attr_flush fuel p (a : Acc D) :
  p <> [] ->
  line_loop emit level tag fuel p a =
  line_loop emit level tag fuel p (attr_flush emit level tag a).
Proof.
  intros Hp. destruct p as [|c p]; [congruence|].
  destruct fuel as [|fuel]; [reflexivity|].
  now rewrite !line_loop_step, attr_flush_idem.
Qed.

End AttributeChange.

Lemma cstring_eqb_eq (a b : cstring) : cstring_eqb a b = true <-> a = b.
Proof.
  unfold cstring_eqb. destruct (list_eq_dec ascii_dec a b); split; congruence.
Qed.

Lemma nonempty_iff (s : cstring) : nonempty s = true <-> cstr s <> [].
Proof.
  unfold nonempty. destruct (cstr s); split; congruence.
Qed.

(** [strncmp] over [n] bytes decides equality of the whole strings when
    one of them is shorter than [n]. *)
Lemma strncmp_ne_iff (a b : cstring) (n : nat) :
  (length (cstr a) < n)%nat ->
  strncmp_ne a b n = true <-> cstr b <> cstr a.
Proof.
  intros Ha. unfold strncmp_ne. rewrite negb_true_iff.
  rewrite (firstn_all2 (n := n) (cstr a)) by lia.
  split.
  - intros H E. rewrite E in H.
    rewrite (firstn_all2 (n := n) (cstr a)) in H by lia.
    rewrite (proj2 (cstring_eqb_eq _ _) eq_refl) in H. discriminate.
  - intros H. destruct (cstring_eqb (cstr a) (firstn n (cstr b))) eqn:E; [|reflexivity].
    apply cstring_eqb_eq in E. exfalso. apply H.
    assert (Hl : (length (firstn n (cstr b)) < n)%nat) by (rewrite <- E; exact Ha).
    rewrite length_firstn in Hl.
    rewrite E. symmetry. apply firstn_all2. lia.
Qed.

(** Line 284 in terms of the call and the pending line: the level is
    another one, or the tag is not NULL, the pending tag is not empty and
    the two are different strings. *)
Lemma attr_changed_iff (level : log_level_t) (tag : option cstring) (l : PendingLine) :
  (length (cstr (cur_tag l)) < TAG_SIZE)%nat ->
  attr_changed level tag l = true <->
  (level <> cur_level l \/
   exists t, tag = Some t /\ cstr (cur_tag l) <> [] /\ cstr t <> cstr (cur_tag l)).
Proof.
  intros Hlen. unfold attr_changed. rewrite orb_true_iff, negb_true_iff, Z.eqb_neq.
  split.
  - intros [H|H]; [right|left; exact H].
    destruct tag as [t|]; [|discriminate].
    apply andb_true_iff in H. destruct H as [H1 H2].
    exists t. split; [reflexivity|]. split.
    + now apply nonempty_iff.
    + now apply (strncmp_ne_iff (cur_tag l) t TAG_SIZE Hlen).
  - intros [H|(t & -> & H1 & H2)]; [right; exact H|left].
    apply andb_true_iff. split.
    + now apply nonempty_iff.
    + now apply (strncmp_ne_iff (cur_tag l) t TAG_SIZE Hlen).
Qed.

Section Refused.

Variable D : Type.
Variable emit : log_level_t -> option cstring -> cstring -> D -> bool * D.
Variable level : log_level_t.
Variable tag : option cstring.

(** Once a record was refused nothing more is handed over: the loop
    leaves the records and the dispatcher as they are. *)
Lemma line_loop_refused fuel p (a r : Acc D) :
  line_loop emit level tag fuel p a = Some r ->
  all_ok a = false ->
  all_ok r = false /\ emitted r = emitted a /\ disp r = disp a.
Proof.
  apply (line_loop_rel D emit level tag
           (fun a b => all_ok a = false ->
                       all_ok b = false /\ emitted b = emitted a /\ disp b = disp a)).
  - auto.
  - intros x y z H1 H2 Hx. destruct (H1 Hx) as (Hy & E1 & E2).
    destruct (H2 Hy) as (Hz & E3 & E4). repeat split; congruence.
  - intros lvl tg body x Hx. unfold do_emit. rewrite Hx. auto.
  - intros x l _ Hx. simpl. auto.
Qed.

End Refused.

(** C8, as the code has it.  The pending buffer is non-empty, the call
    obtains the accumulator guard and brings a non-empty text, and its
    level differs from the pending level, or its tag is not NULL and
    differs from a pending tag that is not empty.  Then the first record
    of the call is the pending buffer as it was, with the pending level
    and the pending tag (the tag of the call when the pending tag is
    empty).  It leaves before any byte of the new text is taken: when
    [logger_output] accepts it, the rest of the call is the call on the
    emptied buffer; when [logger_output] refuses it, no other record
    follows and the call returns false.  [cur_tag] is an array of 48
    bytes, so the pending tag is shorter than that. *)
Theorem attribute_change_flushes_pending (D : Type)
        (emit : log_level_t -> option cstring -> cstring -> D -> bool * D)
        env level tag text l d :
  (0 < line_len l <= LINE_MAX)%nat ->
  (length (cstr (cur_tag l)) < TAG_SIZE)%nat ->
  line_take_ok env = true ->
  cstr (firstn 255 text) <> [] ->
  (level <> cur_level l \/
   exists t, tag = Some t /\ cstr (cur_tag l) <> [] /\ cstr t <> cstr (cur_tag l)) ->
  let flushed :=
    mkRec (cur_level l)
          (if nonempty (cur_tag l) then cur_tag l else tag_or_printf tag)
          (line_buf l) in
  let answer := emit (rec_level flushed) (Some (rec_tag flushed)) (rec_body flushed) d in
  let emptied := mkLine [] (cur_level l) [] (line_mutex l) in
  exists ok l' d' rs,
    logger_printf_line emit env level tag (Rendered text) l d =
    Some (ok, l', d', flushed :: rs) /\
    (fst answer = true ->
     logger_printf_line emit env level tag (Rendered text) emptied (snd answer) =
     Some (ok, l', d', rs)) /\
    (fst answer = false -> ok = false /\ d' = snd answer /\ rs = []).
Proof.
  intros [Hpos Hl] Htag Ht Hne Hdiff flushed answer emptied.
  apply (attr_changed_iff level tag l Htag) in Hdiff.
  change (cstr (firstn 255 text)) with (vsnprintf TMP_SIZE text) in Hne.
  rewrite !(logger_printf_line_loop D emit env level tag text _ _ Ht).
  destruct (create_line_mutex_fields env l) as (Hb & Hlv & Htg).
  assert (Hmx : create_line_mutex env emptied =
                mkLine [] (cur_level l) [] (line_mutex (create_line_mutex env l))).
  { unfold emptied, create_line_mutex. simpl.
    destruct (line_mutex l) eqn:Em; simpl; now rewrite ?Em. }
  rewrite Hmx.
  set (l0 := create_line_mutex env l) in *.
  rewrite (line_loop_attr_flush D emit level tag _ _ _ Hne).
  assert (Hl0 : line_len l0 = line_len l) by (unfold line_len; now rewrite Hb).
  assert (Hch0 : attr_changed level tag l0 = true).
  { unfold attr_changed in *. now rewrite Hlv, Htg. }
  assert (Hfl : attr_flush emit level tag (mkAcc true l0 d []) =
                mkAcc (fst answer) (mkLine [] (cur_level l) [] (line_mutex l0))
                      (snd answer) [flushed]).
  { unfold attr_flush. simpl pend. rewrite Hch0.
    destruct (Nat.ltb_spec 0 (line_len l0)); [|lia].
    unfold do_emit. simpl all_ok. cbv iota. simpl disp. simpl emitted.
    rewrite Hb, Hlv, Htg. fold flushed.
    change (emit (cur_level l)
                 (Some (if nonempty (cur_tag l) then cur_tag l else tag_or_printf tag))
                 (line_buf l) d) with answer.
    destruct answer as [r1 d1]. unfold clear_cur_tag, set_line_len0, with_pend. simpl.
    now rewrite Hlv. }
  rewrite Hfl.
  set (tmp := vsnprintf TMP_SIZE text) in *.
  set (e0 := mkLine [] (cur_level l) [] (line_mutex l0)) in *.
  destruct (fst answer) eqn:Hans.
  - change (mkAcc true e0 (snd answer) [flushed])
      with (prepend [flushed] (mkAcc true e0 (snd answer) [])).
    rewrite line_loop_prepend.
    destruct (line_loop_total D emit level tag (length tmp) tmp
                (mkAcc true e0 (snd answer) [])) as (r & E & _ & _);
      [unfold line_len; simpl; lia|lia|].
    rewrite E. simpl.
    exists (all_ok r), (pend r), (disp r), (emitted r).
    split; [reflexivity|]. split; [reflexivity|discriminate].
  - destruct (line_loop_total D emit level tag (length tmp) tmp
                (mkAcc false e0 (snd answer) [flushed])) as (r & E & _ & _);
      [unfold line_len; simpl; lia|lia|].
    rewrite E. simpl.
    destruct (line_loop_refused D emit level tag _ _ _ _ E eq_refl) as (Hok & Hem & Hd).
    simpl in Hem, Hd.
    exists (all_ok r), (pend r), (disp r), []. rewrite Hem.
    split; [reflexivity|]. split; [discriminate|]. intros _. auto.
Qed.

(** The accumulator after [logLine(INFO, "A", "partial")] meets a call
    with another tag ("B", level INFO), a call with another level (WARNING,
    tag "A"), and the call of the specification's example (WARNING, "B"):
    each time "partial" leaves first, as a record of level INFO and tag
    "A", and the text of the call is what stays pending. *)
Lemma attribute_change_flushes_pending_witness :
  log_line line_env LOG_LEVEL_INFO (Some (txt "A")) (Rendered (txt "partial"))
           line_init boot_client
  = Some (true, pending_partial, boot_client, []) /\
  (exists ok l' d' rs,
      log_line line_env LOG_LEVEL_INFO (Some (txt "B")) (Rendered (txt "x"))
               pending_partial boot_client
      = Some (ok, l', d', mkRec LOG_LEVEL_INFO (txt "A") (txt "partial") :: rs)) /\
  (exists ok l' d' rs,
      log_line line_env LOG_LEVEL_WARNING (Some (txt "A")) (Rendered (txt "x"))
               pending_partial boot_client
      = Some (ok, l', d', mkRec LOG_LEVEL_INFO (txt "A") (txt "partial") :: rs)) /\
  (exists d',
      log_line line_env LOG_LEVEL_WARNING (Some (txt "B")) (Rendered (txt "x"))
               pending_partial boot_client
      = Some (true, mkLine (txt "x") LOG_LEVEL_WARNING (txt "B") (Some 2%nat), d',
              [mkRec LOG_LEVEL_INFO (txt "A") (txt "partial")])) /\
  (exists d',
      log_line line_env LOG_LEVEL_INFO (Some (txt "B")) (Rendered (txt "x"))
               pending_partial boot_client
      = Some (true, mkLine (txt "x") LOG_LEVEL_INFO (txt "B") (Some 2%nat), d',
              [mkRec LOG_LEVEL_INFO (txt "A") (txt "partial")])).
Proof.
  assert (Hfit : (0 < line_len pending_partial <= LINE_MAX)%nat).
  { rewrite LINE_MAX_val. unfold line_len. simpl. lia. }
  assert (Htag : (length (cstr (cur_tag pending_partial)) < TAG_SIZE)%nat).
  { apply Nat.ltb_lt. reflexivity. }
  assert (Hx : cstr (firstn 255 (txt "x")) <> []) by (vm_compute; discriminate).
  split; [reflexivity|]. split; [|split; [|split]].
  - destruct (attribute_change_flushes_pending Client client_emit line_env LOG_LEVEL_INFO
                (Some (txt "B")) (txt "x") pending_partial boot_client Hfit Htag eq_refl Hx)
      as (ok & l' & d' & rs & E & _).
    + right. exists (txt "B"). split; [reflexivity|]. split; vm_compute; discriminate.
    + exists ok, l', d', rs. exact E.
  - destruct (attribute_change_flushes_pending Client client_emit line_env LOG_LEVEL_WARNING
                (Some (txt "A")) (txt "x") pending_partial boot_client Hfit Htag eq_refl Hx)
      as (ok & l' & d' & rs & E & _).
    + left. vm_compute. discriminate.
    + exists ok, l', d', rs. exact E.
  - eexists. vm_compute. reflexivity.
  - eexists. vm_compute. reflexivity.
Defined.

(** C8 as stated fails.  A pending line whose tag is the empty string is
    not flushed when a call with tag "B" and the same level arrives; a
    call with a NULL tag and the same level does not flush a line pending
    under tag "A"; and a call whose text is empty flushes nothing even
    when level and tag both differ.  In the first two cases the new text is
    appended to the pending one. *)
Lemma attribute_change_not_always_flushed :
  log_lines client_emit line_env
    [(LOG_LEVEL_INFO, Some (txt ""), txt "partial"); (LOG_LEVEL_INFO, Some (txt "B"), txt "x")]
    line_init boot_client
  = Some (true, mkLine (txt "partialx") LOG_LEVEL_INFO (txt "") (Some 2%nat), boot_client, []) /\
  log_line line_env LOG_LEVEL_INFO None (Rendered (txt "x")) pending_partial boot_client
  = Some (true, mkLine (txt "partialx") LOG_LEVEL_INFO (txt "A") (Some 2%nat), boot_client, []) /\
  log_line line_env LOG_LEVEL_WARNING (Some (txt "B")) (Rendered (txt "")) pending_partial
           boot_client
  = Some (true, pending_partial, boot_client, []).
Proof.
  repeat split; reflexivity.
Qed.

(** ** A text without terminator *)

Lemma strpbrk_firstn_none (n : nat) (p : cstring) :
  strpbrk p = None -> strpbrk (firstn n p) = None.
Proof.
  revert n. induction p as [|c p IH]; intros [|n] H; simpl in *; auto.
  destruct (is_term c); [discriminate|].
  destruct (strpbrk p); [discriminate|]. now rewrite IH.
Qed.

Lemma strpbrk_cstr_none (p : list ascii) :
  strpbrk p = None -> strpbrk (cstr p) = None.
Proof.
  induction p as [|c p IH]; intros H; simpl in *; auto.
  destruct (is_term c) eqn:Hc; [discriminate|].
  destruct (strpbrk p); [discriminate|].
  destruct (is_nul c); simpl; [reflexivity|]. now rewrite Hc, IH.
Qed.

Lemma Forall_firstn_keep (A : Type) (P : A -> Prop) (n : nat) (l : list A) :
  Forall P l -> Forall P (firstn n l).
Proof.
  revert n. induction l as [|x l IH]; intros [|n] H; simpl; auto.
  inversion H; subst. constructor; auto.
Qed.

Section NoTerminator.

Variable D : Type.
Variable emit : log_level_t -> option cstring -> cstring -> D -> bool * D.
Variable level : log_level_t.
Variable tag : option cstring.

Lemma slice_loop_fits fuel p chunk_len (a : Acc D) :
  (chunk_len <= LINE_MAX)%nat ->
  slice_loop emit level tag fuel p chunk_len a = Some (p, chunk_len, a).
Proof.
  intros H. rewrite slice_loop_unfold.
  destruct (Nat.ltb_spec LINE_MAX chunk_len); [lia|reflexivity].
Qed.

Lemma attr_set_all_ok (a : Acc D) : all_ok (attr_set level tag a) = all_ok a.
Proof. unfold attr_set. destruct (line_len (pend a) =? 0)%nat; reflexivity. Qed.

End NoTerminator.

Section PlainChunk.

Variable D : Type.
Variable emit : log_level_t -> option cstring -> cstring -> D -> bool * D.
Variable level : log_level_t.
Variable tag : option cstring.

(** One turn of the loop on a text without terminator that is no longer
    than the line buffer: the turn is the last one, no slice is cut, and
    the pending line leaves first when the attributes changed (line 284)
    or when the text does not fit behind it (line 300). *)
Lemma line_loop_plain fuel (tmp : cstring) (l0 : PendingLine) (d : D) :
  tmp <> [] -> strpbrk tmp = None -> (length tmp <= LINE_MAX)%nat ->
  (line_len l0 <= LINE_MAX)%nat ->
  line_loop emit level tag (S fuel) tmp (mkAcc true l0 d []) =
  Some
    (if (0 <? line_len l0)%nat then
       if attr_changed level tag l0 then
         let tg := if nonempty (cur_tag l0) then cur_tag l0 else tag_or_printf tag in
         mkAcc (fst (emit (cur_level l0) (Some tg) (line_buf l0) d))
               (mkLine tmp level (strncpy (tag_or_printf tag) (TAG_SIZE - 1)) (line_mutex l0))
               (snd (emit (cur_level l0) (Some tg) (line_buf l0) d))
               [mkRec (cur_level l0) tg (line_buf l0)]
       else if (LINE_MAX - line_len l0 <? length tmp)%nat then
         mkAcc (fst (emit (cur_level l0) (Some (cur_tag l0)) (line_buf l0) d))
               (mkLine tmp (cur_level l0) (cur_tag l0) (line_mutex l0))
               (snd (emit (cur_level l0) (Some (cur_tag l0)) (line_buf l0) d))
               [mkRec (cur_level l0) (cur_tag l0) (line_buf l0)]
       else
         mkAcc true (mkLine (line_buf l0 ++ tmp) (cur_level l0) (cur_tag l0) (line_mutex l0))
               d []
     else
       mkAcc true
             (mkLine tmp level (strncpy (tag_or_printf tag) (TAG_SIZE - 1)) (line_mutex l0))
             d []).
Proof.
  intros Hne Hnt Hlen Hl. pose proof LINE_MAX_val as HM.
  destruct tmp as [|c p]; [congruence|].
  rewrite line_loop_step, Hnt.
  unfold attr_flush. cbn [pend].
  destruct (Nat.ltb_spec 0 (line_len l0)) as [Hpos|Hz].
  - destruct (attr_changed level tag l0) eqn:Hch.
    + unfold do_emit. cbn [all_ok disp emitted pend].
      destruct (emit _ _ _ d) as [r1 d1].
      unfold clear_cur_tag, set_line_len0, with_pend, attr_set, line_len.
      cbn [pend line_buf all_ok disp emitted cur_level cur_tag line_mutex fst snd].
      change (length (@nil ascii) =? 0)%nat with true. cbv iota.
      cbn [pend line_buf all_ok disp emitted cur_level cur_tag line_mutex fst snd].
      rewrite make_room_fits by (unfold line_len; simpl; simpl in Hlen; lia).
      cbv zeta. rewrite firstn_all, skipn_all, line_loop_nil. reflexivity.
    + unfold attr_set. cbn [pend].
      destruct (Nat.eqb_spec (line_len l0) 0) as [?|_]; [lia|].
      unfold make_room. cbn [pend].
      destruct (Nat.ltb_spec 0 (line_len l0)) as [_|?]; [|lia].
      destruct (LINE_MAX - line_len l0 <? length (c :: p))%nat.
      * rewrite (slice_loop_fits D emit level tag) by exact Hlen.
        unfold do_emit. cbn [all_ok disp emitted pend].
        destruct (emit _ _ _ d) as [r1 d1].
        cbv zeta. rewrite firstn_all, skipn_all, line_loop_nil.
        unfold append_chunk, set_line_len0, with_pend.
        cbn [pend line_buf all_ok disp emitted cur_level cur_tag line_mutex fst snd app].
        reflexivity.
      * cbv zeta. rewrite firstn_all, skipn_all, line_loop_nil.
        destruct l0; reflexivity.
  - assert (Hb : line_buf l0 = []).
    { unfold line_len in Hz. destruct (line_buf l0); [reflexivity|simpl in Hz; lia]. }
    unfold attr_set. cbn [pend].
    destruct (Nat.eqb_spec (line_len l0) 0) as [_|?]; [|lia].
    unfold with_pend. cbn [pend all_ok disp emitted].
    rewrite make_room_fits by (unfold line_len; cbn [pend line_buf]; rewrite Hb; simpl; simpl in Hlen; lia).
    cbv zeta. rewrite firstn_all, skipn_all, line_loop_nil.
    unfold append_chunk, with_pend.
    cbn [pend line_buf all_ok disp emitted cur_level cur_tag line_mutex].
    rewrite Hb. reflexivity.
Qed.

End PlainChunk.

(** C3, as the code has it.  A text longer than the line buffer and
    without terminator is cut to the 255 bytes that fit the temporary
    buffer ([kept]); 255 is less than the capacity, so no slice is cut.
    The call hands over at most one record, of at most capacity-1 bytes,
    and it is the line that was pending, whole and before any kept byte is
    taken: with the pending level and tag when the attributes of the call
    differ, the kept bytes then pending under the attributes of the call;
    with the pending level and tag when the attributes are the same but
    the kept bytes do not fit behind the pending line, the kept bytes then
    pending under the same attributes.  In every other case nothing is
    handed over and the kept bytes are appended to the pending line.  The
    pending line stays within the buffer.  The attributes differ when the
    level is another one, or the tag is not NULL and differs from a
    pending tag that is not empty (line 284); [cur_tag] is an array of 48
    bytes, so the pending tag is shorter than that. *)
Theorem long_text_is_cut_not_sliced (D : Type)
        (emit : log_level_t -> option cstring -> cstring -> D -> bool * D)
        env level tag text l d :
  (line_len l <= LINE_MAX)%nat ->
  (length (cstr (cur_tag l)) < TAG_SIZE)%nat ->
  line_take_ok env = true ->
  (SYSLOG_MAX_MESSAGE_SIZE < length text)%nat ->
  strpbrk text = None ->
  let kept := cstr (firstn 255 text) in
  let differ :=
    level <> cur_level l \/
    exists t, tag = Some t /\ cstr (cur_tag l) <> [] /\ cstr t <> cstr (cur_tag l) in
  let mtx := line_mutex (create_line_mutex env l) in
  (length kept <= 255)%nat /\
  (Forall (fun c => is_nul c = false) text -> kept = firstn 255 text) /\
  exists ok l' d' rs,
    logger_printf_line emit env level tag (Rendered text) l d = Some (ok, l', d', rs) /\
    (line_len l' <= LINE_MAX)%nat /\
    (length rs <= 1)%nat /\
    Forall (fun r => (length (rec_body r) <= LINE_MAX)%nat) rs /\
    bodies rs ++ line_buf l' = line_buf l ++ kept /\
    (line_buf l <> [] -> kept <> [] -> differ ->
     let tg := if nonempty (cur_tag l) then cur_tag l else tag_or_printf tag in
     rs = [mkRec (cur_level l) tg (line_buf l)] /\
     l' = mkLine kept level (strncpy (tag_or_printf tag) (TAG_SIZE - 1)) mtx /\
     (ok, d') = emit (cur_level l) (Some tg) (line_buf l) d) /\
    (line_buf l <> [] -> kept <> [] -> ~ differ ->
     (LINE_MAX < line_len l + length kept)%nat ->
     rs = [mkRec (cur_level l) (cur_tag l) (line_buf l)] /\
     l' = mkLine kept (cur_level l) (cur_tag l) mtx /\
     (ok, d') = emit (cur_level l) (Some (cur_tag l)) (line_buf l) d) /\
    (line_buf l = [] \/ kept = [] \/
     (~ differ /\ (line_len l + length kept <= LINE_MAX)%nat) ->
     rs = [] /\ ok = true /\ d' = d /\ line_buf l' = line_buf l ++ kept).
Proof.
  intros Hl Htag Ht Hlong Hnt kept differ mtx.
  pose proof LINE_MAX_val as HM.
  assert (Hlen : (length kept <= 255)%nat) by apply (vsnprintf_length TMP_SIZE text).
  split; [exact Hlen|]. split.
  { intros Hf. apply cstr_no_nul. apply (Forall_firstn_keep _ _ 255 _ Hf). }
  assert (Hnt' : strpbrk kept = None).
  { apply strpbrk_cstr_none, strpbrk_firstn_none, Hnt. }
  pose proof (attr_changed_iff level tag l Htag) as Hiff. fold differ in Hiff.
  rewrite (logger_printf_line_loop D emit env level tag text l d Ht).
  change (vsnprintf TMP_SIZE text) with kept.
  destruct (create_line_mutex_fields env l) as (Hb & Hlv & Htg).
  assert (Hch : attr_changed level tag (create_line_mutex env l) = attr_changed level tag l).
  { unfold attr_changed. now rewrite Hlv, Htg. }
  assert (Hll : line_len (create_line_mutex env l) = line_len l).
  { unfold line_len. now rewrite Hb. }
  assert (Hempty : line_len l = 0%nat <-> line_buf l = []).
  { unfold line_len. destruct (line_buf l); simpl; split; congruence || lia. }
  clearbody kept.
  destruct (length kept) as [|n] eqn:En.
  - assert (Ek : kept = []) by (destruct kept; [reflexivity|discriminate]).
    rewrite Ek in *.
    rewrite line_loop_nil. cbn [option_map all_ok pend disp emitted].
    exists true, (create_line_mutex env l), d, [].
    split; [reflexivity|]. rewrite Hll, Hb, app_nil_r.
    repeat split; auto; try congruence.
  - assert (Hne : kept <> []) by (intros E; rewrite E in En; discriminate).
    rewrite (line_loop_plain D emit level tag n kept (create_line_mutex env l) d Hne Hnt')
      by lia.
    rewrite Hch, Hll, Hb, Hlv, Htg. fold mtx.
    destruct (Nat.ltb_spec 0 (line_len l)) as [Hpos|Hz].
    + assert (Hbn : line_buf l <> []) by (intros E; apply Hempty in E; lia).
      destruct (attr_changed level tag l) eqn:Hc.
      * assert (Hd : differ) by (apply Hiff; reflexivity).
        cbn [option_map all_ok pend disp emitted]. cbv zeta.
        eexists _, _, _, _. split; [reflexivity|].
        unfold line_len at 1. cbn [line_buf length]. rewrite bodies_one.
        cbn [rec_body].
        split; [lia|]. split; [auto|]. split; [constructor; [exact Hl|constructor]|].
        split; [reflexivity|]. split; [|split].
        -- intros _ _ _. split; [reflexivity|]. split; [reflexivity|].
           now destruct (emit _ _ _ d).
        -- intros _ _ Hnd. contradiction.
        -- intros [E|[E|[Hnd _]]]; congruence || contradiction.
      * assert (Hnd : ~ differ) by (intros Hd; apply Hiff in Hd; congruence).
        rewrite En.
        destruct (Nat.ltb_spec (LINE_MAX - line_len l) (S n)) as [Hno|Hfit].
        -- cbn [option_map all_ok pend disp emitted].
           eexists _, _, _, _. split; [reflexivity|].
           unfold line_len at 1. cbn [line_buf length]. rewrite bodies_one.
           cbn [rec_body].
           split; [lia|]. split; [auto|]. split; [constructor; [exact Hl|constructor]|].
           split; [reflexivity|]. split; [|split].
           ++ intros _ _ Hd. contradiction.
           ++ intros _ _ _ _. split; [reflexivity|]. split; [reflexivity|].
              now destruct (emit _ _ _ d).
           ++ intros [E|[E|[_ Hf]]]; try congruence. lia.
        -- cbn [option_map all_ok pend disp emitted].
           eexists _, _, _, _. split; [reflexivity|].
           unfold line_len at 1. cbn [line_buf]. rewrite length_app.
           unfold line_len in *.
           split; [lia|]. split; [simpl; lia|]. split; [constructor|].
           split; [reflexivity|]. split; [|split].
           ++ intros _ _ Hd. contradiction.
           ++ intros _ _ _ Hf. lia.
           ++ intros _. auto.
    + assert (Hbe : line_buf l = []) by (apply Hempty; lia).
      cbn [option_map all_ok pend disp emitted].
      eexists _, _, _, _. split; [reflexivity|].
      unfold line_len at 1. cbn [line_buf]. rewrite Hbe.
      split; [lia|]. split; [simpl; lia|]. split; [constructor|].
      split; [reflexivity|]. split; [|split].
      * intros Hx. congruence.
      * intros Hx. congruence.
      * intros _. auto.
Qed.

Lemma long_text_is_cut_not_sliced_witness :
  (* behind a short pending line with the same attributes: nothing leaves *)
  log_line line_env LOG_LEVEL_INFO (Some (txt "A")) (Rendered long_text)
           pending_partial boot_client
  = Some (true,
          mkLine (txt "partial" ++ firstn 255 long_text) LOG_LEVEL_INFO (txt "A") (Some 2%nat),
          boot_client, []) /\
  (* other attributes: the pending line leaves first *)
  (exists d',
      log_line line_env LOG_LEVEL_WARNING (Some (txt "B")) (Rendered long_text)
               pending_partial boot_client
      = Some (true, mkLine (firstn 255 long_text) LOG_LEVEL_WARNING (txt "B") (Some 2%nat), d',
              [mkRec LOG_LEVEL_INFO (txt "A") (txt "partial")])) /\
  (* no room behind 900 pending bytes: the pending line leaves first *)
  (exists d',
      log_line line_env LOG_LEVEL_INFO (Some (txt "A")) (Rendered long_text)
               pending_900 boot_client
      = Some (true, mkLine (firstn 255 long_text) LOG_LEVEL_INFO (txt "A") (Some 2%nat), d',
              [mkRec LOG_LEVEL_INFO (txt "A") (repeat "p"%char 900)])).
Proof.
  assert (Hlong : (SYSLOG_MAX_MESSAGE_SIZE < length long_text)%nat).
  { apply Nat.ltb_lt. vm_compute. reflexivity. }
  assert (Hnt : strpbrk long_text = None) by (vm_compute; reflexivity).
  assert (Hfit : forall l, (line_len l <=? 1023)%nat = true -> (line_len l <= LINE_MAX)%nat).
  { intros l H. rewrite LINE_MAX_val. now apply Nat.leb_le. }
  assert (Htag : forall l, (length (cstr (cur_tag l)) <? 48)%nat = true ->
                           (length (cstr (cur_tag l)) < TAG_SIZE)%nat).
  { intros l H. now apply Nat.ltb_lt. }
  unfold log_line. split; [|split].
  - destruct (long_text_is_cut_not_sliced Client client_emit line_env LOG_LEVEL_INFO
                (Some (txt "A")) long_text pending_partial boot_client
                (Hfit pending_partial eq_refl) (Htag pending_partial eq_refl) eq_refl Hlong Hnt)
      as (_ & _ & ok & l' & d' & rs & E & _ & _ & _ & _ & _ & _ & Hkeep).
    rewrite E. vm_compute in E. injection E as <- <- <- <-. reflexivity.
  - destruct (long_text_is_cut_not_sliced Client client_emit line_env LOG_LEVEL_WARNING
                (Some (txt "B")) long_text pending_partial boot_client
                (Hfit pending_partial eq_refl) (Htag pending_partial eq_refl) eq_refl Hlong Hnt)
      as (_ & _ & ok & l' & d' & rs & E & _ & _ & _ & _ & Hattr & _ & _).
    rewrite E. vm_compute in E. injection E as <- <- <- <-. eexists. reflexivity.
  - destruct (long_text_is_cut_not_sliced Client client_emit line_env LOG_LEVEL_INFO
                (Some (txt "A")) long_text pending_900 boot_client
                (Hfit pending_900 eq_refl) (Htag pending_900 eq_refl) eq_refl Hlong Hnt)
      as (_ & _ & ok & l' & d' & rs & E & _ & _ & _ & _ & _ & Hroom & _).
    rewrite E. vm_compute in E. injection E as <- <- <- <-. eexists. reflexivity.
Defined.

(** C3 as stated fails.  A single call with 1100 bytes and no terminator
    on an empty accumulator hands over no record at all; 255 bytes stay
    pending and the other 845 are lost. *)
Lemma long_text_yields_no_slices :
  (SYSLOG_MAX_MESSAGE_SIZE < length long_text)%nat /\ strpbrk long_text = None /\
  log_line line_env LOG_LEVEL_INFO (Some (txt "A")) (Rendered long_text) line_init boot_client
  = Some (true, mkLine (firstn 255 long_text) LOG_LEVEL_INFO (txt "A") (Some 2%nat),
          boot_client, []).
Proof.
  split; [apply Nat.ltb_lt; vm_compute; reflexivity|].
  split; vm_compute; reflexivity.
Qed.

(** * Line accumulator: where the bytes of a call go *)

Lemma firstn_add (A : Type) (n m : nat) (l : list A) :
  firstn (n + m) l = firstn n l ++ firstn m (skipn n l).
Proof.
  revert l. induction n as [|n IH]; intros [|x l]; simpl; try reflexivity.
  - now rewrite firstn_nil.
  - now rewrite IH.
Qed.

Lemma without_terminators_plain (p : cstring) :
  strpbrk p = None -> without_terminators p = p.
Proof.
  induction p as [|c p IH]; simpl; intros H; [reflexivity|].
  destruct (is_term c); [discriminate|]. simpl.
  destruct (strpbrk p); [discriminate|]. now rewrite IH.
Qed.

Lemma without_terminators_skip (t : ascii) (rest : cstring) :
  is_term t = true ->
  without_terminators (skip_terminator (t :: rest)) = without_terminators (t :: rest).
Proof.
  intros Ht. unfold skip_terminator. simpl without_terminators at 2. rewrite Ht. simpl.
  destruct rest as [|c1 rest]; [reflexivity|].
  destruct (Ascii.eqb t CR && Ascii.eqb c1 LF) eqn:E1.
  - apply andb_true_iff in E1. destruct E1 as [_ E1].
    simpl. unfold is_term. rewrite E1, orb_true_r. reflexivity.
  - destruct (Ascii.eqb t LF && Ascii.eqb c1 CR) eqn:E2; [|reflexivity].
    apply andb_true_iff in E2. destruct E2 as [_ E2].
    simpl. unfold is_term. rewrite E2. reflexivity.
Qed.

(** A text is its first line followed by the rest without the terminator. *)
Lemma without_terminators_line (p : cstring) (i : nat) :
  strpbrk p = Some i ->
  without_terminators p =
  firstn i p ++ without_terminators (skip_terminator (skipn i p)).
Proof.
  intros H. destruct (strpbrk_bound p i H) as (t & rest & Hs & Ht & _ & Hn).
  rewrite <- (firstn_skipn i p) at 1.
  unfold without_terminators at 1. rewrite filter_app.
  fold (without_terminators (firstn i p)). fold (without_terminators (skipn i p)).
  rewrite (without_terminators_plain _ Hn), Hs.
  now rewrite (without_terminators_skip t rest Ht).
Qed.

Section Account.

Variable D : Type.
Variable emit : log_level_t -> option cstring -> cstring -> D -> bool * D.
Variable level : log_level_t.
Variable tag : option cstring.

(** A record leaves, or is skipped: its bytes are handed over or dropped. *)
Lemma do_emit_account lvl tg body (a : Acc D) dr :
  none_dropped a dr ->
  exists dr',
    none_dropped (do_emit emit lvl tg body a) dr' /\
    bodies (emitted (do_emit emit lvl tg body a)) ++ dr' = bodies (emitted a) ++ dr ++ body.
Proof.
  intros Hdr. unfold do_emit, none_dropped in *.
  destruct (all_ok a) eqn:Hok.
  - rewrite (Hdr eq_refl). destruct (emit _ _ _ _) as [r d1]. exists []. simpl.
    split; [reflexivity|]. now rewrite bodies_app, bodies_one, app_nil_r.
  - exists (dr ++ body). rewrite Hok. split; [discriminate|]. now rewrite app_assoc.
Qed.

Lemma flush_account lvl tg (a : Acc D) dr :
  none_dropped a dr ->
  exists dr',
    none_dropped (set_line_len0 (do_emit emit lvl tg (line_buf (pend a)) a)) dr' /\
    bodies (emitted (do_emit emit lvl tg (line_buf (pend a)) a)) ++ dr' =
    bodies (emitted a) ++ dr ++ line_buf (pend a).
Proof. apply do_emit_account. Qed.

Lemma attr_flush_account (a : Acc D) dr :
  none_dropped a dr ->
  exists dr',
    none_dropped (attr_flush emit level tag a) dr' /\
    bodies (emitted (attr_flush emit level tag a)) ++ dr'
      ++ line_buf (pend (attr_flush emit level tag a)) =
    bodies (emitted a) ++ dr ++ line_buf (pend a).
Proof.
  intros Hdr. unfold attr_flush.
  destruct (0 <? line_len (pend a))%nat; [|exists dr; auto].
  destruct (attr_changed level tag (pend a)); [|exists dr; auto].
  destruct (flush_account (cur_level (pend a))
              (if nonempty (cur_tag (pend a)) then cur_tag (pend a) else tag_or_printf tag)
              a dr Hdr) as (dr' & H1 & H2).
  exists dr'. split; [exact H1|].
  cbn [clear_cur_tag set_line_len0 with_pend emitted pend line_buf].
  now rewrite app_nil_r.
Qed.

Lemma slice_loop_account fuel p chunk_len (a : Acc D) dr p2 cl2 a2 :
  slice_loop emit level tag fuel p chunk_len a = Some (p2, cl2, a2) ->
  none_dropped a dr ->
  exists dr',
    none_dropped a2 dr' /\ pend a2 = pend a /\ skipn cl2 p2 = skipn chunk_len p /\
    bodies (emitted a2) ++ dr' ++ firstn cl2 p2 =
    bodies (emitted a) ++ dr ++ firstn chunk_len p.
Proof.
  revert p chunk_len a dr.
  induction fuel as [|fuel IH]; intros p chunk_len a dr; rewrite slice_loop_unfold;
    destruct (Nat.ltb_spec LINE_MAX chunk_len) as [Hlt|Hge]; intros H Hdr; try discriminate.
  - injection H as <- <- <-. exists dr. auto.
  - destruct (do_emit_account level (tag_or_printf tag) (firstn LINE_MAX p) a dr Hdr)
      as (dr1 & Hdr1 & E1).
    destruct (IH _ _ _ dr1 H Hdr1) as (dr' & Hdr' & Hp & Hs & E2).
    exists dr'. split; [exact Hdr'|]. split; [now rewrite Hp, do_emit_pend|]. split.
    + rewrite Hs, skipn_skipn. f_equal. lia.
    + rewrite E2, app_assoc, E1, <- !app_assoc. do 2 f_equal.
      replace chunk_len with (LINE_MAX + (chunk_len - LINE_MAX))%nat at 2 by lia.
      now rewrite firstn_add.
  - injection H as <- <- <-. exists dr. auto.
Qed.

Lemma make_room_account p chunk_len (a : Acc D) dr p2 cl2 a2 :
  make_room emit level tag p chunk_len a = Some (p2, cl2, a2) ->
  none_dropped a dr ->
  exists dr',
    none_dropped a2 dr' /\ skipn cl2 p2 = skipn chunk_len p /\
    bodies (emitted a2) ++ dr' ++ line_buf (pend a2) ++ firstn cl2 p2 =
    bodies (emitted a) ++ dr ++ line_buf (pend a) ++ firstn chunk_len p.
Proof.
  unfold make_room.
  destruct (LINE_MAX - line_len (pend a) <? chunk_len)%nat; intros H Hdr.
  - destruct (Nat.ltb_spec 0 (line_len (pend a))) as [Hpos|Hz].
    + destruct (flush_account (cur_level (pend a)) (cur_tag (pend a)) a dr Hdr)
        as (dr1 & Hdr1 & E1).
      destruct (slice_loop_account _ _ _ _ dr1 _ _ _ H Hdr1) as (dr' & Hdr' & Hp & Hs & E2).
      exists dr'. split; [exact Hdr'|]. split; [exact Hs|].
      rewrite Hp. cbn [set_line_len0 with_pend pend line_buf emitted] in *.
      cbn [app]. rewrite E2, app_assoc, E1, <- !app_assoc. reflexivity.
    + destruct (slice_loop_account _ _ _ _ dr _ _ _ H Hdr) as (dr' & Hdr' & Hp & Hs & E2).
      exists dr'. split; [exact Hdr'|]. split; [exact Hs|].
      assert (Hb : line_buf (pend a) = []).
      { unfold line_len in Hz. destruct (line_buf (pend a)); [reflexivity|simpl in Hz; lia]. }
      rewrite Hp, Hb. exact E2.
  - injection H as <- <- <-. exists dr. auto.
Qed.

(** Every byte of the text, terminators apart, is accounted for, in
    order: in a record handed over, dropped with a flush that was skipped
    after a refusal, or pending. *)
Lemma line_loop_account fuel p (a r : Acc D) dr :
  line_loop emit level tag fuel p a = Some r ->
  none_dropped a dr ->
  exists dr',
    none_dropped r dr' /\
    bodies (emitted r) ++ dr' ++ line_buf (pend r) =
    bodies (emitted a) ++ dr ++ line_buf (pend a) ++ without_terminators p.
Proof.
  revert p a dr.
  induction fuel as [|fuel IH]; intros [|c p] a dr H Hdr;
    try (rewrite line_loop_nil in H; injection H as <-; exists dr;
         split; [exact Hdr|simpl; now rewrite app_nil_r]);
    try discriminate.
  rewrite line_loop_step in H.
  destruct (make_room _ _ _ _ _ _) as [[[p2 cl2] a2]|] eqn:E; [|discriminate].
  cbv zeta in H.
  destruct (attr_flush_account a dr Hdr) as (dr1 & Hdr1 & E1).
  assert (Hdr1' : none_dropped (attr_set level tag (attr_flush emit level tag a)) dr1).
  { unfold none_dropped. rewrite attr_set_all_ok. exact Hdr1. }
  destruct (make_room_account _ _ _ dr1 _ _ _ E Hdr1') as (dr2 & Hdr2 & Hs & E2).
  destruct (attr_set_buf D level tag (attr_flush emit level tag a)) as [Hb He].
  set (cl := match strpbrk (c :: p) with Some i => i | None => length (c :: p) end) in *.
  set (a3 := append_chunk (firstn cl2 p2) a2) in *.
  assert (Hdr3 : none_dropped a3 dr2) by exact Hdr2.
  assert (E3 : bodies (emitted a3) ++ dr2 ++ line_buf (pend a3) =
               (bodies (emitted a) ++ dr ++ line_buf (pend a)) ++ firstn cl (c :: p)).
  { unfold a3. cbn [append_chunk with_pend emitted pend line_buf].
    rewrite <- E1, <- !app_assoc, <- Hb, <- He. exact E2. }
  rewrite Hs in H.
  destruct (strpbrk (c :: p)) as [i|] eqn:Hnl; subst cl; cbv iota in H, E3.
  - destruct (flush_account (cur_level (pend a3)) (cur_tag (pend a3)) a3 dr2 Hdr3)
      as (dr4 & Hdr4 & E4).
    destruct (IH _ (end_of_line emit a3) dr4 H Hdr4) as (dr' & Hdr' & E5).
    exists dr'. split; [exact Hdr'|].
    rewrite E5. cbn [end_of_line clear_cur_tag set_line_len0 with_pend emitted pend line_buf].
    cbn [app]. rewrite app_assoc, E4, E3, <- !app_assoc.
    now rewrite (without_terminators_line (c :: p) i Hnl).
  - rewrite skipn_all, line_loop_nil in H. injection H as <-.
    exists dr2. split; [exact Hdr3|].
    rewrite E3, <- !app_assoc, firstn_all.
    now rewrite (without_terminators_plain _ Hnl).
Qed.

End Account.

(** C10. [logger_printf_line] renders into a 256-byte buffer.  The call
    behaves, return value included, as if it had been given the first 255
    bytes of the rendered text: what lies behind them, a terminator
    included, plays no part.  The bytes the loop works on are those 255
    bytes up to their first NUL ([kept]).  The records handed over by the
    call together with the pending line hold at most 255 bytes more than
    the pending line held before.  When the call returns true they hold,
    in order, what was pending followed by the kept bytes, the terminators
    apart; and whenever the guard is obtained each of those bytes is, in
    that order, in a record handed over, dropped with a flush that was
    skipped after a refusal, or pending. *)
Theorem printf_line_truncates_to_255 (D : Type)
        (emit : log_level_t -> option cstring -> cstring -> D -> bool * D)
        env level tag text l d :
  let kept := cstr (firstn 255 text) in
  logger_printf_line emit env level tag (Rendered text) l d =
  logger_printf_line emit env level tag (Rendered (firstn 255 text)) l d /\
  (length kept <= 255)%nat /\
  (Forall (fun c => is_nul c = false) (firstn 255 text) -> kept = firstn 255 text) /\
  ((line_len l <= LINE_MAX)%nat ->
   exists ok l' d' rs,
     logger_printf_line emit env level tag (Rendered text) l d = Some (ok, l', d', rs) /\
     (length (bodies rs) + line_len l' <= line_len l + 255)%nat /\
     (ok = true ->
      bodies rs ++ line_buf l' = line_buf l ++ without_terminators kept) /\
     (line_take_ok env = true ->
      exists dropped,
        bodies rs ++ dropped ++ line_buf l' = line_buf l ++ without_terminators kept)).
Proof.
  intros kept. split; [|split; [|split]].
  - unfold logger_printf_line.
    change 255%nat with (TMP_SIZE - 1)%nat. now rewrite vsnprintf_firstn.
  - apply (vsnprintf_length TMP_SIZE text).
  - intros Hf. apply cstr_no_nul, Hf.
  - intros Hl.
    destruct (logger_printf_line_total D emit env level tag (Rendered text) l d Hl)
      as (ok & l' & d' & rs & E & _ & Hh).
    exists ok, l', d', rs. split; [exact E|]. split; [exact Hh|].
    assert (Hloop : forall r,
               line_loop emit level tag (length kept) kept
                         (mkAcc true (create_line_mutex env l) d []) = Some r ->
               exists dropped,
                 (all_ok r = true -> dropped = []) /\
                 bodies (emitted r) ++ dropped ++ line_buf (pend r) =
                 line_buf l ++ without_terminators kept).
    { intros r El.
      destruct (line_loop_account D emit level tag _ _ _ _ [] El (fun _ => eq_refl))
        as (dropped & Hnone & Hc).
      exists dropped. split; [exact Hnone|].
      rewrite Hc. cbn [emitted pend bodies concat map app].
      now rewrite (proj1 (create_line_mutex_fields env l)). }
    unfold logger_printf_line in E.
    change (vsnprintf TMP_SIZE text) with kept in E. split.
    + intros ->.
      destruct (is_some _ && negb _); [discriminate|].
      destruct (line_loop emit level tag (length kept) kept _) as [r|] eqn:El;
        [|discriminate].
      cbn [option_map] in E. injection E as Hok <- _ <-.
      destruct (Hloop r eq_refl) as (dropped & Hnone & Hc).
      rewrite (Hnone Hok) in Hc. exact Hc.
    + intros Ht. rewrite Ht, andb_false_r in E.
      destruct (line_loop emit level tag (length kept) kept _) as [r|] eqn:El;
        [|discriminate].
      cbn [option_map] in E. injection E as _ <- _ <-.
      destruct (Hloop r eq_refl) as (dropped & _ & Hc).
      exists dropped. exact Hc.
Qed.

(** On an empty accumulator: of 1100 bytes without terminator the first
    255 stay pending; a line feed behind 300 bytes is never seen, so no
    record leaves; and a text of two lines leaves its first line as a
    record and keeps the second. *)
Lemma printf_line_truncates_to_255_witness :
  (line_len line_init <= LINE_MAX)%nat /\
  log_line line_env LOG_LEVEL_INFO (Some (txt "A")) (Rendered long_text) line_init boot_client
  = Some (true, mkLine (firstn 255 long_text) LOG_LEVEL_INFO (txt "A") (Some 2%nat),
          boot_client, []) /\
  log_line line_env LOG_LEVEL_INFO (Some (txt "A")) (Rendered late_newline) line_init
           boot_client
  = Some (true, mkLine (repeat "b"%char 255) LOG_LEVEL_INFO (txt "A") (Some 2%nat),
          boot_client, []) /\
  (exists ok l' d' rs,
      log_line line_env LOG_LEVEL_INFO (Some (txt "A")) (Rendered (txt "one" ++ [LF] ++ txt "two"))
               pending_partial boot_client = Some (ok, l', d', rs) /\
      ok = true /\
      bodies rs ++ line_buf l' = txt "partial" ++ txt "one" ++ txt "two" /\
      rs = [mkRec LOG_LEVEL_INFO (txt "A") (txt "partialone")] /\
      line_buf l' = txt "two").
Proof.
  split; [exact line_init_fits|]. unfold log_line. split; [|split].
  - destruct (proj2 (proj2 (proj2 (printf_line_truncates_to_255 Client client_emit line_env
                                     LOG_LEVEL_INFO (Some (txt "A")) long_text line_init
                                     boot_client))) line_init_fits)
      as (ok & l' & d' & rs & E & _).
    rewrite E. vm_compute in E. injection E as <- <- <- <-. reflexivity.
  - rewrite (proj1 (printf_line_truncates_to_255 Client client_emit line_env
                      LOG_LEVEL_INFO (Some (txt "A")) late_newline line_init boot_client)).
    vm_compute. reflexivity.
  - assert (Hfit : (line_len pending_partial <= LINE_MAX)%nat).
    { rewrite LINE_MAX_val. apply Nat.leb_le. reflexivity. }
    destruct (proj2 (proj2 (proj2 (printf_line_truncates_to_255 Client client_emit line_env
                                     LOG_LEVEL_INFO (Some (txt "A"))
                                     (txt "one" ++ [LF] ++ txt "two") pending_partial
                                     boot_client))) Hfit)
      as (ok & l' & d' & rs & E & _ & Hkeep & _).
    exists ok, l', d', rs. split; [exact E|].
    vm_compute in E. injection E as <- <- <- <-.
    split; [reflexivity|]. split; [exact (Hkeep eq_refl)|]. split; reflexivity.
Defined.

(** * Line accumulator: text delivered in chunks *)

Lemma cstr_idem (a : list ascii) : cstr (cstr a) = cstr a.
Proof.
  induction a as [|c a IH]; simpl; [reflexivity|].
  destruct (is_nul c) eqn:Hc; simpl; [reflexivity|]. now rewrite Hc, IH.
Qed.

Lemma cstring_eqb_refl (a : cstring) : cstring_eqb a a = true.
Proof. unfold cstring_eqb. destruct (list_eq_dec ascii_dec a a); congruence. Qed.

Lemma last_suffix (A : Type) (pre l : list A) (d : A) :
  l <> [] -> last (pre ++ l) d = last l d.
Proof.
  intros Hl. induction pre as [|x pre IH]; simpl; [reflexivity|].
  destruct (pre ++ l) eqn:E; [|exact IH].
  destruct pre; simpl in E; [congruence|discriminate].
Qed.

Lemma boundary_ok_suffix (pre a b : list ascii) :
  boundary_ok (pre ++ a) b = true -> boundary_ok a b = true.
Proof.
  destruct a as [|x a]; [reflexivity|].
  destruct b as [|y b]; [reflexivity|].
  unfold boundary_ok. rewrite (last_suffix _ pre (x :: a)) by discriminate.
  destruct (pre ++ x :: a) eqn:E; [destruct pre; discriminate|]. auto.
Qed.

(** At a boundary that splits no pair, skipping the terminator at the head
    of the first part does not look into the second. *)
Lemma skip_terminator_app (a b : list ascii) (i : nat) (t : ascii) (rest : list ascii) :
  skipn i a = t :: rest -> boundary_ok a b = true ->
  skip_terminator (skipn i a ++ b) = skip_terminator (skipn i a) ++ b.
Proof.
  intros Hs Hb. rewrite Hs.
  destruct rest as [|c1 rest].
  - destruct b as [|y b]; [reflexivity|].
    assert (Ha : a = firstn i a ++ [t]) by (rewrite <- Hs; symmetry; apply firstn_skipn).
    rewrite Ha in Hb. apply boundary_ok_suffix in Hb.
    unfold boundary_ok in Hb. simpl in Hb.
    unfold skip_terminator. simpl.
    apply negb_true_iff, orb_false_iff in Hb. destruct Hb as [-> ->]. reflexivity.
  - unfold skip_terminator. simpl.
    destruct (Ascii.eqb t CR && Ascii.eqb c1 LF); [reflexivity|].
    destruct (Ascii.eqb t LF && Ascii.eqb c1 CR); reflexivity.
Qed.


Lemma skip_terminator_suffix (l : cstring) : exists pre, l = pre ++ skip_terminator l.
Proof.
  unfold skip_terminator.
  destruct l as [|c0 [|c1 l]].
  - exists []. reflexivity.
  - exists [c0]. reflexivity.
  - destruct (Ascii.eqb c0 CR && Ascii.eqb c1 LF); [exists [c0; c1]; reflexivity|].
    destruct (Ascii.eqb c0 LF && Ascii.eqb c1 CR);
      [exists [c0; c1]; reflexivity|exists [c0]; reflexivity].
Qed.

Section Chunks.

Variable D : Type.
Variable emit : log_level_t -> option cstring -> cstring -> D -> bool * D.
Variable level : log_level_t.
Variable tag : option cstring.
Hypothesis Htag : short_tag tag.

(** A tag that fits [cur_tag] compares equal to its stored copy. *)
Lemma attr_set_fresh buf m :
  attr_changed level tag
    (mkLine buf level (strncpy (tag_or_printf tag) (TAG_SIZE - 1)) m) = false.
Proof.
  unfold attr_changed. simpl cur_level. simpl cur_tag.
  rewrite Z.eqb_refl. simpl negb. rewrite orb_false_r.
  destruct tag as [t|]; [|reflexivity].
  simpl in Htag. simpl tag_or_printf. unfold strncpy, strncmp_ne.
  rewrite (firstn_all2 (n := 47%nat) (cstr t)) by exact Htag.
  now rewrite cstr_idem, cstring_eqb_refl, andb_false_r.
Qed.

Lemma attr_stable (a : Acc D) :
  attr_changed level tag (pend (attr_set level tag (attr_flush emit level tag a))) = false.
Proof.
  unfold attr_flush.
  destruct (0 <? line_len (pend a))%nat eqn:Hpos.
  - destruct (attr_changed level tag (pend a)) eqn:Hch.
    + unfold attr_set. simpl. apply attr_set_fresh.
    + unfold attr_set. destruct (line_len (pend a) =? 0)%nat; [apply attr_set_fresh|exact Hch].
  - unfold attr_set. destruct (Nat.eqb_spec (line_len (pend a)) 0) as [_|Hne].
    + apply attr_set_fresh.
    + apply Nat.ltb_ge in Hpos. lia.
Qed.

Lemma attr_flush_noop (a : Acc D) :
  attr_changed level tag (pend a) = false -> attr_flush emit level tag a = a.
Proof.
  intros H. unfold attr_flush. rewrite H. now destruct (0 <? line_len (pend a))%nat.
Qed.

Lemma attr_set_noop (a : Acc D) :
  line_buf (pend a) <> [] -> attr_set level tag a = a.
Proof.
  intros H. unfold attr_set, line_len.
  destruct (line_buf (pend a)); [congruence|reflexivity].
Qed.

(** One turn of the loop when the text fits behind the pending line. *)
Lemma line_loop_step_fits fuel c p (a : Acc D) :
  (line_len (pend a) + length (c :: p) <= LINE_MAX)%nat ->
  line_loop emit level tag (S fuel) (c :: p) a =
  let a1 := attr_set level tag (attr_flush emit level tag a) in
  match strpbrk (c :: p) with
  | Some i =>
      line_loop emit level tag fuel (skip_terminator (skipn i (c :: p)))
                (end_of_line emit (append_chunk (firstn i (c :: p)) a1))
  | None => Some (append_chunk (c :: p) a1)
  end.
Proof.
  intros Hfit. rewrite line_loop_step. cbv zeta.
  destruct (attr_flush_held D emit level tag a) as [_ Hl1].
  destruct (attr_set_buf D level tag (attr_flush emit level tag a)) as [Hb2 _].
  set (a1 := attr_set level tag (attr_flush emit level tag a)) in *.
  assert (Hl2 : (line_len (pend a1) <= line_len (pend a))%nat).
  { unfold line_len in *. rewrite Hb2. exact Hl1. }
  destruct (strpbrk (c :: p)) as [i|] eqn:Hnl.
  - destruct (strpbrk_bound _ _ Hnl) as (_ & _ & _ & _ & Hi & _).
    rewrite make_room_fits by lia. reflexivity.
  - rewrite make_room_fits by lia.
    now rewrite firstn_all, skipn_all, line_loop_nil.
Qed.

(** Fuel beyond the length of the text changes nothing. *)
Lemma line_loop_fuel f : forall f' p (a : Acc D),
  (line_len (pend a) <= LINE_MAX)%nat -> (length p <= f)%nat -> (length p <= f')%nat ->
  line_loop emit level tag f p a = line_loop emit level tag f' p a.
Proof.
  induction f as [|f IH]; intros f' [|c p] a Hl Hf Hf';
    try (now rewrite !line_loop_nil); try (simpl in Hf; lia).
  destruct f' as [|f']; [simpl in Hf'; lia|].
  rewrite !line_loop_step.
  destruct (attr_flush_held D emit level tag a) as [_ Hl1].
  destruct (attr_set_buf D level tag (attr_flush emit level tag a)) as [Hb2 _].
  set (a1 := attr_set level tag (attr_flush emit level tag a)) in *.
  assert (Hl2 : (line_len (pend a1) <= LINE_MAX)%nat).
  { unfold line_len in *. rewrite Hb2. lia. }
  destruct (make_room_total D emit level tag (c :: p)
              (match strpbrk (c :: p) with Some i => i | None => length (c :: p) end)
              a1 Hl2) as (p2 & cl2 & a2 & E & Hs & _ & _).
  rewrite E. cbv zeta. rewrite Hs.
  destruct (strpbrk (c :: p)) as [i|] eqn:Hnl.
  - destruct (strpbrk_bound _ _ Hnl) as (t & rest & Hsk & _ & Hi & _).
    rewrite Hsk.
    pose proof (skip_terminator_length t rest) as Hst.
    pose proof (length_skipn i (c :: p)) as Hls. rewrite Hsk in Hls.
    simpl length in Hf, Hf', Hls, Hi.
    apply IH; [|lia|lia].
    destruct (end_of_line_held D emit (append_chunk (firstn cl2 p2) a2)) as [_ Hb5].
    unfold line_len. rewrite Hb5. simpl. lia.
  - now rewrite skipn_all, !line_loop_nil.
Qed.

(** The loop on a text is the loop on its first part followed by the loop
    on the rest, when the cut splits no two-character terminator, the
    text fits behind the pending line, and no record was refused. *)
Lemma line_loop_app n : forall a b (acc r : Acc D) f f1 f2,
  (length a <= n)%nat ->
  boundary_ok a b = true ->
  (line_len (pend acc) + length (a ++ b) <= LINE_MAX)%nat ->
  (length (a ++ b) <= f)%nat -> (length a <= f1)%nat -> (length b <= f2)%nat ->
  line_loop emit level tag f (a ++ b) acc = Some r ->
  all_ok r = true ->
  exists r1,
    line_loop emit level tag f1 a acc = Some r1 /\ all_ok r1 = true /\
    line_loop emit level tag f2 b r1 = Some r.
Proof.
  induction n as [|n IH]; intros a b acc r f f1 f2 Hn Hbd Hfit Hf Hf1 Hf2 H Hok.
  - destruct a; [|simpl in Hn; lia]. simpl in *.
    exists acc. rewrite line_loop_nil.
    rewrite (line_loop_fuel f2 f b acc) by lia.
    split; [reflexivity|]. split; [|exact H].
    exact (line_loop_all_ok D emit level tag _ _ _ _ H Hok).
  - destruct a as [|c a].
    { simpl in *. exists acc. rewrite line_loop_nil.
      rewrite (line_loop_fuel f2 f b acc) by lia.
      split; [reflexivity|]. split; [|exact H].
      exact (line_loop_all_ok D emit level tag _ _ _ _ H Hok). }
    rewrite length_app in *.
    destruct f as [|f]; [simpl in Hf; lia|].
    destruct f1 as [|f1]; [simpl in Hf1; lia|].
    change ((c :: a) ++ b) with (c :: (a ++ b)) in H.
    rewrite line_loop_step_fits in H by (simpl length in *; rewrite length_app; lia).
    rewrite line_loop_step_fits by lia.
    cbv zeta in *.
    destruct (attr_flush_held D emit level tag acc) as [_ Hl1].
    destruct (attr_set_buf D level tag (attr_flush emit level tag acc)) as [Hb2 _].
    pose proof (attr_stable acc) as Hst.
    set (a1 := attr_set level tag (attr_flush emit level tag acc)) in *.
    change (c :: (a ++ b)) with ((c :: a) ++ b) in H.
    destruct (strpbrk (c :: a)) as [i|] eqn:Hnl.
    + rewrite (strpbrk_app_some _ b _ Hnl) in H.
      destruct (strpbrk_bound _ _ Hnl) as (t & rest & Hsk & _ & Hi & _).
      rewrite firstn_app, skipn_app in H.
      replace (i - length (c :: a))%nat with 0%nat in H by lia.
      rewrite firstn_0, skipn_0, app_nil_r in H.
      rewrite (skip_terminator_app _ _ _ _ _ Hsk Hbd) in H.
      destruct (skip_terminator_suffix (skipn i (c :: a))) as [pre Hpre].
      pose proof (skip_terminator_length t rest) as Hlen. rewrite <- Hsk in Hlen.
      pose proof (length_skipn i (c :: a)) as Hls. rewrite Hsk in Hls.
      destruct (end_of_line_held D emit (append_chunk (firstn i (c :: a)) a1)) as [_ Hb5].
      apply (IH _ b _ r f f1 f2); auto.
      * simpl length in *. lia.
      * apply (boundary_ok_suffix (firstn i (c :: a) ++ pre)).
        now rewrite <- app_assoc, <- Hpre, firstn_skipn.
      * unfold line_len at 1. rewrite Hb5, length_app. simpl length in *. lia.
      * rewrite length_app. simpl length in *. lia.
      * simpl length in *. lia.
    + rewrite (strpbrk_app_none _ b Hnl) in H.
      exists (append_chunk (c :: a) a1). split; [reflexivity|].
      assert (Hrun : line_loop emit level tag f2 b (append_chunk (c :: a) a1) = Some r).
      { destruct b as [|y b].
        - rewrite line_loop_nil. cbv beta iota delta [option_map strpbrk] in H.
          now rewrite app_nil_r in H.
        - destruct f2 as [|f2]; [simpl in Hf2; lia|].
          rewrite line_loop_step_fits.
          2:{ unfold line_len in *. simpl pend. simpl line_buf.
              rewrite length_app, Hb2. simpl length in *. lia. }
          cbv zeta.
          rewrite attr_flush_noop by exact Hst.
          rewrite attr_set_noop by (simpl; destruct (line_buf (pend a1)); discriminate).
          destruct (strpbrk (y :: b)) as [j|] eqn:Hnl2;
            cbv beta iota delta [option_map] in H.
          + rewrite firstn_app_2 in H.
            rewrite skipn_app in H.
            replace (length (c :: a) + j - length (c :: a))%nat with j in H by lia.
            rewrite (skipn_all2 (n := (length (c :: a) + j)%nat) (c :: a)) in H by lia.
            simpl app in H at 1.
            destruct (strpbrk_bound _ _ Hnl2) as (t & rest & Hsk & _ & Hj & _).
            pose proof (skip_terminator_length t rest) as Hlen. rewrite <- Hsk in Hlen.
            pose proof (length_skipn j (y :: b)) as Hls. rewrite Hsk in Hls.
            rewrite (line_loop_fuel f2 f).
            * unfold append_chunk, with_pend in *. simpl in *.
              rewrite <- app_assoc. exact H.
            * destruct (end_of_line_held D emit
                          (append_chunk (firstn j (y :: b)) (append_chunk (c :: a) a1)))
                as [_ Hb5].
              unfold line_len. rewrite Hb5. simpl. lia.
            * simpl length in *. lia.
            * simpl length in *. lia.
          + unfold append_chunk, with_pend in *. simpl in *.
            rewrite <- app_assoc. exact H. }
      split; [|exact Hrun].
      exact (line_loop_all_ok D emit level tag _ _ _ _ Hrun Hok).
Qed.

End Chunks.

Lemma vsnprintf_id (text : list ascii) :
  Forall (fun c => is_nul c = false) text -> (length text <= 255)%nat ->
  vsnprintf TMP_SIZE text = text.
Proof.
  intros Hn Hl. unfold vsnprintf.
  change (TMP_SIZE - 1)%nat with 255%nat.
  rewrite firstn_all2 by exact Hl. now apply cstr_no_nul.
Qed.

Lemma create_line_mutex_kept env l l1 :
  line_mutex l1 = line_mutex (create_line_mutex env l) -> create_line_mutex env l1 = l1.
Proof.
  unfold create_line_mutex. intros H.
  destruct (line_mutex l1) as [m|] eqn:E1; [reflexivity|].
  destruct (line_mutex l) as [m|] eqn:E; [congruence|].
  simpl in H. rewrite <- H. destruct l1; simpl in *. now rewrite E1.
Qed.

Lemma Forall_app_parts (A : Type) (P : A -> Prop) (a b : list A) :
  Forall P (a ++ b) -> Forall P a /\ Forall P b.
Proof. intros H. apply Forall_app in H. exact H. Qed.

(** Two successive calls with the same level and tag against one call
    with the whole text. *)
Lemma printf_line_app (D : Type)
      (emit : log_level_t -> option cstring -> cstring -> D -> bool * D)
      env level tag a b l d l' d' rs :
  line_take_ok env = true -> short_tag tag ->
  Forall (fun c => is_nul c = false) (a ++ b) -> (length (a ++ b) <= 255)%nat ->
  (line_len l + length (a ++ b) <= LINE_MAX)%nat ->
  boundary_ok a b = true ->
  logger_printf_line emit env level tag (Rendered (a ++ b)) l d = Some (true, l', d', rs) ->
  exists l1 d1 rs1 rs2,
    logger_printf_line emit env level tag (Rendered a) l d = Some (true, l1, d1, rs1) /\
    logger_printf_line emit env level tag (Rendered b) l1 d1 = Some (true, l', d', rs2) /\
    rs = rs1 ++ rs2 /\
    (line_len l1 <= line_len l + length a)%nat.
Proof.
  intros Ht Htag Hnul Hlen Hfit Hbd H.
  destruct (Forall_app_parts _ _ _ _ Hnul) as [Hna Hnb].
  rewrite logger_printf_line_loop in H by exact Ht.
  rewrite vsnprintf_id in H by auto.
  rewrite length_app in Hlen, Hfit.
  destruct (create_line_mutex_fields env l) as (Hb0 & _ & _).
  pose proof (logger_printf_line_loop D emit env level tag a l d Ht) as Ca.
  rewrite (vsnprintf_id a) in Ca by (auto; lia).
  set (l0 := create_line_mutex env l) in *.
  assert (Hl0 : line_len l0 = line_len l) by (unfold line_len; now rewrite Hb0).
  destruct (line_loop _ _ _ _ (a ++ b) _) as [r|] eqn:E; [|discriminate].
  simpl in H. injection H as Hok <- <- <-.
  destruct (line_loop_app D emit level tag Htag (length a) a b (mkAcc true l0 d []) r
              (length (a ++ b)) (length a) (length b)) as (r1 & E1 & Hok1 & E2); auto.
  { simpl pend. rewrite length_app. lia. }
  destruct (line_loop_total D emit level tag (length a) a (mkAcc true l0 d []))
    as (r1' & E1' & _ & Hheld); [simpl; lia|lia|].
  rewrite E1 in E1'. injection E1' as <-.
  pose proof (line_loop_mutex D emit level tag _ _ _ _ E1) as Hmx. simpl in Hmx.
  rewrite E1 in Ca. simpl option_map in Ca.
  pose proof (logger_printf_line_loop D emit env level tag b (pend r1) (disp r1) Ht) as Cb.
  rewrite (vsnprintf_id b) in Cb by (auto; lia).
  rewrite (create_line_mutex_kept env l (pend r1) Hmx) in Cb.
  assert (Hr1 : r1 = prepend (emitted r1) (mkAcc true (pend r1) (disp r1) [])).
  { destruct r1 as [ok1 p1 d1 e1]. simpl in Hok1. subst ok1.
    unfold prepend. simpl. now rewrite app_nil_r. }
  rewrite Hr1 in E2 at 1. rewrite line_loop_prepend in E2.
  destruct (line_loop _ _ _ _ b _) as [r2|] eqn:E2'; [|discriminate].
  simpl in E2. injection E2 as <-. simpl in Hok.
  simpl option_map in Cb.
  exists (pend r1), (disp r1), (emitted r1), (emitted r2).
  rewrite Ca, Cb, Hok1, Hok. repeat split.
  unfold held in Hheld. simpl in Hheld. unfold line_len in *. lia.
Qed.

Lemma feed_cons (D : Type)
      (emit : log_level_t -> option cstring -> cstring -> D -> bool * D)
      env level tag c cs l d :
  feed emit env level tag (c :: cs) l d =
  match logger_printf_line emit env level tag (Rendered c) l d with
  | Some (ok1, l1, d1, rs1) =>
      match feed emit env level tag cs l1 d1 with
      | Some (ok2, l2, d2, rs2) => Some (ok1 && ok2, l2, d2, rs1 ++ rs2)
      | None => None
      end
  | None => None
  end.
Proof. reflexivity. Qed.

Lemma feed_concat (D : Type)
      (emit : log_level_t -> option cstring -> cstring -> D -> bool * D)
      env level tag :
  line_take_ok env = true -> short_tag tag ->
  forall cs c done l d l' d' rs,
    Forall (fun x => is_nul x = false) (c ++ concat cs) ->
    (length (c ++ concat cs) <= 255)%nat ->
    (line_len l + length (c ++ concat cs) <= LINE_MAX)%nat ->
    splits_ok done (c :: cs) = true ->
    logger_printf_line emit env level tag (Rendered (c ++ concat cs)) l d
      = Some (true, l', d', rs) ->
    feed emit env level tag (c :: cs) l d = Some (true, l', d', rs).
Proof.
  intros Ht Htag.
  induction cs as [|c2 cs IH]; intros c done l d l' d' rs Hnul Hlen Hfit Hsp H.
  - simpl concat in *. rewrite app_nil_r in *.
    rewrite feed_cons, H. simpl. now rewrite app_nil_r.
  - simpl concat in *.
    simpl in Hsp. apply andb_true_iff in Hsp. destruct Hsp as [_ Hsp].
    pose proof Hsp as Hsp'.
    apply andb_true_iff in Hsp. destruct Hsp as [Hbd _].
    apply boundary_ok_suffix in Hbd.
    destruct (printf_line_app D emit env level tag c (c2 ++ concat cs) l d l' d' rs
                Ht Htag Hnul Hlen Hfit Hbd H) as (l1 & d1 & rs1 & rs2 & Ca & Cb & -> & Hl1).
    destruct (Forall_app_parts _ _ _ _ Hnul) as [_ Hnb].
    rewrite length_app in Hlen, Hfit.
    rewrite feed_cons, Ca.
    rewrite (IH c2 (done ++ c) l1 d1 l' d' rs2); auto; lia.
Qed.

(** C4, as the code has it.  Let a text of at most 255 bytes without NUL
    be delivered in chunks by successive calls with the same level and
    the same tag, a tag that is NULL or shorter than 48 bytes; let no chunk
    boundary separate the two characters of a CR LF or LF CR pair, let
    the text fit behind the pending line, and let every call obtain the
    accumulator guard.  If the call with the whole text returns true, the
    chunked calls hand over the same records in the same order, return
    true, and leave the accumulator and the dispatcher in the same state. *)
Theorem chunked_delivery_matches_whole (D : Type)
        (emit : log_level_t -> option cstring -> cstring -> D -> bool * D)
        env level tag chunks l d :
  chunks <> [] ->
  line_take_ok env = true ->
  short_tag tag ->
  Forall (fun x => is_nul x = false) (concat chunks) ->
  (length (concat chunks) <= 255)%nat ->
  (line_len l + length (concat chunks) <= LINE_MAX)%nat ->
  splits_ok [] chunks = true ->
  (exists l' d' rs,
      logger_printf_line emit env level tag (Rendered (concat chunks)) l d
      = Some (true, l', d', rs)) ->
  feed emit env level tag chunks l d =
  logger_printf_line emit env level tag (Rendered (concat chunks)) l d.
Proof.
  intros Hne Ht Htag Hnul Hlen Hfit Hsp (l' & d' & rs & H).
  destruct chunks as [|c cs]; [congruence|].
  rewrite H. simpl concat in *.
  exact (feed_concat D emit env level tag Ht Htag cs c [] l d l' d' rs Hnul Hlen Hfit Hsp H).
Qed.

Lemma chunked_delivery_matches_whole_witness :
  feed client_emit line_env LOG_LEVEL_INFO (Some (txt "A"))
       [txt "hello "; txt "world" ++ [LF]] line_init boot_client
  = log_line line_env LOG_LEVEL_INFO (Some (txt "A"))
             (Rendered (txt "hello world" ++ [LF])) line_init boot_client /\
  exists l' d',
    feed client_emit line_env LOG_LEVEL_INFO (Some (txt "A"))
         [txt "hello "; txt "world" ++ [LF]] line_init boot_client
    = Some (true, l', d', [mkRec LOG_LEVEL_INFO (txt "A") (txt "hello world")]).
Proof.
  split.
  - apply (chunked_delivery_matches_whole Client client_emit line_env LOG_LEVEL_INFO
             (Some (txt "A")) [txt "hello "; txt "world" ++ [LF]] line_init boot_client).
    + discriminate.
    + reflexivity.
    + apply Nat.leb_le. reflexivity.
    + repeat constructor.
    + apply Nat.leb_le. reflexivity.
    + apply Nat.leb_le. vm_compute. reflexivity.
    + reflexivity.
    + eexists _, _, _. vm_compute. reflexivity.
  - eexists _, _. vm_compute. reflexivity.
Defined.

(** C4 as stated fails.  (1) A CR LF pair split across two calls gives an
    extra empty record.  (2) With a tag of 48 bytes every call flushes the
    pending line, so "a" then "b\n" gives two records where "ab\n" gives
    one.  (3) A whole text of 300 bytes and a line feed is cut to 255
    bytes and gives no record; in two chunks it gives one record of 300
    bytes.  (4) When the dispatcher refuses the first record, a single
    call does not hand over the second; two calls hand over both. *)
Lemma chunked_delivery_differs :
  (let whole := log_line line_env LOG_LEVEL_INFO (Some (txt "A"))
                         (Rendered (txt "a" ++ [CR; LF])) line_init boot_client in
   let parts := feed client_emit line_env LOG_LEVEL_INFO (Some (txt "A"))
                     [txt "a" ++ [CR]; [LF]] line_init boot_client in
   option_map snd whole = Some [mkRec LOG_LEVEL_INFO (txt "A") (txt "a")] /\
   option_map snd parts = Some [mkRec LOG_LEVEL_INFO (txt "A") (txt "a");
                                mkRec LOG_LEVEL_INFO (txt "A") []]) /\
  (let whole := log_line line_env LOG_LEVEL_INFO (Some long_tag)
                         (Rendered (txt "ab" ++ [LF])) line_init boot_client in
   let parts := feed client_emit line_env LOG_LEVEL_INFO (Some long_tag)
                     [txt "a"; txt "b" ++ [LF]] line_init boot_client in
   option_map (fun r => map rec_body (snd r)) whole = Some [txt "ab"] /\
   option_map (fun r => map rec_body (snd r)) parts = Some [txt "a"; txt "b"]) /\
  (let half := repeat "a"%char 150 in
   let whole := log_line line_env LOG_LEVEL_INFO (Some (txt "A"))
                         (Rendered (half ++ half ++ [LF])) line_init boot_client in
   let parts := feed client_emit line_env LOG_LEVEL_INFO (Some (txt "A"))
                     [half; half ++ [LF]] line_init boot_client in
   option_map (fun r => map rec_body (snd r)) whole = Some [] /\
   option_map (fun r => map rec_body (snd r)) parts = Some [half ++ half]) /\
  (let whole := log_line line_env LOG_LEVEL_INFO (Some (txt "A"))
                         (Rendered (txt "a" ++ [LF] ++ txt "b" ++ [LF]))
                         line_init busy_client in
   let parts := feed client_emit line_env LOG_LEVEL_INFO (Some (txt "A"))
                     [txt "a" ++ [LF]; txt "b" ++ [LF]] line_init busy_client in
   option_map (fun r => map rec_body (snd r)) whole = Some [txt "a"] /\
   option_map (fun r => map rec_body (snd r)) parts = Some [txt "a"; txt "b"]).
Proof.
  repeat split; vm_compute; reflexivity.
Qed.

(** * Further properties: formatter and clock *)

Lemma syslog_get_severity_range (s : Syslog_t) (level : log_level_t) :
  0 <= syslog_get_severity s level <= 7.
Proof.
  rewrite syslog_get_severity_table.
  destruct level as [|[[[p|p|]|[p|p|]|]|[[p|p|]|[p|p|]|]|]|p]; simpl; lia.
Qed.

(** X1. The priority can be taken apart again: the severity is one of
    0..7, so for a facility from 0 to 2^28-1, the range in which
    [facility * 8 + 7] is an [int], the C quotient of the priority by 8 is
    the facility and the remainder is the severity, and the priority is
    itself an [int]. *)
Theorem priority_splits_into_facility_and_severity (s : Syslog_t) (level : log_level_t) :
  0 <= facility s < 2 ^ 28 ->
  0 <= syslog_get_priority s level < 2 ^ 31 /\
  Z.quot (syslog_get_priority s level) 8 = facility s /\
  Z.rem (syslog_get_priority s level) 8 = syslog_get_severity s level.
Proof.
  intros Hf. pose proof (syslog_get_severity_range s level) as Hs.
  unfold syslog_get_priority.
  rewrite Z.quot_div_nonneg, Z.rem_mod_nonneg by lia. split; [lia|]. split.
  - rewrite Z.div_add_l, Z.div_small by lia. lia.
  - rewrite (Z.add_comm (facility s * 8)), Z.mod_add by lia.
    apply Z.mod_small. lia.
Qed.

Lemma priority_splits_into_facility_and_severity_witness :
  0 <= syslog_get_priority ready_syslog LOG_LEVEL_WARNING < 2 ^ 31 /\
  Z.quot (syslog_get_priority ready_syslog LOG_LEVEL_WARNING) 8 = 1 /\
  Z.rem (syslog_get_priority ready_syslog LOG_LEVEL_WARNING) 8 = 4.
Proof.
  apply (priority_splits_into_facility_and_severity ready_syslog LOG_LEVEL_WARNING).
  vm_compute. split; [discriminate|reflexivity].
Defined.

Lemma bounded_check (P : nat -> bool) (n : nat) :
  forallb P (seq 0 n) = true -> forall z, 0 <= z < Z.of_nat n -> P (Z.to_nat z) = true.
Proof.
  intros H z Hz. rewrite forallb_forall in H. apply H, in_seq. lia.
Qed.

Lemma dec_pad_2_length (z : Z) : 0 <= z <= 99 -> length (dec_pad 2 z) = 2%nat.
Proof.
  intros Hz.
  pose proof (bounded_check
                (fun n => Nat.eqb (length (dec_pad 2 (Z.of_nat n))) 2) 100) as H.
  specialize (H ltac:(vm_compute; reflexivity) z ltac:(lia)).
  cbv beta in H. rewrite Z2Nat.id in H by lia. now apply Nat.eqb_eq.
Qed.

Lemma dec_pad_year_length (y : Z) :
  0 <= y <= 99 -> length (dec_pad 4 (uint32 (2000 + y))) = 4%nat.
Proof.
  intros Hy.
  pose proof (bounded_check
                (fun n => Nat.eqb (length (dec_pad 4 (uint32 (2000 + Z.of_nat n)))) 4) 100)
    as H.
  specialize (H ltac:(vm_compute; reflexivity) y ltac:(lia)).
  cbv beta in H. rewrite Z2Nat.id in H by lia. now apply Nat.eqb_eq.
Qed.

Lemma board_get_timestamp_length (rtc : option RTC) (buffer : cstring) (size : nat) :
  (0 < size)%nat -> (length (board_get_timestamp rtc buffer size) <= size - 1)%nat.
Proof.
  intros Hpos. unfold board_get_timestamp.
  destruct (Nat.ltb_spec 0 size) as [_|?]; [|lia].
  destruct (size <? 20)%nat; [simpl; lia|].
  destruct rtc as [t|]; [|simpl; lia]. apply firstn_le_length.
Qed.

(** X2. With a buffer of size 0 [board_get_timestamp] writes nothing and
    the buffer keeps what it held.  With any other size the result does
    not depend on what the buffer held and never overruns it; it is empty
    when the buffer has fewer than 20 bytes or the RTC cannot be read; and
    for a calendar reading in a buffer of at least 20 bytes it is the
    complete 19-character "YYYY-MM-DD HH:MM:SS", nothing cut off. *)
Theorem timestamp_is_empty_or_complete (rtc : option RTC) (buffer : cstring) (size : nat) :
  (size = 0%nat -> board_get_timestamp rtc buffer size = buffer) /\
  ((0 < size)%nat ->
   board_get_timestamp rtc buffer size = board_get_timestamp rtc [] size /\
   (length (board_get_timestamp rtc buffer size) <= size - 1)%nat /\
   ((size < 20)%nat \/ rtc = None -> board_get_timestamp rtc buffer size = [])) /\
  (forall t, rtc = Some t -> calendar_ok t -> (20 <= size)%nat ->
     length (board_get_timestamp rtc buffer size) = 19%nat /\
     exists y mo d h mi se,
       board_get_timestamp rtc buffer size =
         y ++ txt "-" ++ mo ++ txt "-" ++ d ++ txt " " ++ h ++ txt ":" ++ mi ++ txt ":" ++ se /\
       length y = 4%nat /\ length mo = 2%nat /\ length d = 2%nat /\
       length h = 2%nat /\ length mi = 2%nat /\ length se = 2%nat).
Proof.
  split; [|split].
  - intros ->. reflexivity.
  - intros Hpos. split; [|split].
    + unfold board_get_timestamp.
      destruct (Nat.ltb_spec 0 size) as [_|?]; [reflexivity|lia].
    + exact (board_get_timestamp_length rtc buffer size Hpos).
    + unfold board_get_timestamp.
      destruct (Nat.ltb_spec 0 size) as [_|?]; [|lia].
      intros [H| ->].
      * apply Nat.ltb_lt in H. now rewrite H.
      * now destruct (size <? 20)%nat.
  - intros t -> (Hy & Hmo & Hd & Hh & Hmi & Hse) Hsize.
    unfold board_get_timestamp.
    destruct (Nat.ltb_spec size 20) as [?|_]; [lia|].
    pose proof (dec_pad_year_length (Year t) Hy) as Ly.
    pose proof (dec_pad_2_length (Month t) ltac:(lia)) as Lmo.
    pose proof (dec_pad_2_length (Date t) ltac:(lia)) as Ld.
    pose proof (dec_pad_2_length (Hours t) ltac:(lia)) as Lh.
    pose proof (dec_pad_2_length (Minutes t) ltac:(lia)) as Lmi.
    pose proof (dec_pad_2_length (Seconds t) ltac:(lia)) as Lse.
    cbv zeta.
    match goal with
    | |- context [firstn _ ?x] =>
        assert (L : length x = 19%nat)
          by (rewrite !length_app, Ly, Lmo, Ld, Lh, Lmi, Lse; reflexivity);
        rewrite (firstn_all2 (n := (size - 1)%nat) x) by lia
    end.
    split; [exact L|].
    eexists _, _, _, _, _, _. split; [reflexivity|]. repeat split; assumption.
Qed.

Lemma timestamp_is_empty_or_complete_witness :
  calendar_ok noon /\
  board_get_timestamp (Some noon) (txt "stale") 0 = txt "stale" /\
  board_get_timestamp (Some noon) (txt "stale") 19 = [] /\
  length (board_get_timestamp (Some noon) (txt "stale") 20) = 19%nat /\
  board_get_timestamp (Some noon) (txt "stale") 20 = txt "2026-10-30 12:00:00".
Proof.
  assert (H : calendar_ok noon) by (vm_compute; repeat split; discriminate).
  split; [exact H|]. split; [|split; [|split; [|reflexivity]]].
  - exact (proj1 (timestamp_is_empty_or_complete (Some noon) (txt "stale") 0) eq_refl).
  - refine (proj2 (proj2 (proj1 (proj2 (timestamp_is_empty_or_complete
                                          (Some noon) (txt "stale") 19)) _)) _);
      [apply Nat.ltb_lt; reflexivity|left; apply Nat.ltb_lt; reflexivity].
  - exact (proj1 (proj2 (proj2 (timestamp_is_empty_or_complete (Some noon) (txt "stale") 20))
                        noon eq_refl H (le_n _))).
Defined.

Lemma syslog_render_length s ts level tag message :
  length (syslog_render s ts level tag message) =
  (length (dec (syslog_get_priority s level)) + length ts + length (hostname s) +
   length (app_name s) +
   length (match tag with Some t => t | None => txt "unknown" end) +
   length (match message with Some m => m | None => [] end) + 8)%nat.
Proof.
  unfold syslog_render. rewrite !length_app.
  change (length (txt "<")) with 1%nat. change (length (txt ">")) with 1%nat.
  change (length (txt " ")) with 1%nat. change (length (txt "[")) with 1%nat.
  change (length (txt "]: ")) with 3%nat.
  destruct tag, message; lia.
Qed.

Lemma syslog_format_msg_whole s rtc size level tag message :
  (forall record,
      syslog_format_msg s rtc size level tag (Some message) = Some record ->
      (64 <= size)%nat /\ (length record < size)%nat /\
      exists envelope, record = envelope ++ txt "]: " ++ message) /\
  ((size < 64)%nat \/ (size <= length message + 8)%nat ->
   syslog_format_msg s rtc size level tag (Some message) = None).
Proof.
  unfold syslog_format_msg. split.
  - intros record H.
    destruct (Nat.ltb_spec size 64); [discriminate|].
    match type of H with
    | (if (?a <=? ?b)%nat then _ else _) = _ => destruct (Nat.leb_spec a b); [discriminate|]
    end.
    injection H as <-. split; [assumption|]. split; [assumption|].
    unfold syslog_render.
    eexists. rewrite !app_assoc. reflexivity.
  - intros [H|H].
    + apply Nat.ltb_lt in H. now rewrite H.
    + destruct (size <? 64)%nat; [reflexivity|].
      match goal with
      | |- (if (?a <=? ?b)%nat then _ else _) = _ => destruct (Nat.leb_spec a b); [reflexivity|]
      end.
      rewrite syslog_render_length in *. lia.
Qed.

(** X3. The formatter never cuts a record short: either it returns the
    complete rendering, which then is shorter than the buffer and ends
    with the whole message, or it fails; it fails for every buffer of
    fewer than 64 bytes and whenever the message alone leaves no more than
    8 bytes of the buffer. *)
Theorem format_is_all_or_nothing s rtc size level tag message :
  (forall record,
      syslog_format_msg s rtc size level tag (Some message) = Some record ->
      (64 <= size)%nat /\ (length record < size)%nat /\
      exists envelope, record = envelope ++ txt "]: " ++ message) /\
  ((size < 64)%nat \/ (size <= length message + 8)%nat ->
   syslog_format_msg s rtc size level tag (Some message) = None).
Proof. exact (syslog_format_msg_whole s rtc size level tag message). Qed.

Lemma format_is_all_or_nothing_witness :
  syslog_format_msg ready_syslog None 1024 LOG_LEVEL_INFO (Some (txt "net"))
                    (Some (repeat "a"%char 1016)) = None /\
  exists envelope,
    txt "<14> craner logger[net]: up" = envelope ++ txt "]: " ++ txt "up".
Proof.
  split.
  - apply (proj2 (format_is_all_or_nothing ready_syslog None 1024 LOG_LEVEL_INFO
                    (Some (txt "net")) (repeat "a"%char 1016))).
    right. apply Nat.leb_le. vm_compute. reflexivity.
  - apply (proj1 (format_is_all_or_nothing ready_syslog None 1024 LOG_LEVEL_INFO
                    (Some (txt "net")) (txt "up")) (txt "<14> craner logger[net]: up")
                 eq_refl).
Defined.

(** X4. A clock that cannot be read does not make the formatter fail:
    whatever formats with a reading of the RTC formats without one, and
    the record then has an empty timestamp field. *)
Theorem format_survives_clock_failure s t size level tag message record :
  syslog_format_msg s (Some t) size level tag message = Some record ->
  syslog_format_msg s None size level tag message
  = Some (syslog_render s [] level tag message).
Proof.
  unfold syslog_format_msg. intros H.
  destruct (size <? 64)%nat eqn:Hs; [discriminate|].
  match type of H with
  | (if (?a <=? ?b)%nat then _ else _) = _ => destruct (Nat.leb_spec a b); [discriminate|]
  end.
  assert (Hn : board_get_timestamp None [] 20 = []) by reflexivity.
  rewrite Hn.
  match goal with
  | |- (if (?a <=? ?b)%nat then _ else _) = _ =>
      destruct (Nat.leb_spec a b) as [Hle|_]; [|reflexivity]
  end.
  rewrite syslog_render_length in *. simpl length in Hle at 2. lia.
Qed.

Lemma format_survives_clock_failure_witness :
  syslog_format_msg ready_syslog None 1024 LOG_LEVEL_INFO (Some (txt "net")) (Some (txt "up"))
  = Some (txt "<14> craner logger[net]: up").
Proof.
  apply (format_survives_clock_failure ready_syslog noon 1024 LOG_LEVEL_INFO
           (Some (txt "net")) (Some (txt "up"))
           (txt "<14>2026-10-30 12:00:00 craner logger[net]: up")).
  reflexivity.
Defined.

(** * Further properties: dispatcher *)

Lemma logger_output_effect env level tag message s w :
  let '(r, s', w') := logger_output env level tag message s w in
  same_config s s' /\ pcbs w' = pcbs w /\
  (r = false ->
   failed_count s' = uint32 (failed_count s + 1) /\ send_count s' = send_count s) /\
  (out w' = out w \/
   (r = true /\ out w' = out w ++ [Printf (message ++ [LF])]) \/
   (exists h payload,
       udp s = Some h /\ (length payload < SYSLOG_MAX_MESSAGE_SIZE)%nat /\
       out w' = out w ++ [Sendto h payload (server s) (port s) r])).
Proof.
  unfold logger_output, logger_output_guarded, same_config.
  destruct (initialized s) eqn:Hi, (udp s) as [h|] eqn:Hu, (mutex s) as [m|] eqn:Hm;
    try (simpl; repeat split; auto; discriminate).
  destruct (level >? min_level s); [simpl; repeat split; auto; discriminate|].
  destruct (take_ok env); simpl negb; cbv iota;
    [|simpl; repeat split; auto].
  destruct (syslog_format_msg _ _ _ _ _ _) as [buffer|] eqn:Hf;
    [|simpl; repeat split; auto].
  destruct (syslog_format_msg_whole s (rtc env) SYSLOG_MAX_MESSAGE_SIZE level tag message)
    as [Hall _].
  destruct (Hall buffer Hf) as (_ & Hlen & _).
  destruct (pbuf_alloc_ok env), (pbuf_take_ok env), (udp_sendto_ok env); simpl;
    repeat split; auto; try discriminate;
    right; right; exists h, buffer; repeat split; auto.
Qed.

(** X5. One call of [logger_output] touches nothing of the client but
    the two counters, creates and removes no handle, and writes at most
    one thing: nothing, or the raw message and a newline on the local
    sink (then it returns true), or one datagram shorter than the 1024-byte
    buffer on the client's own handle to the configured server and port,
    whose acceptance is the return value.  A false return always comes
    with one more failure counted. *)
Theorem logger_output_writes_at_most_once env level tag message s w :
  let '(r, s', w') := logger_output env level tag message s w in
  same_config s s' /\ pcbs w' = pcbs w /\
  (r = false ->
   failed_count s' = uint32 (failed_count s + 1) /\ send_count s' = send_count s) /\
  (out w' = out w \/
   (r = true /\ out w' = out w ++ [Printf (message ++ [LF])]) \/
   (exists h payload,
       udp s = Some h /\ (length payload < SYSLOG_MAX_MESSAGE_SIZE)%nat /\
       out w' = out w ++ [Sendto h payload (server s) (port s) r])).
Proof. exact (logger_output_effect env level tag message s w). Qed.

Lemma logger_output_writes_at_most_once_witness :
  let '(r, s', w') :=
    logger_output lossy LOG_LEVEL_INFO (Some (txt "net")) (txt "up") ready_syslog ready_world in
  r = false /\ failed_count s' = 1 /\ send_count s' = 0 /\
  pcbs w' = [1%nat] /\ length (out w') = 1%nat.
Proof.
  pose proof (logger_output_writes_at_most_once lossy LOG_LEVEL_INFO (Some (txt "net"))
                (txt "up") ready_syslog ready_world) as H.
  destruct (logger_output lossy LOG_LEVEL_INFO (Some (txt "net")) (txt "up")
              ready_syslog ready_world) as [[r s'] w'] eqn:E.
  vm_compute in E. injection E as <- <- <-.
  destruct H as (_ & Hp & Hf & _). destruct (Hf eq_refl) as [H1 H2].
  repeat split; assumption || reflexivity.
Defined.

(** X6. A message that leaves no more than 8 bytes of the 1024-byte
    buffer for the envelope is never transmitted: an initialized client
    that lets the level through and obtains the guard counts a failure,
    returns false and writes nothing, neither datagram nor local line. *)
Theorem oversize_message_is_dropped env level tag message s w :
  ready s -> level <= min_level s -> take_ok env = true ->
  (SYSLOG_MAX_MESSAGE_SIZE <= length message + 8)%nat ->
  logger_output env level tag message s w = (false, incr_failed s, w).
Proof.
  intros Hr Hl Ht Hlong.
  rewrite (logger_output_ready _ _ _ _ _ _ Hr), Ht.
  destruct (Z.gtb_spec level (min_level s)); [lia|]. simpl negb. cbv iota.
  destruct (ready_cases s Hr) as (h & m & Hi & Hu & Hm).
  unfold logger_output_guarded. rewrite Hi, Hu.
  now rewrite (proj2 (syslog_format_msg_whole s (rtc env) SYSLOG_MAX_MESSAGE_SIZE
                        level tag message) (or_intror Hlong)).
Qed.

Lemma oversize_message_is_dropped_witness :
  logger_output calm LOG_LEVEL_INFO (Some (txt "net")) (repeat "a"%char 1016)
                ready_syslog ready_world
  = (false, incr_failed ready_syslog, ready_world).
Proof.
  apply (oversize_message_is_dropped calm LOG_LEVEL_INFO (Some (txt "net"))
           (repeat "a"%char 1016) ready_syslog ready_world ready_syslog_ready).
  - vm_compute. discriminate.
  - reflexivity.
  - apply Nat.leb_le. vm_compute. reflexivity.
Defined.

(** X7. Setting the minimum level and reading it back: with the guard
    in place and obtained the value read is the value set; before
    [init_logger] has created the guard, or when the guard is not
    obtained, the call is ignored; and once a minimum is set an initialized
    client answers every level above it with a successful no-op. *)
Theorem min_level_set_then_get take min s :
  (mutex s <> None -> logger_get_min_level (logger_set_min_level true min s) = min) /\
  (mutex s = None \/ take = false -> logger_set_min_level take min s = s) /\
  (ready s ->
   forall env level tag message w,
     level > min ->
     logger_output env level tag message (logger_set_min_level true min s) w
     = (true, logger_set_min_level true min s, w)).
Proof.
  unfold logger_set_min_level, logger_get_min_level. split; [|split].
  - intros H. destruct (mutex s); [reflexivity|congruence].
  - intros [H|H]; [now rewrite H|]. rewrite H. now destruct (mutex s).
  - intros Hr env level tag message w Hl.
    destruct (ready_cases s Hr) as (h & m & Hi & Hu & Hm). rewrite Hm. simpl negb. cbv iota.
    assert (Hr' : ready (set_min_level min s)).
    { repeat split; simpl; congruence. }
    rewrite (logger_output_ready _ _ _ _ _ _ Hr').
    change (min_level (set_min_level min s)) with min.
    destruct (Z.gtb_spec level min); [reflexivity|lia].
Qed.

Lemma min_level_set_then_get_witness :
  logger_get_min_level (logger_set_min_level true LOG_LEVEL_ERROR ready_syslog)
    = LOG_LEVEL_ERROR /\
  logger_set_min_level true LOG_LEVEL_ERROR logger_syslog = logger_syslog /\
  logger_output calm LOG_LEVEL_INFO None (txt "x")
                (logger_set_min_level true LOG_LEVEL_ERROR ready_syslog) ready_world
  = (true, logger_set_min_level true LOG_LEVEL_ERROR ready_syslog, ready_world).
Proof.
  destruct (min_level_set_then_get true LOG_LEVEL_ERROR ready_syslog) as (H1 & _ & H3).
  destruct (min_level_set_then_get true LOG_LEVEL_ERROR logger_syslog) as (_ & H2 & _).
  split; [apply H1; discriminate|].
  split; [apply H2; left; reflexivity|].
  apply (H3 ready_syslog_ready). reflexivity.
Defined.

(** * Further properties: configuration *)

Lemma uint32_range (z : Z) : 0 <= uint32 z < 2 ^ 32.
Proof. unfold uint32. apply Z.mod_pos_bound. lia. Qed.

Lemma logger_output_guarded_config env level tag message s w :
  same_config s (snd (fst (logger_output_guarded env level tag message s w))).
Proof.
  unfold logger_output_guarded, same_config.
  destruct (initialized s) eqn:Hi, (udp s) as [h|] eqn:Hu; simpl; auto 10.
  destruct (syslog_format_msg _ _ _ _ _ _); simpl; auto 10.
  destruct (pbuf_alloc_ok env), (pbuf_take_ok env), (udp_sendto_ok env); simpl; auto 10.
Qed.

Lemma counted_keeps_config_inv s s' :
  same_config s s' ->
  counted_once s s' \/ (send_count s' = send_count s /\ failed_count s' = failed_count s) ->
  config_inv s -> config_inv s'.
Proof.
  unfold same_config, config_inv.
  intros (_ & Hp & Hf & _ & Hh & Ha & _) Hc (Cf & Ch & Ca & Cp & Cs & Cfl).
  rewrite Hp, Hf, Hh, Ha.
  pose proof (uint32_range (send_count s + 1)).
  pose proof (uint32_range (failed_count s + 1)).
  repeat split; try assumption; try lia;
    destruct Hc as [[[H1 H2]|[H1 H2]]|[H1 H2]]; rewrite ?H1, ?H2; lia.
Qed.

Lemma logger_output_config_inv env level tag message s w :
  config_inv s -> config_inv (snd (fst (logger_output env level tag message s w))).
Proof.
  intros H.
  pose proof (logger_output_effect env level tag message s w) as Hw.
  assert (Hc : let s' := snd (fst (logger_output env level tag message s w)) in
               counted_once s s' \/
               (send_count s' = send_count s /\ failed_count s' = failed_count s)).
  { unfold logger_output.
    destruct (initialized s), (udp s), (mutex s); simpl; auto.
    destruct (level >? min_level s); simpl; auto.
    destruct (take_ok env); simpl.
    - left. apply logger_output_guarded_counts.
    - left. right. split; reflexivity. }
  destruct (logger_output env level tag message s w) as [[r s'] w']. simpl in *.
  exact (counted_keeps_config_inv s s' (proj1 Hw) Hc H).
Qed.

Lemma init_logger_guarded_kept env addr p s w :
  kept_by_init s (snd (fst (init_logger_guarded env addr p s w))) /\
  server (snd (fst (init_logger_guarded env addr p s w))) = addr /\
  port (snd (fst (init_logger_guarded env addr p s w))) = uint16 p /\
  mutex (snd (fst (init_logger_guarded env addr p s w))) = mutex s.
Proof.
  unfold init_logger_guarded, cleanup_existing, open_handle, udp_new, kept_by_init.
  destruct (initialized s), (udp s), (udp_new_ok env), (udp_bind_ok env); simpl;
    repeat split; reflexivity.
Qed.

Lemma init_logger_kept env ipstr p s w :
  kept_by_init s (snd (fst (init_logger env ipstr p s w))) /\
  (port (snd (fst (init_logger env ipstr p s w))) = port s \/
   (1 <= p <= 65535 /\ port (snd (fst (init_logger env ipstr p s w))) = p)).
Proof.
  assert (Hrefl : kept_by_init s s) by (repeat split; reflexivity).
  unfold init_logger.
  destruct ipstr as [ip|]; [|simpl; auto].
  destruct (Z.leb_spec p 0); [simpl; auto|].
  destruct (Z.gtb_spec p 65535); [simpl; auto|]. simpl orb. cbv iota.
  destruct (ipaddr_aton env ip) as [addr|]; [|simpl; auto].
  set (s0 := match mutex s with Some _ => s | None => set_mutex (mutex_create env) s end).
  assert (Hs0 : kept_by_init s s0 /\ port s0 = port s).
  { subst s0. destruct (mutex s); split; auto; repeat split; reflexivity. }
  destruct Hs0 as [Hk0 Hp0].
  destruct (mutex s0); [|simpl; auto].
  destruct (init_take_ok env); simpl negb; cbv iota; [|simpl; auto].
  destruct (init_logger_guarded_kept env addr p s0 w) as (Hk & _ & Hp & _).
  split.
  - unfold kept_by_init in *.
    destruct Hk0 as (<- & <- & <- & <- & <- & <-). exact Hk.
  - right. split; [lia|]. rewrite Hp. unfold uint16. apply Z.mod_small. lia.
Qed.

Lemma init_logger_config_inv env ipstr p s w :
  config_inv s -> config_inv (snd (fst (init_logger env ipstr p s w))).
Proof.
  destruct (init_logger_kept env ipstr p s w) as [(Hf & _ & Hh & Ha & Hs & Hfl) Hp].
  unfold config_inv. intros (Cf & Ch & Ca & Cp & Cs & Cfl).
  rewrite Hf, Hh, Ha, Hs, Hfl.
  repeat split; try assumption; try lia; destruct Hp as [->|[? ->]]; lia.
Qed.

Lemma client_emit_config_inv level tag message c :
  config_inv (syslog c) -> config_inv (syslog (snd (client_emit level tag message c))).
Proof.
  intros H. unfold client_emit.
  pose proof (logger_output_config_inv (oracle c (tick c)) level tag message
                (syslog c) (world c) H) as Hs.
  destruct (logger_output _ _ _ _ _ _) as [[r s'] w']. exact Hs.
Qed.

Lemma step_config_inv x y : step x y -> config_inv (fst x) -> config_inv (fst y).
Proof.
  intros Hstep; destruct Hstep; simpl; intros Hinv.
  - pose proof (init_logger_config_inv env ipstr p s w Hinv) as Hs.
    now rewrite H in Hs.
  - pose proof (logger_output_config_inv env level tag message s w Hinv) as Hs.
    now rewrite H in Hs.
  - pose proof (logger_output_guarded_config env level tag message s w) as Hc.
    pose proof (logger_output_guarded_counts env level tag message s w) as Hn.
    rewrite H0 in Hc, Hn. simpl in Hc, Hn.
    exact (counted_keeps_config_inv s s' Hc (or_introl Hn) Hinv).
  - apply (counted_keeps_config_inv s (incr_failed s)); auto.
    + repeat split; reflexivity.
    + left. right. split; reflexivity.
  - destruct format; unfold logger_printf in H;
      try (injection H as _ <- _; exact Hinv).
    pose proof (logger_output_config_inv env level
                  (Some match tag with Some t => t | None => txt "printf" end)
                  (vsnprintf 512 text) s w Hinv) as Hs.
    now rewrite H in Hs.
  - exact (logger_printf_line_disp Client client_emit
             (fun c => config_inv (syslog c)) _ _ _ _ _ _ _ _ _ _
             (fun lvl tg body c Hc => client_emit_config_inv lvl tg body c Hc) H Hinv).
  - unfold logger_set_min_level. destruct (mutex s); [|exact Hinv].
    destruct take; exact Hinv.
  - unfold logger_reset_stats. destruct (mutex s); [|exact Hinv].
    destruct take; [|exact Hinv].
    destruct Hinv as (Cf & Ch & Ca & Cp & Cs & Cfl).
    repeat split; simpl; try assumption; try lia.
Qed.

Lemma reachable_config_inv s w :
  reachable (s, w) -> config_inv s.
Proof.
  intros H. change (config_inv (fst (s, w))).
  induction H as [|x y _ IH Hstep].
  - unfold config_inv. simpl. repeat split; try reflexivity; lia.
  - exact (step_config_inv x y Hstep IH).
Qed.

(** X8. Whatever the entry points are called with and in whatever order,
    the facility stays USER, the host and application names stay "craner"
    and "logger", the port stays within 1..65535 and both counters stay
    within the range of a 32-bit unsigned integer. *)
Theorem configuration_stays_in_range s w :
  reachable (s, w) -> config_inv s.
Proof. exact (reachable_config_inv s w). Qed.

Lemma configuration_stays_in_range_witness :
  reachable (configured_syslog, configured_world) /\ config_inv configured_syslog.
Proof.
  split; [exact configured_reachable|].
  exact (configuration_stays_in_range _ _ configured_reachable).
Defined.

Lemma user_priority_digits (s : Syslog_t) (level : log_level_t) :
  facility s = SYSLOG_FACILITY_USER ->
  (length (dec (syslog_get_priority s level)) <= 2)%nat.
Proof.
  intros Hf. unfold syslog_get_priority. rewrite Hf, syslog_get_severity_table.
  destruct level as [|[[[p|p|]|[p|p|]|]|[[p|p|]|[p|p|]|]|]|p]; vm_compute; lia.
Qed.

Lemma syslog_format_msg_budget s w rtc level tag message :
  reachable (s, w) ->
  (length (match tag with Some t => t | None => txt "unknown" end) + length message
   <= 982)%nat ->
  syslog_format_msg s rtc SYSLOG_MAX_MESSAGE_SIZE level tag (Some message)
  = Some (syslog_render s (board_get_timestamp rtc [] 20) level tag (Some message)).
Proof.
  intros Hr Hlen.
  destruct (reachable_config_inv s w Hr) as (Hf & Hh & Ha & _).
  unfold syslog_format_msg.
  change (SYSLOG_MAX_MESSAGE_SIZE <? 64)%nat with false. cbv iota zeta.
  match goal with
  | |- (if (?a <=? ?b)%nat then _ else _) = _ =>
      destruct (Nat.leb_spec a b) as [Hle|_]; [|reflexivity]
  end.
  rewrite syslog_render_length, Hh, Ha in Hle.
  pose proof (user_priority_digits s level Hf).
  pose proof (board_get_timestamp_length rtc [] 20 ltac:(lia)) as Hts.
  change (length (txt "craner")) with 6%nat in Hle.
  change (length (txt "logger")) with 6%nat in Hle.
  change SYSLOG_MAX_MESSAGE_SIZE with 1024%nat in Hle.
  simpl Nat.sub in Hts. destruct tag; lia.
Qed.

(** X9. In every state the client can reach, a record whose tag and
    message together have at most 982 bytes always fits the 1024-byte
    buffer: formatting succeeds, with or without a reading of the clock. *)
Theorem format_succeeds_within_budget s w rtc level tag message :
  reachable (s, w) ->
  (length (match tag with Some t => t | None => txt "unknown" end) + length message
   <= 982)%nat ->
  syslog_format_msg s rtc SYSLOG_MAX_MESSAGE_SIZE level tag (Some message)
  = Some (syslog_render s (board_get_timestamp rtc [] 20) level tag (Some message)).
Proof. exact (syslog_format_msg_budget s w rtc level tag message). Qed.

Lemma format_succeeds_within_budget_witness :
  reachable (configured_syslog, configured_world) /\
  syslog_format_msg configured_syslog (Some noon) SYSLOG_MAX_MESSAGE_SIZE LOG_LEVEL_ERROR
                    (Some (txt "net")) (Some (txt "link down"))
  = Some (txt "<11>2026-10-30 12:00:00 craner logger[net]: link down").
Proof.
  split; [exact configured_reachable|].
  apply (format_succeeds_within_budget configured_syslog configured_world (Some noon)
           LOG_LEVEL_ERROR (Some (txt "net")) (txt "link down") configured_reachable).
  apply Nat.leb_le. vm_compute. reflexivity.
Defined.

(** X10. [logger_printf] on an initialized client succeeds whenever the
    level passes the filter, the guard is obtained and lwIP accepts the
    datagram, provided the tag has at most 471 bytes: the text is cut to
    511 bytes, which with such a tag always fits the record.  It returns
    true, counts one message sent and hands exactly one datagram to lwIP,
    tagged "printf" when the caller gave no tag. *)
Theorem logger_printf_succeeds env level tag text s w :
  reachable (s, w) -> ready s -> level <= min_level s -> all_ok_env env ->
  (length (match tag with Some t => t | None => txt "printf" end) <= 471)%nat ->
  exists h,
    udp s = Some h /\
    logger_printf env level tag (Rendered text) s w =
    (true, incr_sent s,
     sendto h
       (syslog_render s (board_get_timestamp (rtc env) [] 20) level
          (Some match tag with Some t => t | None => txt "printf" end)
          (Some (vsnprintf 512 text)))
       (server s) (port s) true w).
Proof.
  intros Hreach Hr Hl (Ht & Ha & Hk & Hs) Htag.
  destruct (ready_cases s Hr) as (h & m & Hi & Hu & Hm).
  exists h. split; [exact Hu|].
  unfold logger_printf. cbv zeta.
  rewrite (logger_output_ready _ _ _ _ _ _ Hr), Ht.
  destruct (Z.gtb_spec level (min_level s)); [lia|]. simpl negb. cbv iota.
  pose proof (vsnprintf_length 512 text) as Hv. simpl Nat.sub in Hv.
  assert (Hfit : (length (match Some match tag with Some t => t | None => txt "printf" end
                          with Some t => t | None => txt "unknown" end)
                  + length (vsnprintf 512 text) <= 982)%nat) by (cbv iota; lia).
  pose proof (logger_output_guarded_transport env level _ _ s w h _ Hi Hu
                (syslog_format_msg_budget s w (rtc env) level
                   (Some match tag with Some t => t | None => txt "printf" end)
                   (vsnprintf 512 text) Hreach Hfit)) as E.
  rewrite Ha, Hk, Hs in E. exact E.
Qed.

Lemma logger_printf_succeeds_witness :
  exists h,
    udp configured_syslog = Some h /\
    logger_printf calm LOG_LEVEL_ERROR None (Rendered (txt "link down"))
                  configured_syslog configured_world =
    (true, incr_sent configured_syslog,
     sendto h
       (syslog_render configured_syslog (board_get_timestamp (rtc calm) [] 20) LOG_LEVEL_ERROR
          (Some (txt "printf")) (Some (vsnprintf 512 (txt "link down"))))
       (server configured_syslog) (port configured_syslog) true configured_world).
Proof.
  apply (logger_printf_succeeds calm LOG_LEVEL_ERROR None (txt "link down")
           configured_syslog configured_world configured_reachable).
  - repeat split; discriminate.
  - vm_compute. discriminate.
  - repeat split.
  - apply Nat.leb_le. vm_compute. reflexivity.
Defined.

(** X11. A call of [init_logger] with a well-formed address, a port in
    1..65535, the guard available and lwIP granting and binding a control
    block returns true and leaves the client initialized on the new
    endpoint with exactly one live handle and [logger_is_initialized]
    answering 1; the counters, the minimum level, the facility and the
    names are what they were: re-initializing does not reset them. *)
Theorem init_logger_configures env ip p addr s w :
  client_inv s w ->
  1 <= p <= 65535 -> ipaddr_aton env ip = Some addr ->
  (mutex s <> None \/ mutex_create env <> None) ->
  init_take_ok env = true -> udp_new_ok env = true -> udp_bind_ok env = true ->
  let '(r, s', w') := init_logger env (Some ip) p s w in
  r = true /\ ready s' /\ logger_is_initialized s' = 1 /\
  server s' = addr /\ port s' = p /\ kept_by_init s s' /\
  exists h, udp s' = Some h /\ pcbs w' = [h].
Proof.
  intros Hinv Hp Hip Hmx Ht Hnew Hbind.
  destruct (init_logger_kept env (Some ip) p s w) as [Hk Hport].
  pose proof (init_logger_inv env (Some ip) p s w) as Hpres.
  unfold init_logger in *. rewrite Hip in *.
  destruct (Z.leb_spec p 0); [lia|].
  destruct (Z.gtb_spec p 65535); [lia|]. simpl orb in *. cbv iota in *.
  set (s0 := match mutex s with Some _ => s | None => set_mutex (mutex_create env) s end) in *.
  assert (Hm0 : mutex s0 <> None).
  { subst s0. destruct (mutex s) eqn:E; simpl; [congruence|]. destruct Hmx; congruence. }
  assert (Hinv0 : client_inv s0 w) by (subst s0; destruct (mutex s); exact Hinv).
  destruct (mutex s0) as [m|] eqn:Em; [|congruence].
  rewrite Ht in *. simpl negb in *. cbv iota in *.
  pose proof (init_logger_guarded_inv env addr p s0 w Hinv0) as Hg.
  destruct (init_logger_guarded_kept env addr p s0 w) as (_ & Hsv & Hpt & Hmg).
  assert (Hr : fst (fst (init_logger_guarded env addr p s0 w)) = true).
  { unfold init_logger_guarded.
    destruct (cleanup_existing s0 w) as [s1 w1].
    pose proof (open_handle_spec env (set_port (uint16 p) (set_server addr s1))) as Ho.
    unfold open_handle, udp_new in *. rewrite Hnew, Hbind. reflexivity. }
  destruct (init_logger_guarded env addr p s0 w) as [[r s'] w'] eqn:E.
  simpl in *. subst r.
  destruct Hg as ((Hiff & Hpc) & Hok & _).
  destruct (Hok eq_refl) as (Hi' & _ & _).
  assert (Hu' : udp s' <> None) by (apply Hiff; exact Hi').
  split; [reflexivity|]. split; [repeat split; congruence|].
  split; [unfold logger_is_initialized; now rewrite Hi'|].
  split; [exact Hsv|].
  split; [rewrite Hpt; unfold uint16; apply Z.mod_small; lia|].
  split; [exact Hk|].
  destruct (udp s') as [h|]; [|congruence]. exists h. auto.
Qed.

Lemma init_logger_configures_witness :
  let '(r, s', w') :=
    init_logger init_env2 (Some (txt "10.0.0.1")) 1514 configured_syslog configured_world in
  r = true /\ ready s' /\ logger_is_initialized s' = 1 /\
  server s' = 167772161 /\ port s' = 1514 /\ kept_by_init configured_syslog s' /\
  exists h, udp s' = Some h /\ pcbs w' = [h].
Proof.
  apply (init_logger_configures init_env2 (txt "10.0.0.1") 1514 167772161
           configured_syslog configured_world).
  - exact (reachable_inv _ configured_reachable).
  - lia.
  - reflexivity.
  - left. discriminate.
  - reflexivity.
  - reflexivity.
  - reflexivity.
Defined.

Lemma init_logger_enters_guard env ip p addr s w :
  1 <= p <= 65535 -> ipaddr_aton env ip = Some addr ->
  (mutex s <> None \/ mutex_create env <> None) ->
  init_take_ok env = true ->
  init_logger env (Some ip) p s w =
  init_logger_guarded env addr p
    (match mutex s with Some _ => s | None => set_mutex (mutex_create env) s end) w.
Proof.
  intros Hp Hip Hmx Ht. unfold init_logger. rewrite Hip.
  destruct (Z.leb_spec p 0); [lia|].
  destruct (Z.gtb_spec p 65535); [lia|]. simpl orb. cbv iota zeta.
  destruct (mutex s) as [m|] eqn:Em.
  - rewrite Em, Ht. reflexivity.
  - simpl mutex. destruct (mutex_create env) as [m|]; [|destruct Hmx; congruence].
    rewrite Ht. reflexivity.
Qed.

(** X12. A reconfiguration that gets as far as the guard and then fails
    to create or bind the control block does not keep the old
    configuration: the call returns false, the old handle is gone, the new
    address and port are stored, [logger_is_initialized] answers 0, and
    from then on [logger_output] writes every message to the local sink
    and returns true, whatever the level. *)
Theorem failed_reconfiguration_degrades env ip p addr s w :
  client_inv s w ->
  1 <= p <= 65535 -> ipaddr_aton env ip = Some addr ->
  (mutex s <> None \/ mutex_create env <> None) ->
  init_take_ok env = true ->
  udp_new_ok env && udp_bind_ok env = false ->
  let '(r, s', w') := init_logger env (Some ip) p s w in
  r = false /\ logger_is_initialized s' = 0 /\ pcbs w' = [] /\
  server s' = addr /\ port s' = p /\
  forall env' level tag message w'',
    logger_output env' level tag message s' w'' = (true, s', printf (message ++ [LF]) w'').
Proof.
  intros Hinv Hp Hip Hmx Ht Hfail.
  rewrite (init_logger_enters_guard env ip p addr s w Hp Hip Hmx Ht).
  set (s0 := match mutex s with Some _ => s | None => set_mutex (mutex_create env) s end).
  assert (Hinv0 : client_inv s0 w) by (subst s0; destruct (mutex s); exact Hinv).
  pose proof (init_logger_guarded_inv env addr p s0 w Hinv0) as Hg.
  destruct (init_logger_guarded_kept env addr p s0 w) as (_ & Hsv & Hpt & _).
  destruct (init_logger_guarded env addr p s0 w) as [[r s'] w']. simpl in *.
  destruct Hg as (_ & _ & Hf). destruct (Hf Hfail) as (-> & Hi & Hu & Hpc).
  split; [reflexivity|].
  split; [unfold logger_is_initialized; now rewrite Hi|].
  split; [exact Hpc|]. split; [exact Hsv|].
  split; [rewrite Hpt; unfold uint16; apply Z.mod_small; lia|].
  intros env' level tag message w''. unfold logger_output. now rewrite Hi.
Qed.

Lemma failed_reconfiguration_degrades_witness :
  let '(r, s', w') :=
    init_logger init_env_no_pcb (Some (txt "10.0.0.1")) 1514
                configured_syslog configured_world in
  r = false /\ logger_is_initialized s' = 0 /\ pcbs w' = [] /\
  server s' = 167772161 /\ port s' = 1514 /\
  forall env' level tag message w'',
    logger_output env' level tag message s' w'' = (true, s', printf (message ++ [LF]) w'').
Proof.
  apply (failed_reconfiguration_degrades init_env_no_pcb (txt "10.0.0.1") 1514 167772161
           configured_syslog configured_world).
  - exact (reachable_inv _ configured_reachable).
  - lia.
  - reflexivity.
  - left. discriminate.
  - reflexivity.
  - reflexivity.
Defined.

(** X13. Until [init_logger] has succeeded the dispatcher is a plain
    printer: in any state that is not initialized [logger_printf] returns
    true, changes neither the counters nor anything else of the client,
    and writes the text, cut to 511 bytes, and a newline to the local sink;
    a NULL format or an encoding error returns false and writes nothing. *)
Theorem logger_printf_before_init env level tag format s w :
  initialized s = false ->
  logger_printf env level tag format s w =
  match format with
  | Rendered text => (true, s, printf (vsnprintf 512 text ++ [LF]) w)
  | _ => (false, s, w)
  end /\
  (forall text, (length (vsnprintf 512 text ++ [LF]) <= 512)%nat).
Proof.
  intros Hi. split.
  - destruct format; try reflexivity.
    unfold logger_printf, logger_output. now rewrite Hi.
  - intros text. pose proof (vsnprintf_length 512 text) as H.
    rewrite length_app. simpl in *. lia.
Qed.

Lemma logger_printf_before_init_witness :
  logger_printf calm LOG_LEVEL_INFO None (Rendered (txt "boot")) logger_syslog (mkWorld [] [])
  = (true, logger_syslog, mkWorld [] [Printf (txt "boot" ++ [LF])]).
Proof.
  apply (proj1 (logger_printf_before_init calm LOG_LEVEL_INFO None (Rendered (txt "boot"))
                  logger_syslog (mkWorld [] []) eq_refl)).
Defined.

(** * Further properties: line accumulator *)

Section RecordBounds.

Variable D : Type.
Variable emit : log_level_t -> option cstring -> cstring -> D -> bool * D.
Variable level : log_level_t.
Variable tag : option cstring.

(** A property of record bodies that the records handed over so far
    have, and that is kept when one more body with it is handed over. *)
Variable Q : cstring -> Prop.

Lemma do_emit_bodies_keep lvl tg body (a : Acc D) :
  Q body -> Forall (fun r => Q (rec_body r)) (emitted a) ->
  Forall (fun r => Q (rec_body r)) (emitted (do_emit emit lvl tg body a)).
Proof.
  intros Hb Ha. unfold do_emit. destruct (all_ok a); [|exact Ha].
  destruct (emit _ _ _ _). simpl. apply Forall_app. split; [exact Ha|].
  constructor; [exact Hb|constructor].
Qed.

Lemma attr_flush_bodies_keep (a : Acc D) :
  Q (line_buf (pend a)) -> Forall (fun r => Q (rec_body r)) (emitted a) ->
  Forall (fun r => Q (rec_body r)) (emitted (attr_flush emit level tag a)).
Proof.
  intros Hb Ha. unfold attr_flush.
  destruct (0 <? line_len (pend a))%nat; [|exact Ha].
  destruct (attr_changed level tag (pend a)); [|exact Ha].
  apply (do_emit_bodies_keep _ _ _ a Hb Ha).
Qed.

Lemma end_of_line_bodies_keep (a : Acc D) :
  Q (line_buf (pend a)) -> Forall (fun r => Q (rec_body r)) (emitted a) ->
  Forall (fun r => Q (rec_body r)) (emitted (end_of_line emit a)).
Proof. intros Hb Ha. apply (do_emit_bodies_keep _ _ _ a Hb Ha). Qed.

(** The slices are cut from the first [chunk_len] bytes of [p]. *)
Lemma slice_loop_bodies_keep fuel : forall p chunk_len (a : Acc D) p2 cl2 a2,
  (forall k, Q (firstn LINE_MAX (skipn k (firstn chunk_len p)))) ->
  Forall (fun r => Q (rec_body r)) (emitted a) ->
  slice_loop emit level tag fuel p chunk_len a = Some (p2, cl2, a2) ->
  Forall (fun r => Q (rec_body r)) (emitted a2) /\
  exists k, firstn cl2 p2 = skipn k (firstn chunk_len p).
Proof.
  induction fuel as [|fuel IH]; intros p chunk_len a p2 cl2 a2 Hq Ha;
    rewrite slice_loop_unfold;
    destruct (Nat.ltb_spec LINE_MAX chunk_len) as [Hlt|Hge]; intros H; try discriminate;
    try (injection H as <- <- <-; split; [exact Ha|exists 0%nat; reflexivity]).
  assert (Hcut : firstn (chunk_len - LINE_MAX) (skipn LINE_MAX p)
                 = skipn LINE_MAX (firstn chunk_len p)).
  { now rewrite skipn_firstn_comm. }
  assert (Hq' : forall k, Q (firstn LINE_MAX
                               (skipn k (firstn (chunk_len - LINE_MAX) (skipn LINE_MAX p))))).
  { intros k. rewrite Hcut, skipn_skipn. apply Hq. }
  assert (Ha' : Forall (fun r => Q (rec_body r))
                  (emitted (do_emit emit level (tag_or_printf tag) (firstn LINE_MAX p) a))).
  { apply do_emit_bodies_keep; [|exact Ha].
    specialize (Hq 0%nat). simpl skipn in Hq.
    rewrite firstn_firstn in Hq.
    now replace (Nat.min LINE_MAX chunk_len) with LINE_MAX in Hq by lia. }
  destruct (IH _ _ _ _ _ _ Hq' Ha' H) as [Ha2 [k Hk]].
  split; [exact Ha2|]. exists (k + LINE_MAX)%nat.
  now rewrite Hk, Hcut, skipn_skipn.
Qed.

End RecordBounds.

Lemma strpbrk_skipn_none (n : nat) (p : cstring) :
  strpbrk p = None -> strpbrk (skipn n p) = None.
Proof.
  revert n. induction p as [|c p IH]; intros [|n] H; simpl in *; auto.
  destruct (is_term c); [discriminate|].
  destruct (strpbrk p); [discriminate|]. now apply IH.
Qed.

Lemma strpbrk_none_app (a b : cstring) :
  strpbrk a = None -> strpbrk b = None -> strpbrk (a ++ b) = None.
Proof. intros Ha Hb. now rewrite (strpbrk_app_none a b Ha), Hb. Qed.

Section RecordInvariant.

Variable D : Type.
Variable emit : log_level_t -> option cstring -> cstring -> D -> bool * D.
Variable level : log_level_t.
Variable tag : option cstring.

Variable Q : cstring -> Prop.
Hypothesis Q_nil : Q [].
Hypothesis Q_slice : forall z, strpbrk z = None -> Q (firstn LINE_MAX z).
Hypothesis Q_app :
  forall buf piece,
    Q buf -> strpbrk piece = None -> (length buf + length piece <= LINE_MAX)%nat ->
    Q (buf ++ piece).


Lemma make_room_bodies_keep p chunk_len (a : Acc D) p2 cl2 a2 :
  strpbrk (firstn chunk_len p) = None ->
  Q (line_buf (pend a)) -> Forall (fun r => Q (rec_body r)) (emitted a) ->
  make_room emit level tag p chunk_len a = Some (p2, cl2, a2) ->
  Q (line_buf (pend a2)) /\ Forall (fun r => Q (rec_body r)) (emitted a2) /\
  strpbrk (firstn cl2 p2) = None.
Proof.
  intros Hnt Hb Ha. unfold make_room.
  destruct (LINE_MAX - line_len (pend a) <? chunk_len)%nat.
  - intros H.
    match type of H with
    | slice_loop _ _ _ _ _ _ ?x = _ =>
        assert (Hx : Q (line_buf (pend x)) /\ Forall (fun r => Q (rec_body r)) (emitted x));
        [|destruct (slice_loop_total D emit level tag chunk_len p chunk_len x (le_n _))
            as (p2' & cl2' & a2' & E & _ & _ & _ & Hp & _);
          destruct (slice_loop_bodies_keep D emit level tag Q chunk_len p chunk_len x
                      p2 cl2 a2) as [Ha2 [k Hk]]; auto]
    end.
    + destruct (0 <? line_len (pend a))%nat; [|auto].
      split; [exact Q_nil|].
      apply (do_emit_bodies_keep D emit Q _ _ _ a Hb Ha).
    + intros k. apply Q_slice, strpbrk_skipn_none, Hnt.
    + apply Hx.
    + rewrite E in H. injection H as <- <- <-.
      rewrite Hp. split; [apply Hx|]. split; [exact Ha2|].
      rewrite Hk. now apply strpbrk_skipn_none.
  - intros H. injection H as <- <- <-. auto.
Qed.

Lemma line_loop_bodies_keep fuel : forall p (a r : Acc D),
  (line_len (pend a) <= LINE_MAX)%nat ->
  Q (line_buf (pend a)) -> Forall (fun r => Q (rec_body r)) (emitted a) ->
  line_loop emit level tag fuel p a = Some r ->
  Q (line_buf (pend r)) /\ Forall (fun r => Q (rec_body r)) (emitted r).
Proof.
  induction fuel as [|fuel IH]; intros [|c p] a r Hl Hb Ha H;
    try (rewrite line_loop_nil in H; injection H as <-; auto); try discriminate.
  rewrite line_loop_step in H.
  destruct (attr_flush_held D emit level tag a) as [_ Hl1].
  pose proof (attr_flush_bodies_keep D emit level tag Q a Hb Ha) as Ha1.
  assert (Hb1 : Q (line_buf (pend (attr_flush emit level tag a)))).
  { unfold attr_flush. destruct (0 <? line_len (pend a))%nat; [|exact Hb].
    destruct (attr_changed level tag (pend a)); [exact Q_nil|exact Hb]. }
  destruct (attr_set_buf D level tag (attr_flush emit level tag a)) as [Hb2 He2].
  set (a1 := attr_set level tag (attr_flush emit level tag a)) in *.
  rewrite <- Hb2 in Hb1. rewrite <- He2 in Ha1.
  assert (Hl2 : (line_len (pend a1) <= LINE_MAX)%nat).
  { unfold line_len in *. rewrite Hb2. lia. }
  set (cl := match strpbrk (c :: p) with Some i => i | None => length (c :: p) end) in *.
  assert (Hnt : strpbrk (firstn cl (c :: p)) = None).
  { subst cl. destruct (strpbrk (c :: p)) as [i|] eqn:Hnl.
    - now destruct (strpbrk_bound _ _ Hnl) as (_ & _ & _ & _ & _ & Hn).
    - now rewrite firstn_all. }
  destruct (make_room_total D emit level tag (c :: p) cl a1 Hl2)
    as (p2 & cl2 & a2 & E & Hs & Hfit & Hle).
  destruct (make_room_bodies_keep (c :: p) cl a1 p2 cl2 a2 Hnt Hb1 Ha1 E)
    as (Hb3 & Ha3 & Hnt2).
  rewrite E in H. cbv zeta in H.
  set (a3 := append_chunk (firstn cl2 p2) a2) in *.
  assert (Hb4 : Q (line_buf (pend a3))).
  { simpl. apply Q_app; auto. rewrite length_firstn. unfold line_len in Hfit. lia. }
  assert (Ha4 : Forall (fun r => Q (rec_body r)) (emitted a3)) by exact Ha3.
  destruct (strpbrk (c :: p)) as [i|].
  - refine (IH _ (end_of_line emit a3) r _ _ _ H).
    + apply Nat.le_0_l.
    + exact Q_nil.
    + exact (end_of_line_bodies_keep D emit Q a3 Hb4 Ha4).
  - rewrite Hs in H. subst cl. rewrite skipn_all, line_loop_nil in H.
    injection H as <-. auto.
Qed.

End RecordInvariant.



(** X15. Records are lines: when the pending line holds no CR or LF,
    no record a call hands to [logger_output] holds one, and neither does
    the line left pending. *)
Theorem records_hold_no_terminator (D : Type)
        (emit : log_level_t -> option cstring -> cstring -> D -> bool * D)
        env level tag format l d ok l' d' rs :
  (line_len l <= LINE_MAX)%nat ->
  strpbrk (line_buf l) = None ->
  logger_printf_line emit env level tag format l d = Some (ok, l', d', rs) ->
  strpbrk (line_buf l') = None /\ no_terminator rs.
Proof.
  intros Hl Hnt E. unfold no_terminator.
  pose proof (create_line_mutex_fields env l) as (Hb & _ & _).
  unfold logger_printf_line in E.
  destruct format as [| |text];
    try (injection E as _ <- _ <-; rewrite ?Hb; split; [exact Hnt|constructor]).
  destruct (is_some _ && negb _);
    [injection E as _ <- _ <-; rewrite ?Hb; split; [exact Hnt|constructor]|].
  destruct (line_loop _ _ _ _ _ _) as [r|] eqn:Er; [|discriminate].
  injection E as _ <- _ <-.
  refine (line_loop_bodies_keep D emit level tag
            (fun b => strpbrk b = None) _ _ _ _ _ _ _ _ _ _ Er).
  - reflexivity.
  - intros z Hz. now apply strpbrk_firstn_none.
  - intros buf piece H1 H2 _. now apply strpbrk_none_app.
  - simpl. unfold line_len in *. now rewrite Hb.
  - simpl. now rewrite Hb.
  - constructor.
Qed.

Lemma records_hold_no_terminator_witness :
  exists ok l' d' rs,
    log_line line_env LOG_LEVEL_INFO (Some (txt "A"))
             (Rendered (txt "a" ++ [CR; LF] ++ txt "b" ++ [LF] ++ txt "c"))
             pending_partial boot_client = Some (ok, l', d', rs) /\
    strpbrk (line_buf l') = None /\ no_terminator rs /\
    map rec_body rs = [txt "partiala"; txt "b"] /\ line_buf l' = txt "c".
Proof.
  eexists _, _, _, _. split; [vm_compute; reflexivity|].
  split; [|split; [|split; reflexivity]].
  - eapply (records_hold_no_terminator Client client_emit line_env LOG_LEVEL_INFO
              (Some (txt "A")) (Rendered (txt "a" ++ [CR; LF] ++ txt "b" ++ [LF] ++ txt "c"))
              pending_partial boot_client).
    + rewrite LINE_MAX_val. unfold line_len. simpl. lia.
    + reflexivity.
    + vm_compute. reflexivity.
  - eapply (records_hold_no_terminator Client client_emit line_env LOG_LEVEL_INFO
              (Some (txt "A")) (Rendered (txt "a" ++ [CR; LF] ++ txt "b" ++ [LF] ++ txt "c"))
              pending_partial boot_client).
    + rewrite LINE_MAX_val. unfold line_len. simpl. lia.
    + reflexivity.
    + vm_compute. reflexivity.
Defined.

Lemma line_ends_cases (term : list ascii) :
  In term line_ends ->
  term <> [] /\ strpbrk term = Some 0%nat /\ skip_terminator term = [] /\
  Forall (fun c => is_nul c = false) term.
Proof.
  unfold line_ends. simpl.
  intros [<-|[<-|[<-|[<-|[]]]]]; repeat split; try discriminate; repeat constructor.
Qed.

Lemma strncpy_length (src : cstring) (n : nat) : (length (strncpy src n) <= n)%nat.
Proof. unfold strncpy. apply firstn_le_length. Qed.

Lemma logger_printf_line_complete (D : Type)
        (emit : log_level_t -> option cstring -> cstring -> D -> bool * D)
        env level tag line term l d :
  line_take_ok env = true -> In term line_ends -> plain line ->
  (length line + length term <= 255)%nat -> line_buf l = [] ->
  let tg := strncpy (tag_or_printf tag) (TAG_SIZE - 1) in
  logger_printf_line emit env level tag (Rendered (line ++ term)) l d =
  Some (fst (emit level (Some tg) line d),
        mkLine [] level [] (line_mutex (create_line_mutex env l)),
        snd (emit level (Some tg) line d),
        [mkRec level tg line]).
Proof.
  intros Ht Hterm [Hnt Hnul] Hlen Hempty tg.
  destruct (line_ends_cases term Hterm) as (Hne & Hst & Hskip & Htnul).
  pose proof LINE_MAX_val as HM.
  rewrite (logger_printf_line_loop D emit env level tag _ l d Ht).
  rewrite vsnprintf_id by (rewrite ?length_app; auto; apply Forall_app; auto).
  destruct (create_line_mutex_fields env l) as (Hb & _ & _). rewrite Hempty in Hb.
  destruct (create_line_mutex env l) as [buf lv ctg mx]. simpl in Hb. subst buf.
  simpl line_mutex.
  assert (Hnl : strpbrk (line ++ term) = Some (length line)).
  { rewrite (strpbrk_app_none line term Hnt), Hst. simpl. f_equal. lia. }
  assert (Hfirst : firstn (length line) (line ++ term) = line).
  { rewrite firstn_app, Nat.sub_diag, firstn_all. simpl. apply app_nil_r. }
  assert (Hrest : skipn (length line) (line ++ term) = term).
  { rewrite skipn_app, Nat.sub_diag, skipn_all. reflexivity. }
  remember (line ++ term) as tmp eqn:Etmp.
  destruct tmp as [|c p].
  { destruct line; destruct term; try discriminate; congruence. }
  assert (Hl : (length (c :: p) <= 255)%nat).
  { rewrite Etmp, length_app. exact Hlen. }
  simpl length at 1.
  rewrite line_loop_step_fits by (simpl pend; unfold line_len; simpl line_buf; simpl length in *; lia).
  cbv zeta. rewrite Hnl, Hfirst, Hrest, Hskip, line_loop_nil.
  clear HM Hl Hnl Hfirst Hrest Etmp Hlen.
  assert (Hset : attr_set level tag
                   (attr_flush emit level tag (mkAcc true (mkLine [] lv ctg mx) d []))
                 = mkAcc true (mkLine [] level tg mx) d []) by reflexivity.
  rewrite Hset.
  assert (Happ : append_chunk line (mkAcc true (mkLine [] level tg mx) d [])
                 = mkAcc true (mkLine line level tg mx) d []) by reflexivity.
  rewrite Happ.
  unfold end_of_line, do_emit. cbn [all_ok pend disp emitted line_buf cur_level cur_tag].
  destruct (emit level (Some tg) line d) as [r d0]. reflexivity.
Qed.





Lemma logger_output_sends env level tag message s w :
  reachable (s, w) -> ready s -> level <= min_level s -> all_ok_env env ->
  (length (match tag with Some t => t | None => txt "unknown" end) + length message
   <= 982)%nat ->
  exists h,
    udp s = Some h /\
    logger_output env level tag message s w =
    (true, incr_sent s,
     sendto h (syslog_render s (board_get_timestamp (rtc env) [] 20) level tag (Some message))
            (server s) (port s) true w).
Proof.
  intros Hreach Hr Hl (Ht & Ha & Hk & Hs) Hfit.
  destruct (ready_cases s Hr) as (h & m & Hi & Hu & Hm).
  exists h. split; [exact Hu|].
  rewrite (logger_output_ready _ _ _ _ _ _ Hr), Ht.
  destruct (Z.gtb_spec level (min_level s)); [lia|]. simpl negb. cbv iota.
  pose proof (logger_output_guarded_transport env level tag message s w h _ Hi Hu
                (syslog_format_msg_budget s w (rtc env) level tag message
                   Hreach Hfit)) as E.
  rewrite Ha, Hk, Hs in E. exact E.
Qed.

(** X18. On an initialized client a complete line of plain text given to
    an empty accumulator goes out as exactly one datagram: when the level
    passes the filter, the guard is obtained and lwIP accepts the datagram,
    the call returns true, one message is counted as sent, and the
    datagram carries the record of that line, whichever terminator ended
    it.  A line that fits a call always fits the record. *)
Theorem line_is_sent_as_one_datagram env level tag line term l c :
  line_take_ok env = true -> In term line_ends -> plain line ->
  (length line + length term <= 255)%nat -> line_buf l = [] ->
  reachable (syslog c, world c) -> ready (syslog c) ->
  level <= min_level (syslog c) -> all_ok_env (oracle c (tick c)) ->
  let tg := strncpy (tag_or_printf tag) (TAG_SIZE - 1) in
  exists h,
    udp (syslog c) = Some h /\
    log_line env level tag (Rendered (line ++ term)) l c =
    Some (true,
          mkLine [] level [] (line_mutex (create_line_mutex env l)),
          mkClient (incr_sent (syslog c))
            (sendto h
               (syslog_render (syslog c)
                  (board_get_timestamp (rtc (oracle c (tick c))) [] 20) level (Some tg)
                  (Some line))
               (server (syslog c)) (port (syslog c)) true (world c))
            (oracle c) (S (tick c)),
          [mkRec level tg line]).
Proof.
  intros Ht Hterm Hplain Hlen Hempty Hreach Hr Hl Henv tg.
  pose proof (strncpy_length (tag_or_printf tag) (TAG_SIZE - 1)) as Htg.
  change (TAG_SIZE - 1)%nat with 47%nat in Htg at 2.
  destruct (logger_output_sends (oracle c (tick c)) level (Some tg) line
              (syslog c) (world c) Hreach Hr Hl Henv) as (h & Hu & E).
  { cbv iota. subst tg. lia. }
  exists h. split; [exact Hu|].
  unfold log_line.
  rewrite (logger_printf_line_complete Client client_emit env level tag line term l c
             Ht Hterm Hplain Hlen Hempty).
  fold tg. unfold client_emit. rewrite E. reflexivity.
Qed.

Lemma line_is_sent_as_one_datagram_witness :
  exists h,
    udp configured_syslog = Some h /\
    log_line line_env LOG_LEVEL_ERROR (Some (txt "net")) (Rendered (txt "link down" ++ [LF]))
             line_init (mkClient configured_syslog configured_world (fun _ => calm) 0) =
    Some (true, mkLine [] LOG_LEVEL_ERROR [] (Some 2%nat),
          mkClient (incr_sent configured_syslog)
            (sendto h (txt "<11> craner logger[net]: link down")
                    (server configured_syslog) (port configured_syslog) true configured_world)
            (fun _ => calm) 1,
          [mkRec LOG_LEVEL_ERROR (txt "net") (txt "link down")]).
Proof.
  apply (line_is_sent_as_one_datagram line_env LOG_LEVEL_ERROR (Some (txt "net"))
           (txt "link down") [LF] line_init
           (mkClient configured_syslog configured_world (fun _ => calm) 0)).
  - reflexivity.
  - left. reflexivity.
  - split; [reflexivity|repeat constructor].
  - apply Nat.leb_le. reflexivity.
  - reflexivity.
  - exact configured_reachable.
  - repeat split; discriminate.
  - vm_compute. discriminate.
  - repeat split.
Defined.


